(** * Leasing tracker: filter, sort, import and export pipeline of [src/app/page.tsx]

    A shallow embedding of the [Home] component's data pipeline:
    the date-range and field filters, the sort engine and its toggle,
    the edit-form save, the CSV export and the CSV import.

    JavaScript values are modelled as follows.
    - strings: [string], code units restricted to U+0000..U+00FF;
    - numbers holding integers ([week], time values): [Z], with NaN as
      [None]; numbers and [Z] agree on the safe integers, below 2^53;
    - objects used as maps ([filters], parsed CSV rows): [gmap string string];
    - arrays: [list]; the array store of the sort engine is a [gmap] heap. *)

From Stdlib Require Import ZArith Lia Bool Ascii Sorting.Sorted Sorting.Permutation.
From stdpp Require Import gmap strings list fin_maps pretty.

Local Open Scope Z_scope.

(** ** JavaScript strings and numbers *)

Module JSString.

(** [s.includes(sub)]: [sub] occurs in [s] at some position. *)
Fixpoint includes (s sub : string) : bool :=
  String.prefix sub s ||
  match s with
  | EmptyString => false
  | String _ s' => includes s' sub
  end.

(** [toLowerCase] on one code unit of U+0000..U+00FF: A-Z and the
    Latin-1 capitals U+00C0..U+00DE except the multiplication sign. *)
Definition lower_char (c : ascii) : ascii :=
  let n := N_of_ascii c in
  if ((65 <=? n) && (n <=? 90))%N
     || ((192 <=? n) && (n <=? 222) && negb (n =? 215))%N
  then ascii_of_N (n + 32) else c.

Fixpoint toLowerCase (s : string) : string :=
  match s with
  | EmptyString => EmptyString
  | String c s' => String (lower_char c) (toLowerCase s')
  end.

(** [a < b] and [a > b] on strings: code-unit lexicographic order. *)
Definition lt (a b : string) : bool := String.ltb a b.
Definition gt (a b : string) : bool := String.ltb b a.

(** A falsy string is the empty one: [!s], [s || d]. *)
Definition truthy (s : string) : bool :=
  match s with EmptyString => false | _ => true end.

(** [v || d] where [v] is a string or [undefined]. *)
Definition or_else (v : option string) (d : string) : string :=
  match v with
  | Some s => if truthy s then s else d
  | None => d
  end.

Fixpoint join (sep : string) (l : list string) : string :=
  match l with
  | [] => EmptyString
  | [x] => x
  | x :: l' => x +:+ sep +:+ join sep l'
  end.

End JSString.

Module JSNumber.

(** Numbers are modelled where they are integers: week numbers. A
    JavaScript number holds every integer of magnitude up to 2^53 - 1
    exactly (the safe integers); on these the two functions below are
    the functions of the language. Beyond them the language rounds to
    the nearest double, prints the shortest digits that round back, from
    10^21 in exponent notation, and reads 309 digits or more as
    Infinity; none of that is modelled, and the theorems that depend on
    the value or the text of a week assume a safe integer.

    [Number.prototype.toString()] of a safe integer: decimal digits, a
    leading minus sign for negatives. *)
Definition toString (n : Z) : string := pretty n.

Definition digit_val (c : ascii) : option Z :=
  let n := Z.of_N (N_of_ascii c) in
  if (48 <=? n) && (n <=? 57) then Some (n - 48) else None.

(** The longest prefix of decimal digits, read left to right;
    [None] when the string does not start with a digit. *)
Fixpoint parse_digits (acc : option Z) (s : string) : option Z :=
  match s with
  | EmptyString => acc
  | String c s' =>
      match digit_val c with
      | Some d => parse_digits (Some (10 * default 0 acc + d)) s'
      | None => acc
      end
  end.

(** White space and line terminators of U+0000..U+00FF. *)
Definition is_white (c : ascii) : bool :=
  let n := N_of_ascii c in
  ((9 <=? n) && (n <=? 13) || (n =? 32) || (n =? 160))%N.

Fixpoint trim_start (s : string) : string :=
  match s with
  | String c s' => if is_white c then trim_start s' else s
  | EmptyString => EmptyString
  end.

(** [parseInt(v, 10)] for [v] a string or [undefined]; [None] is NaN.
    [undefined] is first converted to the string [undefined]. The
    result is the integer that the sign and the digits denote, which is
    the number that the language returns when it is a safe integer. *)
Definition parseInt (v : option string) : option Z :=
  let s := trim_start (default "undefined" v) in
  match s with
  | String "-" s' => Z.opp <$> parse_digits None s'
  | String "+" s' => parse_digits None s'
  | _ => parse_digits None s
  end.

End JSNumber.

(** ** Time values and [Date] (ECMA-262, section "Date Objects") *)

Module JSDate.

Definition msPerDay : Z := 86400000.
Definition msPerHour : Z := 3600000.
Definition msPerMinute : Z := 60000.
Definition msPerSecond : Z := 1000.

Definition Day (t : Z) : Z := t / msPerDay.
Definition TimeWithinDay (t : Z) : Z := t mod msPerDay.

Definition DaysInYear (y : Z) : Z :=
  if negb (y mod 4 =? 0) then 365
  else if negb (y mod 100 =? 0) then 366
  else if negb (y mod 400 =? 0) then 365
  else 366.

Definition DayFromYear (y : Z) : Z :=
  365 * (y - 1970) + (y - 1969) / 4 - (y - 1901) / 100 + (y - 1601) / 400.

Definition TimeFromYear (y : Z) : Z := msPerDay * DayFromYear y.

(** The year containing day number [d]: the largest [y] with
    [DayFromYear y <= d], found from the mean year length. *)
Definition YearFromDay (d : Z) : Z :=
  let y := 1970 + (400 * d) / 146097 in
  if DayFromYear (y + 1) <=? d then y + 1
  else if DayFromYear y <=? d then y
  else y - 1.

Definition YearFromTime (t : Z) : Z := YearFromDay (Day t).

(** 1 in a leap year, 0 otherwise. *)
Definition LeapYear (y : Z) : Z := if DaysInYear y =? 366 then 1 else 0.
Definition InLeapYear (t : Z) : Z := LeapYear (YearFromTime t).

Definition DayWithinYear (t : Z) : Z := Day t - DayFromYear (YearFromTime t).

(** Day within the year on which month [m] (0..11) begins. *)
Definition monthStart (m leap : Z) : Z :=
  match m with
  | 0 => 0 | 1 => 31 | 2 => 59 + leap | 3 => 90 + leap
  | 4 => 120 + leap | 5 => 151 + leap | 6 => 181 + leap
  | 7 => 212 + leap | 8 => 243 + leap | 9 => 273 + leap
  | 10 => 304 + leap | 11 => 334 + leap
  | _ => 365 + leap
  end.

Definition monthOfDay (dwy leap : Z) : Z :=
  if dwy <? 31 then 0
  else if dwy <? 59 + leap then 1
  else if dwy <? 90 + leap then 2
  else if dwy <? 120 + leap then 3
  else if dwy <? 151 + leap then 4
  else if dwy <? 181 + leap then 5
  else if dwy <? 212 + leap then 6
  else if dwy <? 243 + leap then 7
  else if dwy <? 273 + leap then 8
  else if dwy <? 304 + leap then 9
  else if dwy <? 334 + leap then 10
  else 11.

Definition MonthFromTime (t : Z) : Z :=
  monthOfDay (DayWithinYear t) (InLeapYear t).

Definition DateFromTime (t : Z) : Z :=
  DayWithinYear t - monthStart (MonthFromTime t) (InLeapYear t) + 1.

Definition HourFromTime (t : Z) : Z := (t / msPerHour) mod 24.
Definition MinFromTime (t : Z) : Z := (t / msPerMinute) mod 60.
Definition SecFromTime (t : Z) : Z := (t / msPerSecond) mod 60.
Definition msFromTime (t : Z) : Z := t mod msPerSecond.

Definition MakeTime (hour min sec ms : Z) : Z :=
  hour * msPerHour + min * msPerMinute + sec * msPerSecond + ms.

Definition MakeDay (year month dt : Z) : Z :=
  let ym := year + month / 12 in
  let mn := month mod 12 in
  DayFromYear ym + monthStart mn (LeapYear ym) + dt - 1.

Definition MakeDate (day time : Z) : Z := day * msPerDay + time.

(** [None] is NaN, the time value of an invalid [Date]. *)
Definition TimeClip (t : Z) : option Z :=
  if Z.abs t <=? 8640000000000000 then Some t else None.

(** [Date.UTC(year, month, date)]; a two-digit year means 19xx. *)
Definition UTC (year month dt : option Z) : option Z :=
  y ← year; m ← month; d ← dt;
  let yr := if (0 <=? y) && (y <=? 99) then 1900 + y else y in
  TimeClip (MakeDate (MakeDay yr m d) (MakeTime 0 0 0 0)).

(** [new Date(number)]. *)
Definition of_number (v : option Z) : option Z := v ≫= TimeClip.

(** [d.setUTCHours(0, 0, 0, 0)]: the new time value of [d]. *)
Definition setUTCHours0 (d : option Z) : option Z :=
  t ← d; TimeClip (MakeDate (Day t) (MakeTime 0 0 0 0)).

(** [a >= b] and [a <= b] on dates compare the time values; any
    comparison with NaN is false. *)
Definition ge (a b : option Z) : bool :=
  match a, b with Some x, Some y => y <=? x | _, _ => false end.
Definition le (a b : option Z) : bool :=
  match a, b with Some x, Some y => x <=? y | _, _ => false end.
Definition lt (a b : option Z) : bool :=
  match a, b with Some x, Some y => x <? y | _, _ => false end.
Definition gt (a b : option Z) : bool :=
  match a, b with Some x, Some y => y <? x | _, _ => false end.

(** [String(n).padStart(w, "0")] with the sign in front. *)
Fixpoint zeros (n : nat) : string :=
  match n with O => EmptyString | S n' => String "0" (zeros n') end.

Definition addLeadingZeros (n : Z) (w : nat) : string :=
  let digits := pretty (Z.abs n) in
  (if n <? 0 then "-" else EmptyString) +:+
  zeros (w - String.length digits) +:+ digits.

(** [d.toISOString()] of a valid time value. *)
Definition toISOString (t : Z) : string :=
  let y := YearFromTime t in
  (if (0 <=? y) && (y <=? 9999) then addLeadingZeros y 4
   else (if y <? 0 then "-" else "+") +:+ addLeadingZeros (Z.abs y) 6)
  +:+ "-" +:+ addLeadingZeros (MonthFromTime t + 1) 2
  +:+ "-" +:+ addLeadingZeros (DateFromTime t) 2
  +:+ "T" +:+ addLeadingZeros (HourFromTime t) 2
  +:+ ":" +:+ addLeadingZeros (MinFromTime t) 2
  +:+ ":" +:+ addLeadingZeros (SecFromTime t) 2
  +:+ "." +:+ addLeadingZeros (msFromTime t) 3
  +:+ "Z".

(** Fixed-width decimal fields of the ISO format. *)
Fixpoint fixed_digits (acc : Z) (s : string) : option Z :=
  match s with
  | EmptyString => Some acc
  | String c s' =>
      match JSNumber.digit_val c with
      | Some d => fixed_digits (10 * acc + d) s'
      | None => None
      end
  end.

(** Length of month [m] (0..11) of year [y]. *)
Definition DaysInMonth (y m : Z) : Z :=
  monthStart (m + 1) (LeapYear y) - monthStart m (LeapYear y).

Definition field (s : string) (start len : nat) : option Z :=
  let f := String.substring start len s in
  if bool_decide (String.length f = len) then fixed_digits 0 f else None.

Definition sep (s : string) (pos : nat) (c : ascii) : bool :=
  bool_decide (String.get pos s = Some c).

(** The two forms of the ECMAScript date-time string format that the
    application writes: [YYYY-MM-DD] (UTC midnight) and the
    [toISOString] form [YYYY-MM-DDTHH:mm:ss.sssZ]. *)
Definition parse_iso (s : string) : option Z :=
  y ← field s 0 4; m ← field s 5 2; d ← field s 8 2;
  if negb (sep s 4 "-" && sep s 7 "-") then None
  else if negb ((1 <=? m) && (m <=? 12) && (1 <=? d) && (d <=? DaysInMonth y (m - 1)))
  then None
  else
    let day := MakeDay y (m - 1) d in
    if bool_decide (String.length s = 10%nat) then TimeClip (MakeDate day 0)
    else if bool_decide (String.length s = 24%nat) then
      hh ← field s 11 2; mm ← field s 14 2; ss ← field s 17 2; ms ← field s 20 3;
      if negb (sep s 10 "T" && sep s 13 ":" && sep s 16 ":"
               && sep s 19 "." && sep s 23 "Z") then None
      else if negb ((hh <=? 23) && (mm <=? 59) && (ss <=? 59)) then None
      else TimeClip (MakeDate day (MakeTime hh mm ss ms))
    else None.

End JSDate.

(** ** The host environment *)

(** What the page takes from the browser and its libraries and the code
    cannot fix: the local time zone, the engine's date parser (free
    outside the ISO format), the [uuid] source and [JSON.stringify]. *)
Record Host := mkHost {
  (** offset of local time from UTC, in ms, at a UTC time value *)
  LocalTZA : Z -> Z;
  (** [new Date(string)]: the time value, [None] for an invalid date *)
  Date_parse : string -> option Z;
  (** the [n]-th identifier that [uuidv4()] returns *)
  uuidv4 : nat -> string;
  (** [JSON.stringify] of a parsed row *)
  JSON_stringify : gmap string string -> string
}.

Module LocalDate.

Definition LocalTime (h : Host) (t : Z) : Z := t + LocalTZA h t.

(** [new Date(string)]: the parsed time value, clipped to the range of
    time values. *)
Definition of_string (h : Host) (s : string) : option Z :=
  Date_parse h s ≫= JSDate.TimeClip.

Definition getFullYear (h : Host) (d : option Z) : option Z :=
  (fun t => JSDate.YearFromTime (LocalTime h t)) <$> d.
Definition getMonth (h : Host) (d : option Z) : option Z :=
  (fun t => JSDate.MonthFromTime (LocalTime h t)) <$> d.
Definition getDate (h : Host) (d : option Z) : option Z :=
  (fun t => JSDate.DateFromTime (LocalTime h t)) <$> d.

(** date-fns [format(d, 'yyyy-MM-dd')]: local calendar fields, the year
    printed as a year of the era; [None] is the [RangeError] thrown on
    an invalid date. *)
Definition format_yyyy_MM_dd (h : Host) (d : option Z) : option string :=
  t ← d;
  let lt := LocalTime h t in
  let signedYear := JSDate.YearFromTime lt in
  let year := if 0 <? signedYear then signedYear else 1 - signedYear in
  Some (JSDate.addLeadingZeros year 4
        +:+ "-" +:+ JSDate.addLeadingZeros (JSDate.MonthFromTime lt + 1) 2
        +:+ "-" +:+ JSDate.addLeadingZeros (JSDate.DateFromTime lt) 2).

End LocalDate.

(** ** The data model ([@/lib/types], [LeasingFilter], [SortConfig]) *)

(** Modelled from the spec: the declaration of [LeasingEntry] lives in
    [@/lib/types]; section 3 of the specification gives its nine fields. *)
Record LeasingEntry := mkEntry {
  id : string;
  week : Z;
  date : string;
  tenantName : string;
  businessName : string;
  businessType : string;
  contact : string;
  notes : string;
  status : string
}.

(** [keyof LeasingEntry]. *)
Inductive EntryKey :=
  | Kid | Kweek | Kdate | KtenantName | KbusinessName
  | KbusinessType | Kcontact | Knotes | Kstatus.

Global Instance EntryKey_eq_dec : EqDecision EntryKey.
Proof. solve_decision. Defined.

(** What a property read [entry[key]] evaluates to. *)
Inductive JSValue :=
  | VNumber (n : Z)
  | VString (s : string)
  | VUndefined.

Definition entry_get (k : EntryKey) (e : LeasingEntry) : JSValue :=
  match k with
  | Kid => VString (id e)
  | Kweek => VNumber (week e)
  | Kdate => VString (date e)
  | KtenantName => VString (tenantName e)
  | KbusinessName => VString (businessName e)
  | KbusinessType => VString (businessType e)
  | Kcontact => VString (contact e)
  | Knotes => VString (notes e)
  | Kstatus => VString (status e)
  end.

Inductive Direction := ascending | descending.

Global Instance Direction_eq_dec : EqDecision Direction.
Proof. solve_decision. Defined.

Record SortSpec := mkSort { key : EntryKey; direction : Direction }.

(** [SortConfig = { key, direction } | null]. *)
Definition SortConfig := option SortSpec.

(** [Date | undefined]: [None] is [undefined], [Some d] a [Date] object
    with time value [d] ([Some None] is an invalid date). *)
Record DateRange := mkRange {
  from : option (option Z);
  to : option (option Z)
}.

Inductive ToastVariant := default_variant | destructive.

Record Toast := mkToast {
  variant : ToastVariant;
  title : string;
  description : string
}.

(** The part of the component state that the handlers below read and
    write: the entry store and the edit dialog, and the notifications
    shown so far. *)
Record HomeState := mkHome {
  data : list LeasingEntry;
  entryToEdit : option LeasingEntry;
  isAddEditDialogOpen : bool;
  toasts : list Toast
}.

(** ** The date-range filter (lines 93-110) *)

Definition inDateRange (h : Host) (range : option DateRange) (entry : LeasingEntry) : bool :=
  match range ≫= from with
  | None => true
  | Some from =>
      let entryDate := LocalDate.of_string h (date entry) in
      let fromInUTC :=
        JSDate.of_number
          (JSDate.UTC (LocalDate.getFullYear h from) (LocalDate.getMonth h from)
                      (LocalDate.getDate h from)) in
      let to := default from (range ≫= to) in
      let toInUTC :=
        JSDate.of_number
          (JSDate.UTC (LocalDate.getFullYear h to) (LocalDate.getMonth h to)
                      (LocalDate.getDate h to)) in
      let entryDateAtMidnight := JSDate.of_number (JSDate.setUTCHours0 entryDate) in
      JSDate.ge entryDateAtMidnight fromInUTC && JSDate.le entryDateAtMidnight toInUTC
  end.

Definition filteredByDate (h : Host) (range : option DateRange)
    (data : list LeasingEntry) : list LeasingEntry :=
  List.filter (inDateRange h range) data.

(** ** The field filter (lines 112-133) *)

Definition EntryKey_of_string (s : string) : option EntryKey :=
  if bool_decide (s = "id") then Some Kid
  else if bool_decide (s = "week") then Some Kweek
  else if bool_decide (s = "date") then Some Kdate
  else if bool_decide (s = "tenantName") then Some KtenantName
  else if bool_decide (s = "businessName") then Some KbusinessName
  else if bool_decide (s = "businessType") then Some KbusinessType
  else if bool_decide (s = "contact") then Some Kcontact
  else if bool_decide (s = "notes") then Some Knotes
  else if bool_decide (s = "status") then Some Kstatus
  else None.

(** [entry[key]] for an arbitrary property name. *)
Definition entry_lookup (e : LeasingEntry) (k : string) : JSValue :=
  match EntryKey_of_string k with
  | Some k' => entry_get k' e
  | None => VUndefined
  end.

Definition Object_keys (m : gmap string string) : list string :=
  (map_to_list m).*1.

Definition matchesFilters (filters : gmap string string) (entry : LeasingEntry) : bool :=
  forallb (fun key =>
    match filters !! key with
    | None => true
    | Some filterValue =>
        if negb (JSString.truthy filterValue) then true
        else if bool_decide (key = "week") then
          JSString.includes (JSNumber.toString (week entry)) filterValue
        else if bool_decide (key = "date") then
          JSString.includes (date entry) filterValue
        else
          match entry_lookup entry key with
          | VString entryValue =>
              JSString.includes (JSString.toLowerCase entryValue)
                                (JSString.toLowerCase filterValue)
          | _ => true
          end
    end) (Object_keys filters).

Definition finalFiltered (filters : gmap string string)
    (filteredByDate : list LeasingEntry) : list LeasingEntry :=
  List.filter (matchesFilters filters) filteredByDate.

(** The first effect as a whole: [setFilteredData(finalFiltered)]. *)
Definition filteredData (h : Host) (range : option DateRange)
    (filters : gmap string string) (data : list LeasingEntry) : list LeasingEntry :=
  finalFiltered filters (filteredByDate h range data).

(** ** The sort engine (lines 138-171) *)

(** [a < b] and [a > b] on two values read from the same field. *)
Definition value_lt (a b : JSValue) : bool :=
  match a, b with
  | VNumber x, VNumber y => x <? y
  | VString x, VString y => JSString.lt x y
  | _, _ => false
  end.

Definition value_gt (a b : JSValue) : bool := value_lt b a.

(** [String(v)]. *)
Definition String_of (v : JSValue) : string :=
  match v with
  | VNumber n => JSNumber.toString n
  | VString s => s
  | VUndefined => "undefined"
  end.

(** [new Date(v).getTime()]. *)
Definition getTime_of (h : Host) (v : JSValue) : option Z :=
  match v with
  | VNumber n => JSDate.TimeClip n
  | VString s => LocalDate.of_string h s
  | VUndefined => None
  end.

(** The comparator handed to [sort]. *)
Definition compareFn (h : Host) (sortConfig : SortSpec) (a b : LeasingEntry) : Z :=
  let aValue := entry_get (key sortConfig) a in
  let bValue := entry_get (key sortConfig) b in
  let asc := bool_decide (direction sortConfig = ascending) in
  if bool_decide (key sortConfig = Kweek) then
    if value_lt aValue bValue then (if asc then -1 else 1)
    else if value_gt aValue bValue then (if asc then 1 else -1)
    else 0
  else if bool_decide (key sortConfig = Kdate) then
    let dateA := getTime_of h aValue in
    let dateB := getTime_of h bValue in
    if JSDate.lt dateA dateB then (if asc then -1 else 1)
    else if JSDate.gt dateA dateB then (if asc then 1 else -1)
    else 0
  else
    if JSString.lt (JSString.toLowerCase (String_of aValue))
                   (JSString.toLowerCase (String_of bValue))
    then (if asc then -1 else 1)
    else if JSString.gt (JSString.toLowerCase (String_of aValue))
                        (JSString.toLowerCase (String_of bValue))
    then (if asc then 1 else -1)
    else 0.

(** [Array.prototype.sort(cmp)] is a stable sort; for a consistent
    comparator its result is fixed by the language. It is modelled by the
    stable insertion sort: an element moves behind exactly those elements
    that the comparator puts strictly before it. *)
Module JSArray.
Section Sort.
Context {A : Type} (cmp : A -> A -> Z).

Fixpoint insert (x : A) (l : list A) : list A :=
  match l with
  | [] => [x]
  | y :: l' => if 0 <? cmp x y then y :: insert x l' else x :: l
  end.

Definition sort (l : list A) : list A := foldr insert [] l.
End Sort.
End JSArray.

(** Arrays are objects: the store maps array references to contents. *)
Module Store.

Abbreviation ref := positive (only parsing).
Abbreviation heap := (gmap positive (list LeasingEntry)) (only parsing).

(** Computations over the array store; [None] is a dangling reference. *)
Definition M (A : Type) : Type := heap -> option (A * heap).

Definition ret {A} (x : A) : M A := fun σ => Some (x, σ).
Definition bind {A B} (m : M A) (k : A -> M B) : M B :=
  fun σ => match m σ with Some (x, σ') => k x σ' | None => None end.

(** [[...a]]: a new array with the elements of [a]. *)
Definition spread (a : ref) : M ref :=
  fun σ => match σ !! a with
           | Some l => let r := fresh (dom σ) in Some (r, <[r := l]> σ)
           | None => None
           end.

(** [a.sort(cmp)]: sorts the array [a] in place. *)
Definition sort_in_place (cmp : LeasingEntry -> LeasingEntry -> Z) (a : ref) : M unit :=
  fun σ => match σ !! a with
           | Some l => Some (tt, <[a := JSArray.sort cmp l]> σ)
           | None => None
           end.

End Store.

Notation "'let*' x := m 'in' k" := (Store.bind m (fun x => k))
  (at level 10, x name, m at level 100, k at level 200, only parsing).

Definition sortedData (h : Host) (filteredData : positive) (sortConfig : SortConfig)
    : Store.M positive :=
  let* sortableItems := Store.spread filteredData in
  let* _ := match sortConfig with
            | Some c => Store.sort_in_place (compareFn h c) sortableItems
            | None => Store.ret tt
            end in
  Store.ret sortableItems.

(** The value of the array that [sortedData] returns. *)
Definition sortedList (h : Host) (sortConfig : SortConfig)
    (filteredData : list LeasingEntry) : list LeasingEntry :=
  match sortConfig with
  | Some c => JSArray.sort (compareFn h c) filteredData
  | None => filteredData
  end.

(** ** [handleSort] (lines 173-179) *)

Definition handleSort (sortConfig : SortConfig) (k : EntryKey) : SortConfig :=
  let direction0 := ascending in
  let direction1 :=
    match sortConfig with
    | Some c =>
        if bool_decide (key c = k) && bool_decide (direction c = ascending)
        then descending else direction0
    | None => direction0
    end in
  Some {| key := k; direction := direction1 |}.

(** ** [handleSave] (lines 195-203) *)

Definition handleSave (st : HomeState) (entry : LeasingEntry) : HomeState :=
  let data' :=
    match entryToEdit st with
    | Some _ =>
        List.map (fun item => if bool_decide (id item = id entry) then entry else item)
                 (data st)
    | None => entry :: data st
    end in
  {| data := data'; entryToEdit := None; isAddEditDialogOpen := false;
     toasts := toasts st |}.

(** ** Papa Parse: [Papa.unparse] and [Papa.parse] *)

Module Papa.

Definition dquote : ascii := Ascii false true false false false true false false.
Definition comma : ascii := ","%char.
Definition CR : ascii := "013"%char.
Definition LF : ascii := "010"%char.
Definition space : ascii := " "%char.

(** The default line break of [unparse]. *)
Definition newline : string := String CR (String LF EmptyString).

(** [str.replace(quoteCharRegex, escapedQuote)]: every quote is doubled. *)
Fixpoint escapeQuotes (s : string) : string :=
  match s with
  | EmptyString => EmptyString
  | String c s' =>
      if Ascii.eqb c dquote then String dquote (String dquote (escapeQuotes s'))
      else String c (escapeQuotes s')
  end.

(** A character that forces quotes: the bad delimiters CR, LF and the
    quote, and the delimiter itself. *)
Definition is_special (c : ascii) : bool :=
  Ascii.eqb c CR || Ascii.eqb c LF || Ascii.eqb c dquote || Ascii.eqb c comma.

Fixpoint hasSpecial (s : string) : bool :=
  match s with
  | EmptyString => false
  | String c s' => is_special c || hasSpecial s'
  end.

Definition firstIs (c : ascii) (s : string) : bool :=
  match s with String c' _ => Ascii.eqb c' c | EmptyString => false end.

Fixpoint lastIs (c : ascii) (s : string) : bool :=
  match s with
  | EmptyString => false
  | String c' EmptyString => Ascii.eqb c' c
  | String _ s' => lastIs c s'
  end.

(** [safe(str)]: the text of one cell. *)
Definition safe (str : string) : string :=
  let escapedQuoteStr := escapeQuotes str in
  let needsQuotes :=
    hasSpecial escapedQuoteStr || firstIs space escapedQuoteStr
    || lastIs space escapedQuoteStr in
  if needsQuotes then String dquote (escapedQuoteStr +:+ String dquote EmptyString)
  else escapedQuoteStr.

(** A cell holding [undefined] is written as the empty text. *)
Definition safe_value (v : JSValue) : string :=
  match v with
  | VUndefined => EmptyString
  | _ => safe (String_of v)
  end.

(** [Papa.unparse({ fields, data })] for [data] an array of objects read
    through [get]: the header line, a line break, and the data lines
    separated by line breaks. *)
Definition unparse {R : Type} (get : R -> string -> JSValue)
    (fields : list string) (data : list R) : string :=
  JSString.join (String comma EmptyString) (safe <$> fields)
  +:+ newline
  +:+ JSString.join newline
        ((fun row => JSString.join (String comma EmptyString)
                       ((fun f => safe_value (get row f)) <$> fields)) <$> data).

(** The parser, for the delimiter [","] and the line break CR LF (what
    the detection of [Papa.parse] settles on for a text written by
    [unparse] above), as a machine reading one character at a time. A
    field opens with a quote or is taken up to the next delimiter or line
    break; inside quotes a doubled quote is one quote; a quote followed
    by anything but a quote, the delimiter, a line break or the end of
    the text is kept as text. A text with other line breaks or another
    delimiter, for which the library would settle on those, is outside
    this model. *)
Inductive pstate :=
  | FieldStart   (* at the first character of a field *)
  | Unquoted     (* inside a field that did not open with a quote *)
  | Quoted       (* inside a quoted field *)
  | QuoteSeen    (* after a quote inside a quoted field *)
  | SkipLF.      (* at the LF of a line break already recognised *)

Global Instance pstate_eq_dec : EqDecision pstate.
Proof. solve_decision. Defined.

Definition starts_with_LF (s : string) : bool := firstIs LF s.

Definition close_field (field : list ascii) (row : list string) : list string :=
  String.string_of_list_ascii (rev field) :: row.

Definition close_row (field : list ascii) (row : list string)
    (rows : list (list string)) : list (list string) :=
  rev (close_field field row) :: rows.

(** [field], [row] and [rows] are accumulated in reverse. *)
Fixpoint parse_go (st : pstate) (field : list ascii) (row : list string)
    (rows : list (list string)) (s : string) : list (list string) :=
  match s with
  | EmptyString => rev (close_row field row rows)
  | String c s' =>
      match st with
      | SkipLF => parse_go FieldStart [] [] rows s'
      | FieldStart | Unquoted =>
          if Ascii.eqb c comma then
            parse_go FieldStart [] (close_field field row) rows s'
          else if Ascii.eqb c CR && starts_with_LF s' then
            parse_go SkipLF [] [] (close_row field row rows) s'
          else if Ascii.eqb c dquote && bool_decide (st = FieldStart) then
            parse_go Quoted [] row rows s'
          else parse_go Unquoted (c :: field) row rows s'
      | Quoted =>
          if Ascii.eqb c dquote then parse_go QuoteSeen field row rows s'
          else parse_go Quoted (c :: field) row rows s'
      | QuoteSeen =>
          if Ascii.eqb c dquote then parse_go Quoted (dquote :: field) row rows s'
          else if Ascii.eqb c comma then
            parse_go FieldStart [] (close_field field row) rows s'
          else if Ascii.eqb c CR && starts_with_LF s' then
            parse_go SkipLF [] [] (close_row field row rows) s'
          else parse_go Quoted (c :: dquote :: field) row rows s'
      end
  end.

Definition parse_rows (input : string) : list (list string) :=
  parse_go FieldStart [] [] [] input.

(** [skipEmptyLines: true] drops the rows that are one empty field. *)
Definition testEmptyLine (r : list string) : bool :=
  bool_decide (r = [EmptyString]).

(** [header: true]: a row becomes an object keyed by the header fields;
    surplus cells are not keyed. The model is for header names that
    differ from each other, as those of the export do. *)
Definition to_object (fields row : list string) : gmap string string :=
  foldl (fun m kv => <[kv.1 := kv.2]> m) ∅ (zip fields row).

(** [results.data] of [Papa.parse(file, { header: true, skipEmptyLines: true })]. *)
Definition parse (input : string) : list (gmap string string) :=
  match List.filter (fun r => negb (testEmptyLine r)) (parse_rows input) with
  | [] => []
  | fields :: rows => to_object fields <$> rows
  end.

End Papa.

(** ** [handleDownload] (lines 251-279) *)

Definition headers : list string :=
  ["id"; "week"; "date"; "tenantName"; "businessName";
   "businessType"; "contact"; "notes"; "status"].

Definition with_date (entry : LeasingEntry) (d : string) : LeasingEntry :=
  {| id := id entry; week := week entry; date := d;
     tenantName := tenantName entry; businessName := businessName entry;
     businessType := businessType entry; contact := contact entry;
     notes := notes entry; status := status entry |}.

(** The file offered for download: the blob text and the file name. *)
Record Download := mkDownload {
  blob : string;
  download : string
}.

(** [None]: [format] threw on an invalid date and nothing is downloaded. *)
Definition handleDownload (h : Host) (now : Z) (sortedData : list LeasingEntry)
    : option Download :=
  dataToExport ← mapM (fun entry =>
      d ← LocalDate.format_yyyy_MM_dd h (LocalDate.of_string h (date entry));
      Some (with_date entry d)) sortedData;
  let csv := Papa.unparse entry_lookup headers dataToExport in
  today ← LocalDate.format_yyyy_MM_dd h (JSDate.of_number (Some now));
  Some {| blob := csv; download := "leasing_report_" +:+ today +:+ ".csv" |}.

(** ** [handleFileUpload] (lines 285-346) *)

(** [!v] for [v] a string or [undefined]. *)
Definition falsy (v : option string) : bool :=
  match v with Some s => negb (JSString.truthy s) | None => true end.

(** The body of the [map] callback: [inl] is the message of the [Error]
    thrown; the natural number counts the calls of [uuidv4] so far. *)
Definition uploadRow (h : Host) (row : gmap string string) (n : nat)
    : string + (LeasingEntry * nat) :=
  if falsy (row !! "date") || falsy (row !! "tenantName") then
    inl ("Row is missing required fields (date, tenantName): " +:+ JSON_stringify h row)
  else
    match LocalDate.of_string h (default EmptyString (row !! "date")) with
    | None => inl ("Invalid date format for row: " +:+ JSON_stringify h row)
    | Some t =>
        match JSNumber.parseInt (row !! "week") with
        | None => inl ("Invalid week format for row: " +:+ JSON_stringify h row)
        | Some w =>
            let '(i, n') :=
              if falsy (row !! "id") then (uuidv4 h n, S n)
              else (default EmptyString (row !! "id"), n) in
            inr ({| id := i;
                    week := w;
                    date := JSDate.toISOString t;
                    tenantName := JSString.or_else (row !! "tenantName") EmptyString;
                    businessName := JSString.or_else (row !! "businessName") EmptyString;
                    businessType := JSString.or_else (row !! "businessType") EmptyString;
                    contact := JSString.or_else (row !! "contact") EmptyString;
                    notes := JSString.or_else (row !! "notes") EmptyString;
                    status := JSString.or_else (row !! "status") EmptyString |}, n')
        end
    end.

(** [results.data.map(...)]: rows in order, stopping at the first throw. *)
Fixpoint uploadRows (h : Host) (rows : list (gmap string string)) (n : nat)
    : string + list LeasingEntry :=
  match rows with
  | [] => inr []
  | row :: rows' =>
      match uploadRow h row n with
      | inl message => inl message
      | inr (entry, n') =>
          match uploadRows h rows' n' with
          | inl message => inl message
          | inr entries => inr (entry :: entries)
          end
      end
  end.

Definition set_data (st : HomeState) (d : list LeasingEntry) : HomeState :=
  {| data := d; entryToEdit := entryToEdit st;
     isAddEditDialogOpen := isAddEditDialogOpen st; toasts := toasts st |}.

Definition toast (st : HomeState) (t : Toast) : HomeState :=
  {| data := data st; entryToEdit := entryToEdit st;
     isAddEditDialogOpen := isAddEditDialogOpen st; toasts := toasts st ++ [t] |}.

(** The [complete] callback on [results.data]. *)
Definition complete (h : Host) (n : nat) (rows : list (gmap string string))
    (st : HomeState) : HomeState :=
  match uploadRows h rows n with
  | inr uploadedData =>
      toast (set_data st uploadedData)
        {| variant := default_variant;
           title := "Upload Successful";
           description :=
             JSNumber.toString (Z.of_nat (length uploadedData))
             +:+ " entries loaded. Click 'Save' to persist changes." |}
  | inl message =>
      toast st
        {| variant := destructive;
           title := "Upload Failed";
           description :=
             JSString.or_else (Some message)
               "Could not parse the CSV file. Please check the format." |}
  end.

(** What the file input delivers: no file chosen, a file that cannot be
    read, or the text of the file. *)
Inductive FileInput :=
  | NoFile
  | Unreadable
  | FileText (text : string).

Definition handleFileUpload (h : Host) (n : nat) (file : FileInput)
    (st : HomeState) : HomeState :=
  match file with
  | NoFile => st
  | Unreadable =>
      toast st {| variant := destructive; title := "Upload Failed";
                  description := "Could not read the file." |}
  | FileText text => complete h n (Papa.parse text) st
  end.

(** ** The other handlers of the page (lines 181-232, 756-783) *)

(** [handleAddNew], [handleEdit] and the [onOpenChange] of the
    add/edit dialog. *)
Definition handleAddNew (st : HomeState) : HomeState :=
  {| data := data st; entryToEdit := None; isAddEditDialogOpen := true;
     toasts := toasts st |}.

Definition handleEdit (entry : LeasingEntry) (st : HomeState) : HomeState :=
  {| data := data st; entryToEdit := Some entry; isAddEditDialogOpen := true;
     toasts := toasts st |}.

Definition dialogOpenChange (isOpen : bool) (st : HomeState) : HomeState :=
  {| data := data st;
     entryToEdit := if negb isOpen then None else entryToEdit st;
     isAddEditDialogOpen := isOpen;
     toasts := toasts st |}.

(** The state of the page: the store and the edit dialog, the entry
    awaiting deletion, the committed and the draft filters, the sort
    selection and the date range (the state variable [date]). *)
Record PageState := mkPage {
  home : HomeState;
  entryToDelete : option LeasingEntry;
  filters : gmap string string;
  tempFilters : gmap string string;
  isFilterPopoverOpen : bool;
  sortConfig : SortConfig;
  dateRange : option DateRange
}.

Definition with_home (p : PageState) (st : HomeState) : PageState :=
  {| home := st; entryToDelete := entryToDelete p; filters := filters p;
     tempFilters := tempFilters p; isFilterPopoverOpen := isFilterPopoverOpen p;
     sortConfig := sortConfig p; dateRange := dateRange p |}.

Definition with_entryToDelete (p : PageState) (e : option LeasingEntry) : PageState :=
  {| home := home p; entryToDelete := e; filters := filters p;
     tempFilters := tempFilters p; isFilterPopoverOpen := isFilterPopoverOpen p;
     sortConfig := sortConfig p; dateRange := dateRange p |}.

Definition with_filters (p : PageState) (f t : gmap string string) (o : bool)
    : PageState :=
  {| home := home p; entryToDelete := entryToDelete p; filters := f;
     tempFilters := t; isFilterPopoverOpen := o;
     sortConfig := sortConfig p; dateRange := dateRange p |}.

(** [handleDelete] and [confirmDelete] (lines 191-193, 205-210). *)
Definition handleDelete (entry : LeasingEntry) (p : PageState) : PageState :=
  with_entryToDelete p (Some entry).

Definition confirmDelete (p : PageState) : PageState :=
  match entryToDelete p with
  | Some del =>
      with_entryToDelete
        (with_home p
           (set_data (home p)
              (List.filter (fun item => negb (bool_decide (id item = id del)))
                           (data (home p)))))
        None
  | None => p
  end.

(** The cancel button of the delete dialog and its [onOpenChange]. *)
Definition deleteDialogOpenChange (isOpen : bool) (p : PageState) : PageState :=
  if negb isOpen then with_entryToDelete p None else p.

(** The filter popover (lines 212-232). *)
Definition handleApplyFilters (p : PageState) : PageState :=
  with_filters p (tempFilters p) (tempFilters p) false.

Definition handleResetFilters (p : PageState) : PageState :=
  with_filters p ∅ ∅ false.

Definition handleFilterPopoverOpenChange (open : bool) (p : PageState) : PageState :=
  with_filters p (filters p) (if open then filters p else tempFilters p) open.

Definition handleTempFilterChange (k value : string) (p : PageState) : PageState :=
  with_filters p (filters p) (<[k := value]> (tempFilters p)) (isFilterPopoverOpen p).

(** The state the component starts in (lines 56-76); [r] is the range
    1 to 30 June 2025 in local time. *)
Definition initialPage (r : option DateRange) : PageState :=
  {| home := {| data := []; entryToEdit := None; isAddEditDialogOpen := false;
                toasts := [] |};
     entryToDelete := None; filters := ∅; tempFilters := ∅;
     isFilterPopoverOpen := false; sortConfig := None; dateRange := r |}.

(** What the user and the mount effect can make the page do: each action
    is one handler of the JSX tree, run to completion. *)
Inductive Action :=
  | ActLoad (stored : list LeasingEntry)
  | ActAddNew
  | ActEdit (entry : LeasingEntry)
  | ActSave (entry : LeasingEntry)
  | ActDialogOpenChange (isOpen : bool)
  | ActDelete (entry : LeasingEntry)
  | ActConfirmDelete
  | ActDeleteDialogOpenChange (isOpen : bool)
  | ActApplyFilters
  | ActResetFilters
  | ActFilterPopoverOpenChange (open : bool)
  | ActTempFilterChange (k value : string)
  | ActSort (k : EntryKey)
  | ActSetDate (r : option DateRange)
  | ActUpload (n : nat) (file : FileInput).

Definition dispatch (h : Host) (p : PageState) (a : Action) : PageState :=
  match a with
  | ActLoad stored => with_home p (set_data (home p) stored)
  | ActAddNew => with_home p (handleAddNew (home p))
  | ActEdit entry => with_home p (handleEdit entry (home p))
  | ActSave entry => with_home p (handleSave (home p) entry)
  | ActDialogOpenChange isOpen => with_home p (dialogOpenChange isOpen (home p))
  | ActDelete entry => handleDelete entry p
  | ActConfirmDelete => confirmDelete p
  | ActDeleteDialogOpenChange isOpen => deleteDialogOpenChange isOpen p
  | ActApplyFilters => handleApplyFilters p
  | ActResetFilters => handleResetFilters p
  | ActFilterPopoverOpenChange open => handleFilterPopoverOpenChange open p
  | ActTempFilterChange k value => handleTempFilterChange k value p
  | ActSort k =>
      {| home := home p; entryToDelete := entryToDelete p; filters := filters p;
         tempFilters := tempFilters p; isFilterPopoverOpen := isFilterPopoverOpen p;
         sortConfig := handleSort (sortConfig p) k; dateRange := dateRange p |}
  | ActSetDate r =>
      {| home := home p; entryToDelete := entryToDelete p; filters := filters p;
         tempFilters := tempFilters p; isFilterPopoverOpen := isFilterPopoverOpen p;
         sortConfig := sortConfig p; dateRange := r |}
  | ActUpload n file => with_home p (handleFileUpload h n file (home p))
  end.

Definition run (h : Host) (p : PageState) (actions : list Action) : PageState :=
  foldl (dispatch h) p actions.

(** The rows that the table shows: [data={sortedData}]. *)
Definition displayed (h : Host) (p : PageState) : list LeasingEntry :=
  sortedList h (sortConfig p)
    (filteredData h (dateRange p) (filters p) (data (home p))).

(** ** The report exports (lines 348-551) *)

(** The texts of the page that the reports print; [UiText] is declared
    in [@/lib/translate], these are the fields the exports read. *)
Record UiText := mkUiText {
  reportTitle : string;
  staffNameLabel : string;
  tableHeaderNo : string;
  tableHeaderWeek : string;
  tableHeaderDate : string;
  tableHeaderTenantName : string;
  tableHeaderBusinessName : string;
  tableHeaderBusinessType : string;
  tableHeaderContact : string;
  tableHeaderNotes : string;
  tableHeaderStatus : string
}.

(** A cell of a report: a number or a string. *)
Inductive Cell :=
  | CNumber (n : Z)
  | CString (s : string).

(** The year that date-fns prints for [yyyy]: the year of the era. *)
Definition era_year (signedYear : Z) : Z :=
  if 0 <? signedYear then signedYear else 1 - signedYear.

(** date-fns [format(d, 'dd/MM/yyyy')]; [None] is the [RangeError]. *)
Definition format_dd_MM_yyyy (h : Host) (d : option Z) : option string :=
  t ← d;
  let lt := LocalDate.LocalTime h t in
  Some (JSDate.addLeadingZeros (JSDate.DateFromTime lt) 2
        +:+ "/" +:+ JSDate.addLeadingZeros (JSDate.MonthFromTime lt + 1) 2
        +:+ "/" +:+ JSDate.addLeadingZeros (era_year (JSDate.YearFromTime lt)) 4).

Definition month_names : list string :=
  ["January"; "February"; "March"; "April"; "May"; "June"; "July"; "August";
   "September"; "October"; "November"; "December"].

(** date-fns [format(d, "d MMMM yyyy")] in its default locale. *)
Definition format_d_MMMM_yyyy (h : Host) (d : option Z) : option string :=
  t ← d;
  let lt := LocalDate.LocalTime h t in
  Some (JSDate.addLeadingZeros (JSDate.DateFromTime lt) 1
        +:+ " " +:+ default EmptyString (month_names !! Z.to_nat (JSDate.MonthFromTime lt))
        +:+ " " +:+ JSDate.addLeadingZeros (era_year (JSDate.YearFromTime lt)) 4).

(** [reportPeriod] and [periodText] (lines 350-354, 491-495). *)
Definition reportPeriod (h : Host) (range : option DateRange) : option string :=
  match range ≫= from with
  | Some from =>
      match range ≫= to with
      | Some to =>
          a ← format_d_MMMM_yyyy h from;
          b ← format_d_MMMM_yyyy h to;
          Some ("Period: " +:+ a +:+ " - " +:+ b)
      | None =>
          a ← format_d_MMMM_yyyy h from;
          Some ("Period: " +:+ a)
      end
  | None => Some "Period: All Data"
  end.

(** [headers] of the worksheet and [tableColumn] of the PDF. *)
Definition tableColumn (uiText : UiText) : list Cell :=
  CString <$> [tableHeaderNo uiText; tableHeaderWeek uiText; tableHeaderDate uiText;
               tableHeaderTenantName uiText; tableHeaderBusinessName uiText;
               tableHeaderBusinessType uiText; tableHeaderContact uiText;
               tableHeaderNotes uiText; tableHeaderStatus uiText].

(** [array.map((entry, index) => ...)] with a callback that can throw. *)
Fixpoint map_with_index {A B : Type} (f : A -> nat -> option B) (index : nat)
    (l : list A) : option (list B) :=
  match l with
  | [] => Some []
  | x :: l' =>
      y ← f x index;
      ys ← map_with_index f (S index) l';
      Some (y :: ys)
  end.

(** The callback of [dataToExport] (lines 362-372). *)
Definition xlsxRow (h : Host) (entry : LeasingEntry) (index : nat) : option (list Cell) :=
  d ← format_dd_MM_yyyy h (LocalDate.of_string h (date entry));
  Some [CNumber (Z.of_nat index + 1);
        CNumber (week entry);
        CString d;
        CString (tenantName entry);
        CString (businessName entry);
        CString (businessType entry);
        CString (contact entry);
        CString (JSString.or_else (Some (notes entry)) EmptyString);
        CString (JSString.or_else (Some (status entry)) EmptyString)].

(** What [handleExportXLSX] writes: the array of arrays that the
    worksheet is made from and the name of the file. The cell styles,
    column widths and row heights that the handler sets afterwards are
    not part of the model. *)
Record Workbook := mkWorkbook {
  worksheetData : list (list Cell);
  fileName : string
}.

Definition handleExportXLSX (h : Host) (uiText : UiText) (staffName : string)
    (range : option DateRange) (now : Z) (sortedData : list LeasingEntry)
    : option Workbook :=
  period ← reportPeriod h range;
  let staffNameLine := staffNameLabel uiText +:+ " " +:+ staffName in
  let headers := tableColumn uiText in
  dataToExport ← map_with_index (xlsxRow h) 0 sortedData;
  let headerCount := length headers in
  let sheet :=
    [ CString (reportTitle uiText) :: replicate (headerCount - 1) (CString EmptyString);
      [];
      [CString period];
      [CString staffNameLine];
      [];
      headers ] ++ dataToExport in
  today ← LocalDate.format_yyyy_MM_dd h (JSDate.of_number (Some now));
  Some {| worksheetData := sheet;
          fileName := "leasing_report_" +:+ today +:+ ".xlsx" |}.

(** The callback of [tableRows] (lines 505-515). *)
Definition pdfRow (h : Host) (entry : LeasingEntry) (index : nat) : option (list Cell) :=
  d ← format_dd_MM_yyyy h (LocalDate.of_string h (date entry));
  Some [CNumber (Z.of_nat index + 1);
        CNumber (week entry);
        CString d;
        CString (tenantName entry);
        CString (businessName entry);
        CString (businessType entry);
        CString (contact entry);
        CString (notes entry);
        CString (status entry)].

(** What [generatePdfDoc] puts on the page: the three lines of text
    above the table, the head row and the body rows of the table. *)
Record PdfDoc := mkPdfDoc {
  texts : list string;
  tableHead : list (list Cell);
  tableRows : list (list Cell)
}.

Definition generatePdfDoc (h : Host) (uiText : UiText) (staffName : string)
    (range : option DateRange) (sortedData : list LeasingEntry) : option PdfDoc :=
  periodText ← reportPeriod h range;
  rows ← map_with_index (pdfRow h) 0 sortedData;
  Some {| texts := [reportTitle uiText; periodText;
                    staffNameLabel uiText +:+ " " +:+ staffName];
          tableHead := [tableColumn uiText];
          tableRows := rows |}.

(** [handleExportPDF]: the document and the name it is saved under. *)
Definition handleExportPDF (h : Host) (uiText : UiText) (staffName : string)
    (range : option DateRange) (now : Z) (sortedData : list LeasingEntry)
    : option (PdfDoc * string) :=
  doc ← generatePdfDoc h uiText staffName range sortedData;
  today ← LocalDate.format_yyyy_MM_dd h (JSDate.of_number (Some now));
  Some (doc, "leasing_report_" +:+ today +:+ ".pdf").

(** ** Hosts used in the examples *)

(** A host with a fixed offset from UTC, the ISO date parser, numbered
    identifiers and a row printer that lists the cells in key order. *)
Definition fixedHost (offset : Z) : Host :=
  {| LocalTZA := fun _ => offset;
     Date_parse := JSDate.parse_iso;
     uuidv4 := fun n => "uuid-" +:+ pretty n;
     JSON_stringify := fun row =>
       "{" +:+ JSString.join "," ((fun kv => kv.1 +:+ ":" +:+ kv.2) <$> map_to_list row)
       +:+ "}" |}.

Definition hostUTC : Host := fixedHost 0.
(** UTC+7 (Jakarta) and UTC-5 (New York, winter). *)
Definition hostJakarta : Host := fixedHost (7 * JSDate.msPerHour).
Definition hostNewYork : Host := fixedHost (-5 * JSDate.msPerHour).

Definition entryA : LeasingEntry :=
  {| id := "a1"; week := 3; date := "2025-06-01T00:00:00.000Z";
     tenantName := "Toko, Maju"; businessName := "Maju Jaya";
     businessType := "Retail"; contact := "0812"; notes := " x";
     status := EmptyString |}.

(** [entryA] on another date. *)
Definition entryOn (d : string) : LeasingEntry := with_date entryA d.

(** The initial range of the page, 1 to 30 June 2025, as the picker
    holds it: local midnights of the host. *)
Definition june2025 (h : Host) : DateRange :=
  {| from := Some (Some (1748736000000 - LocalTZA h 0));
     to := Some (Some (1751241600000 - LocalTZA h 0)) |}.

Definition rowGood : gmap string string :=
  {[ "week" := "3"; "date" := "2025-06-01"; "tenantName" := "Toko Maju" ]}.
Definition rowNoTenant : gmap string string :=
  {[ "id" := "r2"; "week" := "4"; "date" := "2025-06-02" ]}.

(** Texts for the reports of the examples. *)
Definition uiExample : UiText :=
  {| reportTitle := "Leasing Report"; staffNameLabel := "Staff:";
     tableHeaderNo := "No"; tableHeaderWeek := "Week"; tableHeaderDate := "Date";
     tableHeaderTenantName := "Tenant"; tableHeaderBusinessName := "Business";
     tableHeaderBusinessType := "Type"; tableHeaderContact := "Contact";
     tableHeaderNotes := "Notes"; tableHeaderStatus := "Status" |}.

(** An entry without tenant name. *)
Definition nameless : LeasingEntry :=
  {| id := "a"; week := 1; date := "2025-06-01T00:00:00.000Z";
     tenantName := EmptyString; businessName := "b"; businessType := "c";
     contact := "d"; notes := "e"; status := "f" |}.

(** A row whose date carries a time of day. *)
Definition rowAfternoon : gmap string string :=
  {[ "week" := "3"; "date" := "2025-06-01T13:45:10.250Z"; "tenantName" := "Toko Maju" ]}.

Definition week_of (w : Z) (i : string) : LeasingEntry :=
  {| id := i; week := w; date := "2025-06-01T00:00:00.000Z"; tenantName := "t";
     businessName := "b"; businessType := "c"; contact := "d"; notes := "e";
     status := "f" |}.

(** A page that holds the entries [l] and nothing else. *)
Definition pageWith (l : list LeasingEntry) : PageState :=
  with_home (initialPage None) (set_data (home (initialPage None)) l).

Definition abc : list LeasingEntry := [week_of 1 "a"; week_of 2 "b"; week_of 3 "c"].

(** ** The specification's vocabulary *)

(** [sub] occurs in [s] as a substring. *)
Definition contains (s sub : string) : Prop :=
  exists pre post, s = pre +:+ sub +:+ post.

(** The predicate that section 4.2 of the specification attaches to a
    filter key with a non-empty value. *)
Definition field_predicate (k value : string) (e : LeasingEntry) : Prop :=
  if decide (k = "week") then contains (JSNumber.toString (week e)) value
  else if decide (k = "date") then contains (date e) value
  else match entry_lookup e k with
       | VString v => contains (JSString.toLowerCase v) (JSString.toLowerCase value)
       | _ => True
       end.

(** The UTC calendar day (days since the epoch) of an entry's date. *)
Definition entry_day (h : Host) (e : LeasingEntry) : option Z :=
  JSDate.Day <$> LocalDate.of_string h (date e).

(** The UTC calendar day that a picker date is normalised to: its local
    year, month and day of the month, read as a date in UTC. *)
Definition picker_day (h : Host) (d : option Z) : option Z :=
  JSDate.Day <$> JSDate.UTC (LocalDate.getFullYear h d) (LocalDate.getMonth h d)
                            (LocalDate.getDate h d).

(** The three-way comparison of section 4.3: weeks as numbers, dates as
    the instants they parse to (an unparseable date ties with every
    entry), any other field by its lower-cased text in code-unit order. *)
Definition spec_compare (h : Host) (k : EntryKey) (a b : LeasingEntry) : comparison :=
  match k with
  | Kweek => week a ?= week b
  | Kdate =>
      match LocalDate.of_string h (date a), LocalDate.of_string h (date b) with
      | Some x, Some y => x ?= y
      | _, _ => Eq
      end
  | _ => String.compare (JSString.toLowerCase (String_of (entry_get k a)))
                        (JSString.toLowerCase (String_of (entry_get k b)))
  end.

(** The number a comparator returns for a comparison and a direction. *)
Definition oriented (d : Direction) (c : comparison) : Z :=
  match d, c with
  | _, Eq => 0
  | ascending, Lt => -1
  | ascending, Gt => 1
  | descending, Lt => 1
  | descending, Gt => -1
  end.

(** The entries whose sort key is comparable: all of them, except that
    under the date key the date has to parse. *)
Definition comparable (h : Host) (k : EntryKey) (e : LeasingEntry) : Prop :=
  k = Kdate -> is_Some (LocalDate.of_string h (date e)).

(** [b] ties with [a] under the comparator. *)
Definition ties (h : Host) (c : SortSpec) (a b : LeasingEntry) : bool :=
  compareFn h c a b =? 0.

(** A row validates: [date] and [tenantName] are present and not empty,
    the date parses and the week parses as an integer. *)
Definition row_valid (h : Host) (row : gmap string string) : bool :=
  negb (falsy (row !! "date")) && negb (falsy (row !! "tenantName"))
  && bool_decide (is_Some (LocalDate.of_string h (default EmptyString (row !! "date"))))
  && bool_decide (is_Some (JSNumber.parseInt (row !! "week"))).

(** The three reasons an import is refused for. *)
Definition upload_reasons : list string :=
  ["Row is missing required fields (date, tenantName): ";
   "Invalid date format for row: ";
   "Invalid week format for row: "].

(** The entry that a validated row is stored as, its [id] apart: the
    parsed week, the date in ISO form, the other cells, with the empty
    text for a missing one. *)
Definition imported (h : Host) (row : gmap string string) (e : LeasingEntry) : Prop :=
  JSNumber.parseInt (row !! "week") = Some (week e)
  /\ (exists d t, row !! "date" = Some d /\ LocalDate.of_string h d = Some t
                  /\ date e = JSDate.toISOString t)
  /\ row !! "tenantName" = Some (tenantName e)
  /\ businessName e = JSString.or_else (row !! "businessName") EmptyString
  /\ businessType e = JSString.or_else (row !! "businessType") EmptyString
  /\ contact e = JSString.or_else (row !! "contact") EmptyString
  /\ notes e = JSString.or_else (row !! "notes") EmptyString
  /\ status e = JSString.or_else (row !! "status") EmptyString.

(** How many of the rows have no [id] of their own. *)
Definition missing_ids (rows : list (gmap string string)) : nat :=
  length (List.filter (fun r => falsy (r !! "id")) rows).

(** The header line of the export and the line of one entry whose date
    has been rewritten to [d]. *)
Definition csv_header : string :=
  "id,week,date,tenantName,businessName,businessType,contact,notes,status".

Definition csv_cells (e : LeasingEntry) (d : string) : list string :=
  [id e; JSNumber.toString (week e); d; tenantName e; businessName e;
   businessType e; contact e; notes e; status e].

Definition csv_line (e : LeasingEntry) (d : string) : string :=
  JSString.join "," (Papa.safe <$> csv_cells e d).

(** The local calendar date of a time value as [yyyy-MM-dd] text. *)
Definition local_date_text (h : Host) (t : Z) : string :=
  let lt := LocalDate.LocalTime h t in
  let y := JSDate.YearFromTime lt in
  JSDate.addLeadingZeros (if 0 <? y then y else 1 - y) 4
  +:+ "-" +:+ JSDate.addLeadingZeros (JSDate.MonthFromTime lt + 1) 2
  +:+ "-" +:+ JSDate.addLeadingZeros (JSDate.DateFromTime lt) 2.

Definition max_time : Z := 8640000000000000.

Definition emptyState : HomeState :=
  {| data := []; entryToEdit := None; isAddEditDialogOpen := false; toasts := [] |}.

Definition chars (s : string) : list ascii := String.list_ascii_of_string s.

(** The states in which a cell may end. *)
Definition cell_end (st : Papa.pstate) : Prop :=
  st = Papa.FieldStart \/ st = Papa.Unquoted \/ st = Papa.QuoteSeen.

Definition line_of (cells : list string) : string :=
  JSString.join (String Papa.comma EmptyString) (Papa.safe <$> cells).

(** The text of a cell, before quoting. *)
Definition cell_value (v : JSValue) : string :=
  match v with VUndefined => EmptyString | _ => String_of v end.

(** A file whose only row has the week -5: the row is stored. *)
Definition negative_week_file : string :=
  csv_header +:+ Papa.newline +:+ "7,-5,2025-06-01,Toko Maju,Maju Jaya,Retail,0812,,".

(** Three rows, the second without an id. *)
Definition three_rows : list (gmap string string) :=
  [<["id" := "r1"]> rowGood; rowGood; <["id" := "r3"]> rowGood].

(** The decimal digit [k] as a character, and the numbers below 100 and
    below 10000 written with two and four digits. *)
Definition digit_char (k : Z) : ascii := pretty_N_char (Z.to_N k).

Definition digits2 (n : Z) : string :=
  String (digit_char (n / 10)) (String (digit_char (n mod 10)) EmptyString).

Definition digits4 (n : Z) : string :=
  String (digit_char (n / 1000)) (String (digit_char (n / 100 mod 10)) (digits2 (n mod 100))).

(** The calendar date [y]-[m]-[d] ([m] from 1) as [YYYY-MM-DD] text. *)
Definition date_text (y m d : Z) : string :=
  JSDate.addLeadingZeros y 4 +:+ "-" +:+ JSDate.addLeadingZeros m 2
  +:+ "-" +:+ JSDate.addLeadingZeros d 2.

(** A host whose date parser reads the ECMAScript date-time format as the
    standard prescribes, wherever [parse_iso] does. *)
Definition iso_conforming (h : Host) : Prop :=
  forall s t, JSDate.parse_iso s = Some t -> Date_parse h s = Some t.

(** A zone at or ahead of UTC, by less than a day. *)
Definition ahead_of_UTC (h : Host) : Prop :=
  forall t, 0 <= LocalTZA h t < JSDate.msPerDay.

(** The date of an entry as an import stores it: the ISO text of a UTC
    midnight, here of the years 1 to 9999. *)
Definition canonical_date (e : LeasingEntry) : Prop :=
  exists t, date e = JSDate.toISOString t
            /\ t mod JSDate.msPerDay = 0
            /\ 1 <= JSDate.YearFromTime t <= 9999.

Definition same_but_id (e e' : LeasingEntry) : Prop :=
  week e' = week e /\ date e' = date e /\ tenantName e' = tenantName e
  /\ businessName e' = businessName e /\ businessType e' = businessType e
  /\ contact e' = contact e /\ notes e' = notes e /\ status e' = status e.

(** How many of the entries have an empty [id]. *)
Definition empty_ids (l : list LeasingEntry) : nat :=
  length (List.filter (fun e => negb (JSString.truthy (id e))) l).

(** The row that the export writes for an entry, and the object that the
    import reads back from it. *)
Definition exported (h : Host) (e : LeasingEntry) : LeasingEntry :=
  with_date e (default EmptyString
                 (LocalDate.format_yyyy_MM_dd h (LocalDate.of_string h (date e)))).

Definition reread (h : Host) (e : LeasingEntry) : gmap string string :=
  Papa.to_object headers (csv_cells e (date (exported h e))).

(** The identifiers of the store, in order. *)
Definition ids (l : list LeasingEntry) : list string := id <$> l.

(** An action that keeps identifiers apart as long as they are: a save
    of a new entry brings an identifier that the store does not hold;
    loads and uploads, which bring identifiers of their own, are left out. *)
Definition keeps_ids_apart (p : PageState) (a : Action) : Prop :=
  match a with
  | ActSave entry => entryToEdit (home p) = None -> ~ In (id entry) (ids (data (home p)))
  | ActLoad _ | ActUpload _ _ => False
  | _ => True
  end.

Fixpoint all_keep_ids_apart (h : Host) (p : PageState) (actions : list Action) : Prop :=
  match actions with
  | [] => True
  | a :: rest => keeps_ids_apart p a /\ all_keep_ids_apart h (dispatch h p a) rest
  end.

(** The actions that touch neither the store nor what selects and
    orders the rows: dialogs opening and closing, a deletion being asked
    for or called off, the draft filters being edited. *)
Definition quiet (a : Action) : bool :=
  match a with
  | ActAddNew | ActEdit _ | ActDialogOpenChange _ | ActDelete _
  | ActDeleteDialogOpenChange _ | ActFilterPopoverOpenChange _
  | ActTempFilterChange _ _ => true
  | _ => false
  end.

(** Typing values into the inputs of the filter popover. *)
Definition typing (edits : list (string * string)) : list Action :=
  (fun kv => ActTempFilterChange kv.1 kv.2) <$> edits.

(** The local calendar date of a time value as [dd/MM/yyyy] text. *)
Definition local_day_text (h : Host) (t : Z) : string :=
  let lt := LocalDate.LocalTime h t in
  JSDate.addLeadingZeros (JSDate.DateFromTime lt) 2
  +:+ "/" +:+ JSDate.addLeadingZeros (JSDate.MonthFromTime lt + 1) 2
  +:+ "/" +:+ JSDate.addLeadingZeros (era_year (JSDate.YearFromTime lt)) 4.

(** The cells of the report row of an entry shown at position [i]. *)
Definition report_cells (h : Host) (i : nat) (e : LeasingEntry) (t : Z) : list Cell :=
  [CNumber (Z.of_nat i + 1); CNumber (week e); CString (local_day_text h t);
   CString (tenantName e); CString (businessName e); CString (businessType e);
   CString (contact e); CString (notes e); CString (status e)].

(** The identifiers that the rows of a file bring themselves. *)
Definition given_ids (rows : list (gmap string string)) : list string :=
  omap (fun row => if falsy (row !! "id") then None else row !! "id") rows.

(** An integer that a JavaScript number holds exactly and prints in
    plain digits: magnitude at most 2^53 - 1 ([Number.MAX_SAFE_INTEGER]). *)
Definition safe_integer (w : Z) : Prop := Z.abs w <= 9007199254740991.

(** The week cell of a row denotes a safe integer, if it denotes one. *)
Definition safe_week (row : gmap string string) : Prop :=
  forall w, JSNumber.parseInt (row !! "week") = Some w -> safe_integer w.

Definition digits3 (n : Z) : string :=
  String (digit_char (n / 100)) (digits2 (n mod 100)).

(** The time value of a row's date lies in the years that the ISO
    format writes with four digits. *)
Definition four_digit_year (t : Z) : Prop := 1 <= JSDate.YearFromTime t <= 9999.

(** * Theorems *)

(** ** Strings *)

Lemma append_cons (c : ascii) (a b : string) :
  String c a +:+ b = String c (a +:+ b).
Proof. reflexivity. Qed.

Lemma append_nil_l (b : string) : EmptyString +:+ b = b.
Proof. reflexivity. Qed.

Lemma append_nil_r (s : string) : s +:+ EmptyString = s.
Proof.
  induction s as [|c s IH]; [reflexivity|].
  now rewrite append_cons, IH.
Qed.

Lemma append_assoc (a b c : string) : (a +:+ b) +:+ c = a +:+ (b +:+ c).
Proof.
  induction a as [|x a IH]; [reflexivity|].
  now rewrite !append_cons, IH.
Qed.

Lemma prefix_spec (sub s : string) :
  String.prefix sub s = true <-> exists post, s = sub +:+ post.
Proof.
  revert s; induction sub as [|c sub IH]; intros s.
  - split; [intros _; now exists s | intros _; now destruct s].
  - destruct s as [|d s]; cbn [String.prefix].
    + split; [discriminate | intros [post H]; discriminate].
    + destruct (ascii_dec c d) as [->|Hne].
      * rewrite IH. split; intros [post H]; exists post.
        -- rewrite append_cons. congruence.
        -- rewrite append_cons in H. congruence.
      * split; [discriminate | intros [post H]].
        rewrite append_cons in H. congruence.
Qed.

Lemma includes_spec (s sub : string) :
  JSString.includes s sub = true <-> contains s sub.
Proof.
  unfold contains. induction s as [|c s IH]; cbn [JSString.includes].
  - rewrite orb_false_r, prefix_spec. split.
    + intros [post H]. exists EmptyString, post. exact H.
    + intros ([|x pre] & post & H); [now exists post | discriminate].
  - rewrite orb_true_iff, prefix_spec, IH. split.
    + intros [[post H] | (pre & post & H)].
      * exists EmptyString, post. exact H.
      * exists (String c pre), post. rewrite append_cons. now rewrite H.
    + intros ([|x pre] & post & H).
      * left. now exists post.
      * right. exists pre, post. rewrite append_cons in H. congruence.
Qed.

Lemma truthy_nonempty (s : string) : JSString.truthy s = true <-> s <> EmptyString.
Proof. destruct s; cbn; split; congruence. Qed.


(** C8: selecting the field that is currently sorted ascending gives that
    field descending; selecting it once more gives it ascending again;
    selecting a field other than the current one, or selecting while no
    sort is active, gives that field ascending. *)
Theorem handleSort_transitions (sc : SortConfig) (k : EntryKey) :
  handleSort (Some (mkSort k ascending)) k = Some (mkSort k descending)
  /\ handleSort (handleSort (Some (mkSort k ascending)) k) k = Some (mkSort k ascending)
  /\ handleSort (Some (mkSort k descending)) k = Some (mkSort k ascending)
  /\ (forall c, sc = Some c -> key c <> k -> handleSort sc k = Some (mkSort k ascending))
  /\ handleSort None k = Some (mkSort k ascending).
Proof.
  unfold handleSort; cbn.
  rewrite !bool_decide_eq_true_2 by reflexivity; cbn.
  repeat split.
  intros c -> Hne; cbn.
  rewrite bool_decide_eq_false_2 by exact Hne. reflexivity.
Qed.


(** ** The field filter *)

Lemma Object_keys_spec (m : gmap string string) (k : string) :
  In k (Object_keys m) <-> is_Some (m !! k).
Proof.
  unfold Object_keys. rewrite <- list_elem_of_In, list_elem_of_fmap. split.
  - intros ([k' v] & -> & Hin). apply elem_of_map_to_list in Hin. now exists v.
  - intros [v Hv]. exists (k, v). split; [reflexivity|].
    now apply elem_of_map_to_list.
Qed.

(** The test that the callback of [every] makes for one key. *)
Lemma key_test_spec (k filterValue : string) (entry : LeasingEntry) :
  filterValue <> EmptyString ->
  (if negb (JSString.truthy filterValue) then true
   else if bool_decide (k = "week") then
     JSString.includes (JSNumber.toString (week entry)) filterValue
   else if bool_decide (k = "date") then
     JSString.includes (date entry) filterValue
   else match entry_lookup entry k with
        | VString entryValue =>
            JSString.includes (JSString.toLowerCase entryValue)
                              (JSString.toLowerCase filterValue)
        | _ => true
        end) = true
  <-> field_predicate k filterValue entry.
Proof.
  intros Hne. apply truthy_nonempty in Hne. rewrite Hne. cbn [negb].
  unfold field_predicate.
  destruct (decide (k = "week")) as [Hw|Hw].
  - rewrite bool_decide_eq_true_2 by exact Hw. apply includes_spec.
  - rewrite bool_decide_eq_false_2 by exact Hw.
    destruct (decide (k = "date")) as [Hd|Hd].
    + rewrite bool_decide_eq_true_2 by exact Hd. apply includes_spec.
    + rewrite bool_decide_eq_false_2 by exact Hd.
      destruct (entry_lookup entry k); [tauto | apply includes_spec | tauto].
Qed.

Lemma matchesFilters_spec (filters : gmap string string) (entry : LeasingEntry) :
  matchesFilters filters entry = true <->
  (forall k value, filters !! k = Some value -> value <> EmptyString ->
                   field_predicate k value entry).
Proof.
  unfold matchesFilters. rewrite forallb_forall. split.
  - intros H k value Hk Hne.
    specialize (H k (proj2 (Object_keys_spec filters k) (ex_intro _ value Hk))).
    rewrite Hk in H. now apply key_test_spec.
  - intros H k Hin. apply Object_keys_spec in Hin as [value Hk]. rewrite Hk.
    destruct (decide (value = EmptyString)) as [->|Hne]; [reflexivity|].
    apply key_test_spec; [exact Hne | now apply H].
Qed.

(** C2: an entry passes the field filter iff every key that the mapping
    holds with a non-empty value satisfies its predicate (decimal week
    contains the value; stored ISO date contains the value; for any other
    string field the lower-cased field contains the lower-cased value);
    absent and empty values do not constrain, so a mapping with only such
    values leaves the collection as it is. *)
Theorem fieldFilter_contract (filters : gmap string string) (l : list LeasingEntry) :
  (forall entry,
      matchesFilters filters entry = true <->
      (forall k value, filters !! k = Some value -> value <> EmptyString ->
                       field_predicate k value entry))
  /\ finalFiltered filters l = List.filter (matchesFilters filters) l
  /\ ((forall k value, filters !! k = Some value -> value = EmptyString) ->
      finalFiltered filters l = l).
Proof.
  split; [intros entry; apply matchesFilters_spec|].
  split; [reflexivity|].
  intros Hempty. unfold finalFiltered.
  induction l as [|e l IH]; [reflexivity|]. cbn [List.filter].
  assert (matchesFilters filters e = true) as ->.
  { apply matchesFilters_spec. intros k value Hk Hne.
    now specialize (Hempty k value Hk). }
  now rewrite IH.
Qed.

(** The filter of the specification's example: week 3, 13 and 30 all
    contain the text 3; week 12 does not. *)
Example fieldFilter_week_substring :
  week <$> finalFiltered {[ "week" := "3" ]}
    [ with_date entryA "a"; {| id := "b"; week := 13; date := "d"; tenantName := "t";
        businessName := "n"; businessType := "y"; contact := "c"; notes := "o";
        status := "s" |};
      {| id := "c"; week := 30; date := "d"; tenantName := "t";
        businessName := "n"; businessType := "y"; contact := "c"; notes := "o";
        status := "s" |};
      {| id := "d"; week := 12; date := "d"; tenantName := "t";
        businessName := "n"; businessType := "y"; contact := "c"; notes := "o";
        status := "s" |} ]
  = [3; 13; 30].
Proof. vm_compute. reflexivity. Qed.

(** A witness of the contract: one active key, one empty one. *)
Lemma fieldFilter_contract_witness :
  matchesFilters {[ "tenantName" := "MAJU"; "notes" := EmptyString ]} entryA = true
  /\ finalFiltered {[ "notes" := EmptyString ]} [entryA] = [entryA].
Proof.
  split.
  - apply (proj1 (fieldFilter_contract
                    {[ "tenantName" := "MAJU"; "notes" := EmptyString ]} [entryA])).
    intros k value Hk Hne. unfold field_predicate.
    destruct (decide (k = "tenantName")) as [->|Hk1].
    + rewrite lookup_insert_eq in Hk. injection Hk as <-.
      cbn. apply includes_spec. vm_compute. reflexivity.
    + rewrite lookup_insert_ne in Hk by congruence.
      destruct (decide (k = "notes")) as [->|Hk2].
      * rewrite lookup_singleton_eq in Hk. congruence.
      * rewrite lookup_singleton_ne in Hk by congruence. discriminate.
  - apply (proj2 (proj2 (fieldFilter_contract {[ "notes" := EmptyString ]} [entryA]))).
    intros k value Hk.
    destruct (decide (k = "notes")) as [->|Hne].
    + rewrite lookup_singleton_eq in Hk. congruence.
    + rewrite lookup_singleton_ne in Hk by congruence. discriminate.
Defined.

(** ** [handleSave] *)

(** C10: saving while an entry is being edited replaces the entries whose
    id is that of the saved entry, at their positions, and leaves every
    other entry and the length as they were; with unique ids that is the
    single matching position. Saving a new entry puts it in front of the
    unchanged store. *)
Theorem handleSave_frame (st : HomeState) (entry : LeasingEntry) :
  (is_Some (entryToEdit st) ->
     length (data (handleSave st entry)) = length (data st)
     /\ (forall (i : nat) item, data st !! i = Some item ->
           data (handleSave st entry) !! i
           = Some (if bool_decide (id item = id entry) then entry else item))
     /\ (forall (i : nat) item, NoDup (id <$> data st) ->
           data st !! i = Some item -> id item = id entry ->
           data (handleSave st entry) = <[i := entry]> (data st)))
  /\ (entryToEdit st = None -> data (handleSave st entry) = entry :: data st).
Proof.
  split.
  - intros [e0 He0]. unfold handleSave. rewrite He0. cbn [data].
    split; [apply length_map|]. split.
    + intros i item Hi. change (@List.map) with (@fmap list _).
      now rewrite list_lookup_fmap, Hi.
    + intros i item Hnd Hi Hid. apply list_eq. intros j.
      change (@List.map) with (@fmap list _). rewrite list_lookup_fmap.
      destruct (decide (i = j)) as [<-|Hne].
      * rewrite list_lookup_insert_eq by (now apply lookup_lt_Some in Hi).
        rewrite Hi. cbn. now rewrite bool_decide_eq_true_2.
      * rewrite list_lookup_insert_ne by exact Hne.
        destruct (data st !! j) as [item'|] eqn:Hj; [|reflexivity]. cbn.
        rewrite bool_decide_eq_false_2; [reflexivity|].
        intros Heq. apply Hne.
        apply (NoDup_lookup _ i j (id entry) Hnd); rewrite list_lookup_fmap.
        -- now rewrite Hi, <- Hid.
        -- now rewrite Hj, <- Heq.
  - intros Hnone. unfold handleSave. now rewrite Hnone.
Qed.

(** ** Time values *)

Lemma TimeClip_Some (t v : Z) :
  JSDate.TimeClip t = Some v <-> v = t /\ Z.abs t <= 8640000000000000.
Proof.
  unfold JSDate.TimeClip. destruct (Z.leb_spec (Z.abs t) 8640000000000000).
  - split; [intros [= <-]; now split | intros [-> _]; reflexivity].
  - split; [discriminate | intros [_ H']; lia].
Qed.

Lemma TimeClip_idem (t v : Z) :
  JSDate.TimeClip t = Some v -> JSDate.TimeClip v = Some v.
Proof. intros H. apply TimeClip_Some in H as [-> H]. now apply TimeClip_Some. Qed.

Lemma Day_midnight (d : Z) : JSDate.Day (JSDate.MakeDate d (JSDate.MakeTime 0 0 0 0)) = d.
Proof.
  unfold JSDate.Day, JSDate.MakeDate, JSDate.MakeTime, JSDate.msPerDay.
  cbn. rewrite Z.add_0_r. now apply Z.div_mul.
Qed.

Lemma midnight_le (d e : Z) :
  JSDate.MakeDate d (JSDate.MakeTime 0 0 0 0) <= JSDate.MakeDate e (JSDate.MakeTime 0 0 0 0)
  <-> d <= e.
Proof. unfold JSDate.MakeDate, JSDate.MakeTime, JSDate.msPerDay. lia. Qed.

(** Clearing the time of day of a valid time value gives a valid one. *)
Lemma setUTCHours0_valid (t : Z) :
  Z.abs t <= 8640000000000000 ->
  JSDate.setUTCHours0 (Some t)
  = Some (JSDate.MakeDate (JSDate.Day t) (JSDate.MakeTime 0 0 0 0)).
Proof.
  intros Ht. cbn. apply TimeClip_Some. split; [reflexivity|].
  unfold JSDate.MakeDate, JSDate.MakeTime, JSDate.Day, JSDate.msPerDay.
  pose proof (Z.div_mod t 86400000 ltac:(lia)) as Hdm.
  pose proof (Z.mod_pos_bound t 86400000 ltac:(lia)) as Hm.
  assert (-100000000 <= t / 86400000 <= 100000000) by
    (split; [apply Z.div_le_lower_bound | apply Z.div_le_upper_bound]; lia).
  lia.
Qed.

(** [Date.UTC] of year, month and day is the midnight that begins a day. *)
Lemma UTC_midnight (y m d : option Z) (v : Z) :
  JSDate.UTC y m d = Some v ->
  v = JSDate.MakeDate (JSDate.Day v) (JSDate.MakeTime 0 0 0 0)
  /\ JSDate.of_number (Some v) = Some v.
Proof.
  destruct y as [y|], m as [m|], d as [d|]; try discriminate. cbn.
  intros H. pose proof (TimeClip_idem _ _ H) as Hi.
  apply TimeClip_Some in H as [-> H]. split; [|exact Hi].
  now rewrite Day_midnight.
Qed.

(** ** The date-range filter *)

Lemma inDateRange_spec (h : Host) (range : option DateRange) (entry : LeasingEntry)
    (f : option Z) :
  range ≫= from = Some f ->
  (inDateRange h range entry = true <->
   exists from_day entry_day' to_day,
     picker_day h f = Some from_day
     /\ entry_day h entry = Some entry_day'
     /\ picker_day h (default f (range ≫= to)) = Some to_day
     /\ from_day <= entry_day' <= to_day).
Proof.
  intros Hf. unfold inDateRange. rewrite Hf. cbv zeta.
  unfold picker_day, entry_day.
  set (t := default f (range ≫= to)).
  destruct (JSDate.UTC (LocalDate.getFullYear h f) _ _) as [fu|] eqn:Hfu; cycle 1.
  { cbn. split.
    - destruct (JSDate.of_number _); cbn; discriminate.
    - intros (? & ? & ? & [=] & _). }
  destruct (JSDate.UTC (LocalDate.getFullYear h t) _ _) as [tu|] eqn:Htu; cycle 1.
  { cbn [JSDate.of_number mbind option_bind]. split.
    - destruct (JSDate.of_number _), (JSDate.of_number (Some fu)); cbn;
        rewrite ?andb_false_r; discriminate.
    - intros (? & ? & ? & _ & _ & [=] & _). }
  apply UTC_midnight in Hfu as [Hfu ->], Htu as [Htu ->].
  destruct (LocalDate.of_string h (date entry)) as [e|] eqn:He; cycle 1.
  { cbn. split; [discriminate | intros (? & ? & ? & _ & [=] & _)]. }
  assert (Z.abs e <= 8640000000000000) as Hrange.
  { unfold LocalDate.of_string in He. destruct (Date_parse h (date entry)); [|discriminate].
    cbn in He. now apply TimeClip_Some in He as [-> ?]. }
  rewrite (setUTCHours0_valid e Hrange).
  assert (JSDate.of_number (Some (JSDate.MakeDate (JSDate.Day e) (JSDate.MakeTime 0 0 0 0)))
          = Some (JSDate.MakeDate (JSDate.Day e) (JSDate.MakeTime 0 0 0 0))) as ->.
  { pose proof (setUTCHours0_valid e Hrange) as Hs. cbn in Hs |- *.
    now apply TimeClip_idem in Hs. }
  cbn [JSDate.ge JSDate.le fmap option_fmap option_map].
  rewrite andb_true_iff, !Z.leb_le.
  rewrite Hfu, Htu at 1. rewrite !midnight_le. split.
  - intros [H1 H2]. now exists (JSDate.Day fu), (JSDate.Day e), (JSDate.Day tu).
  - intros (a & b & c & [= <-] & [= <-] & [= <-] & H1 & H2). now split.
Qed.

(** C1: without a [from] date every entry passes; otherwise an entry
    passes iff its date, as a UTC calendar day, lies between the picker's
    [from] and [to] dates as UTC calendar days, both ends included, where
    [to] is [from] when it is absent. The filtered collection holds the
    entries that pass. *)
Theorem dateRangeFilter_contract (h : Host) (range : option DateRange)
    (l : list LeasingEntry) :
  (range ≫= from = None ->
     (forall entry, inDateRange h range entry = true)
     /\ filteredByDate h range l = l)
  /\ (forall f entry, range ≫= from = Some f ->
        let in_range :=
          exists from_day entry_day' to_day,
            picker_day h f = Some from_day
            /\ entry_day h entry = Some entry_day'
            /\ picker_day h (default f (range ≫= to)) = Some to_day
            /\ from_day <= entry_day' <= to_day in
        (inDateRange h range entry = true <-> in_range)
        /\ (In entry (filteredByDate h range l) <-> In entry l /\ in_range)).
Proof.
  split.
  - intros Hnone.
    assert (forall entry, inDateRange h range entry = true) as Hall.
    { intros entry. unfold inDateRange. now rewrite Hnone. }
    split; [exact Hall|]. unfold filteredByDate.
    induction l as [|e l IH]; [reflexivity|]. cbn [List.filter].
    now rewrite Hall, IH.
  - intros f entry Hf. cbv zeta. split.
    + exact (inDateRange_spec h range entry f Hf).
    + unfold filteredByDate.
      now rewrite filter_In, (inDateRange_spec h range entry f Hf).
Qed.

(** ** The stable sort *)

Section SortFacts.
Context {A : Type} (cmp : A -> A -> Z) (P : A -> Prop).

Let le (x y : A) : Prop := cmp x y <= 0.

Lemma insert_Permutation (x : A) (l : list A) :
  Permutation (JSArray.insert cmp x l) (x :: l).
Proof.
  induction l as [|y l IH]; cbn; [reflexivity|].
  destruct (0 <? cmp x y); [|reflexivity].
  rewrite IH. apply perm_swap.
Qed.

Lemma sort_Permutation (l : list A) : Permutation (JSArray.sort cmp l) l.
Proof.
  induction l as [|x l IH]; cbn; [reflexivity|].
  rewrite insert_Permutation. now constructor.
Qed.

Lemma insert_Forall (Q : A -> Prop) (x : A) (l : list A) :
  Q x -> Forall Q l -> Forall Q (JSArray.insert cmp x l).
Proof.
  intros Hx Hl.
  apply (Permutation_Forall (Permutation_sym (insert_Permutation x l))).
  now constructor.
Qed.

Lemma sort_Forall (Q : A -> Prop) (l : list A) :
  Forall Q l -> Forall Q (JSArray.sort cmp l).
Proof.
  intros Hl.
  exact (Permutation_Forall (Permutation_sym (sort_Permutation l)) Hl).
Qed.

Hypothesis cmp_total : forall x y, P x -> P y -> 0 < cmp x y -> cmp y x <= 0.
Hypothesis cmp_trans :
  forall x y z, P x -> P y -> P z -> cmp x y <= 0 -> cmp y z <= 0 -> cmp x z <= 0.

Lemma insert_StronglySorted (x : A) (l : list A) :
  P x -> Forall P l -> StronglySorted le l ->
  StronglySorted le (JSArray.insert cmp x l).
Proof.
  intros Hx Hl Hs. induction l as [|y l IH]; cbn.
  - repeat constructor.
  - apply StronglySorted_inv in Hs as [Hs Hy].
    apply Forall_cons in Hl as [HPy HPl].
    destruct (Z.ltb_spec 0 (cmp x y)) as [Hlt|Hge].
    + constructor; [now apply IH|].
      apply insert_Forall; [now apply cmp_total | exact Hy].
    + constructor; [now constructor|].
      constructor; [exact Hge|].
      rewrite Forall_forall in Hy, HPl |- *. intros z Hz.
      apply (cmp_trans x y z); auto. now apply Hy.
Qed.

Lemma sort_StronglySorted (l : list A) :
  Forall P l -> StronglySorted le (JSArray.sort cmp l).
Proof.
  induction l as [|x l IH]; intros Hl; cbn; [constructor|].
  apply Forall_cons in Hl as [Hx Hl].
  apply insert_StronglySorted; auto. now apply sort_Forall.
Qed.

(** Stability: a class [p] of entries none of which sorts strictly
    after another keeps its order. *)
Variable p : A -> bool.
Hypothesis p_ties :
  forall x y, P x -> P y -> p x = true -> p y = true -> cmp x y <= 0.

Lemma insert_filter (x : A) (l : list A) :
  P x -> Forall P l ->
  List.filter p (JSArray.insert cmp x l) = List.filter p (x :: l).
Proof.
  intros Hx Hl. induction l as [|y l IH]; [reflexivity|].
  apply Forall_cons in Hl as [Hy Hl]. cbn [JSArray.insert].
  destruct (Z.ltb_spec 0 (cmp x y)) as [Hlt|Hge]; [|reflexivity].
  cbn [List.filter] in *. rewrite (IH Hl).
  destruct (p x) eqn:Hpx, (p y) eqn:Hpy; try reflexivity.
  pose proof (p_ties x y Hx Hy Hpx Hpy). lia.
Qed.

Lemma sort_stable (l : list A) :
  Forall P l -> List.filter p (JSArray.sort cmp l) = List.filter p l.
Proof.
  induction l as [|x l IH]; intros Hl; [reflexivity|].
  apply Forall_cons in Hl as [Hx Hl]. cbn [JSArray.sort foldr].
  rewrite insert_filter; auto; [|now apply sort_Forall].
  cbn [List.filter]. fold (JSArray.sort cmp l). now rewrite (IH Hl).
Qed.
End SortFacts.

(** ** The comparator *)

Lemma string_compare_refl (s : string) : String.compare s s = Eq.
Proof.
  pose proof (String.compare_antisym s s) as H.
  destruct (String.compare s s); [reflexivity | discriminate | discriminate].
Qed.

Lemma string_lt_spec (a b : string) :
  JSString.lt a b = match String.compare a b with Lt => true | _ => false end.
Proof. reflexivity. Qed.

Lemma string_gt_spec (a b : string) :
  JSString.gt a b = match String.compare a b with Gt => true | _ => false end.
Proof.
  unfold JSString.gt, String.ltb. rewrite (String.compare_antisym a b).
  now destruct (String.compare b a).
Qed.

Lemma Z_lt_spec (a b : Z) :
  (a <? b) = match a ?= b with Lt => true | _ => false end.
Proof. reflexivity. Qed.

Lemma Z_gt_spec (a b : Z) :
  (b <? a) = match a ?= b with Gt => true | _ => false end.
Proof. unfold Z.ltb. rewrite (Z.compare_antisym a b). now destruct (a ?= b). Qed.

(** The comparator of the code is the comparison of section 4.3, turned
    around for the descending direction. *)
Lemma compareFn_spec (h : Host) (c : SortSpec) (a b : LeasingEntry) :
  compareFn h c a b = oriented (direction c) (spec_compare h (key c) a b).
Proof.
  destruct c as [k d]. unfold compareFn. cbn [key direction].
  assert (forall (lt gt : bool) (cp : comparison),
            lt = match cp with Lt => true | _ => false end ->
            gt = match cp with Gt => true | _ => false end ->
            (if lt then if bool_decide (d = ascending) then -1 else 1
             else if gt then if bool_decide (d = ascending) then 1 else -1 else 0)
            = oriented d cp) as Hthree.
  { intros lt gt cp -> ->. now destruct cp, d. }
  destruct k; cbn [bool_decide decide_rel EntryKey_eq_dec entry_get spec_compare];
    try (apply Hthree; [apply string_lt_spec | apply string_gt_spec]).
  - apply Hthree; [apply Z_lt_spec | apply Z_gt_spec].
  - cbn [getTime_of].
    destruct (LocalDate.of_string h (date a)) as [x|], (LocalDate.of_string h (date b)) as [y|];
      cbn [JSDate.lt JSDate.gt]; try (now destruct d).
    apply Hthree; [apply Z_lt_spec | apply Z_gt_spec].
Qed.

Lemma string_compare_trans (a b c : string) :
  String.compare a b <> Gt -> String.compare b c <> Gt -> String.compare a c <> Gt.
Proof.
  intros Hab Hbc.
  assert (String.le a b) as H1 by
    (unfold String.le, String.leb; now destruct (String.compare a b)).
  assert (String.le b c) as H2 by
    (unfold String.le, String.leb; now destruct (String.compare b c)).
  pose proof (transitivity H1 H2) as H3.
  unfold String.le, String.leb in H3. now destruct (String.compare a c).
Qed.

Lemma Z_compare_trans (a b c : Z) :
  (a ?= b) <> Gt -> (b ?= c) <> Gt -> (a ?= c) <> Gt.
Proof.
  destruct (Z.compare_spec a b), (Z.compare_spec b c), (Z.compare_spec a c);
    intros; congruence || lia.
Qed.

Lemma spec_compare_antisym (h : Host) (k : EntryKey) (a b : LeasingEntry) :
  spec_compare h k a b = CompOpp (spec_compare h k b a).
Proof.
  destruct k; cbn [spec_compare];
    try apply String.compare_antisym; try apply Z.compare_antisym.
  destruct (LocalDate.of_string h (date a)), (LocalDate.of_string h (date b));
    try reflexivity.
  apply Z.compare_antisym.
Qed.

Lemma spec_compare_trans (h : Host) (k : EntryKey) (a b c : LeasingEntry) :
  comparable h k b ->
  spec_compare h k a b <> Gt -> spec_compare h k b c <> Gt ->
  spec_compare h k a c <> Gt.
Proof.
  intros Hb. destruct k; cbn [spec_compare];
    try apply string_compare_trans; try apply Z_compare_trans.
  destruct (Hb eq_refl) as [y Hy]. rewrite Hy.
  destruct (LocalDate.of_string h (date a)), (LocalDate.of_string h (date c));
    try congruence.
  apply Z_compare_trans.
Qed.

Lemma spec_compare_ties (h : Host) (k : EntryKey) (a x y : LeasingEntry) :
  comparable h k a ->
  spec_compare h k a x = Eq -> spec_compare h k a y = Eq ->
  spec_compare h k x y = Eq.
Proof.
  intros Ha. destruct k; cbn [spec_compare];
    try (intros H1 H2; apply String.compare_eq_iff in H1, H2;
         rewrite <- H1, <- H2; apply string_compare_refl).
  - intros H1 H2. apply Z.compare_eq_iff in H1, H2. rewrite <- H1, <- H2.
    apply Z.compare_refl.
  - destruct (Ha eq_refl) as [t Ht]. rewrite Ht.
    destruct (LocalDate.of_string h (date x)), (LocalDate.of_string h (date y));
      try reflexivity.
    intros H1 H2. apply Z.compare_eq_iff in H1, H2. rewrite <- H1, <- H2.
    apply Z.compare_refl.
Qed.

Lemma oriented_le (d : Direction) (c : comparison) :
  oriented d c <= 0 <->
  match d with ascending => c <> Gt | descending => CompOpp c <> Gt end.
Proof. destruct d, c; cbn; split; intros; congruence || lia. Qed.

Lemma oriented_zero (d : Direction) (c : comparison) : oriented d c = 0 <-> c = Eq.
Proof. destruct d, c; cbn; split; intros; congruence || lia. Qed.

Lemma compareFn_total (h : Host) (c : SortSpec) (x y : LeasingEntry) :
  0 < compareFn h c x y -> compareFn h c y x <= 0.
Proof.
  rewrite !compareFn_spec, (spec_compare_antisym h (key c) y x).
  destruct (direction c), (spec_compare h (key c) x y); cbn; lia.
Qed.

Lemma compareFn_trans (h : Host) (c : SortSpec) (x y z : LeasingEntry) :
  comparable h (key c) y ->
  compareFn h c x y <= 0 -> compareFn h c y z <= 0 -> compareFn h c x z <= 0.
Proof.
  intros Hy. rewrite !compareFn_spec, !oriented_le. destruct (direction c).
  - now apply spec_compare_trans.
  - rewrite <- !spec_compare_antisym. intros H1 H2.
    now apply (spec_compare_trans h (key c) z y x).
Qed.

Lemma compareFn_ties (h : Host) (c : SortSpec) (a x y : LeasingEntry) :
  comparable h (key c) a ->
  ties h c a x = true -> ties h c a y = true -> compareFn h c x y <= 0.
Proof.
  unfold ties. rewrite !Z.eqb_eq, !compareFn_spec, !oriented_zero.
  intros Ha H1 H2. rewrite (spec_compare_ties h (key c) a x y Ha H1 H2).
  now destruct (direction c).
Qed.

(** ** The sort engine *)

Lemma sortedData_run (h : Host) (σ : gmap positive (list LeasingEntry))
    (r : positive) (sc : SortConfig) (l : list LeasingEntry) :
  σ !! r = Some l ->
  sortedData h r sc σ
  = Some (fresh (dom σ), <[fresh (dom σ) := sortedList h sc l]> σ).
Proof.
  intros Hr. unfold sortedData, Store.bind, Store.spread. rewrite Hr.
  destruct sc as [c|]; cbn.
  - unfold Store.sort_in_place. rewrite lookup_insert_eq. cbn.
    now rewrite insert_insert_eq.
  - reflexivity.
Qed.

Lemma fresh_not_allocated (σ : gmap positive (list LeasingEntry)) (r : positive) :
  is_Some (σ !! r) -> fresh (dom σ) <> r.
Proof.
  intros Hr Heq. apply elem_of_dom in Hr. rewrite <- Heq in Hr.
  now apply is_fresh in Hr.
Qed.

(** C6: without a sort selection the engine returns the filtered sequence
    as it is; with one, it returns a rearrangement of it, ordered by the
    comparator, which is the three-way comparison of the selected field
    (weeks as numbers, dates as parsed instants, other fields by their
    lower-cased text) turned around for the descending direction and 0 on
    ties; entries that tie keep their relative order. *)
Theorem sortEngine_contract (h : Host) (σ : gmap positive (list LeasingEntry))
    (filteredData : positive) (sc : SortConfig) (l : list LeasingEntry) :
  σ !! filteredData = Some l ->
  exists r σ',
    sortedData h filteredData sc σ = Some (r, σ')
    /\ σ' !! r = Some (sortedList h sc l)
    /\ (sc = None -> sortedList h sc l = l)
    /\ (forall c, sc = Some c ->
          (forall a b, compareFn h c a b
                       = oriented (direction c) (spec_compare h (key c) a b))
          /\ Permutation (sortedList h sc l) l
          /\ (Forall (comparable h (key c)) l ->
                StronglySorted (fun a b => compareFn h c a b <= 0) (sortedList h sc l)
                /\ forall a, comparable h (key c) a ->
                     List.filter (ties h c a) (sortedList h sc l)
                     = List.filter (ties h c a) l)).
Proof.
  intros Hr. eexists _, _.
  split; [exact (sortedData_run h σ filteredData sc l Hr)|].
  split; [apply lookup_insert_eq|].
  split; [now intros ->|].
  intros c ->. cbn [sortedList].
  split; [intros a b; apply compareFn_spec|].
  split; [apply sort_Permutation|].
  intros Hl. split.
  - apply (sort_StronglySorted _ (comparable h (key c))); [| |exact Hl].
    + intros x y _ _. apply compareFn_total.
    + intros x y z _ Hy _. now apply compareFn_trans.
  - intros a Ha. apply (sort_stable _ (comparable h (key c))); [|exact Hl].
    intros x y _ _. now apply compareFn_ties.
Qed.

(** C7: computing the sorted sequence leaves the filtered collection as
    it was: the result is a new array, and every array that existed
    before, the input among them, has the elements it had. *)
Theorem sortedData_input_unchanged (h : Host) (σ : gmap positive (list LeasingEntry))
    (filteredData : positive) (sc : SortConfig) (l : list LeasingEntry) :
  σ !! filteredData = Some l ->
  exists r σ',
    sortedData h filteredData sc σ = Some (r, σ')
    /\ r <> filteredData
    /\ σ' !! filteredData = Some l
    /\ (forall a, is_Some (σ !! a) -> σ' !! a = σ !! a).
Proof.
  intros Hr. eexists _, _.
  split; [exact (sortedData_run h σ filteredData sc l Hr)|].
  assert (forall a, is_Some (σ !! a) ->
            <[fresh (dom σ) := sortedList h sc l]> σ !! a = σ !! a) as Hframe.
  { intros a Ha. apply lookup_insert_ne. now apply fresh_not_allocated. }
  split; [apply fresh_not_allocated; now exists l|].
  split; [|exact Hframe].
  rewrite Hframe by (now exists l). exact Hr.
Qed.

(** ** The import *)

Lemma falsy_false (v : option string) :
  falsy v = false -> exists s, v = Some s /\ s <> EmptyString /\ JSString.or_else v EmptyString = s.
Proof.
  destruct v as [s|]; [|discriminate]. cbn. intros H. exists s.
  destruct s; [discriminate|]. repeat split; congruence.
Qed.

Lemma uploadRow_valid (h : Host) (row : gmap string string) (n : nat) :
  row_valid h row = true ->
  exists e,
    uploadRow h row n = inr (e, if falsy (row !! "id") then S n else n)
    /\ imported h row e
    /\ (if falsy (row !! "id") then id e = uuidv4 h n else row !! "id" = Some (id e)).
Proof.
  unfold row_valid, uploadRow. rewrite !andb_true_iff, !negb_true_iff, !bool_decide_eq_true.
  intros [[[Hd Ht] [t Hp]] [w Hw]]. rewrite Hd, Ht, Hp, Hw. cbn [orb].
  apply falsy_false in Hd as (d & Hd & Hdne & _).
  pose proof (falsy_false _ Ht) as (tn & Htn & Htne & Hor).
  destruct (falsy (row !! "id")) eqn:Hid; eexists; (split; [reflexivity|]).
  - split; [|reflexivity]. unfold imported. cbn.
    repeat split; try congruence.
    exists d, t. rewrite Hd in Hp. now repeat split.
  - split.
    + unfold imported. cbn. repeat split; try congruence.
      exists d, t. rewrite Hd in Hp. now repeat split.
    + cbn. apply falsy_false in Hid as (i & Hi & _ & _). now rewrite Hi.
Qed.

Lemma uploadRow_invalid (h : Host) (row : gmap string string) (n : nat) :
  row_valid h row = false ->
  exists reason,
    In reason upload_reasons
    /\ uploadRow h row n = inl (reason +:+ JSON_stringify h row).
Proof.
  unfold row_valid, uploadRow, upload_reasons.
  destruct (falsy (row !! "date")); [intros _; eexists; split; [|reflexivity]; cbn; tauto|].
  destruct (falsy (row !! "tenantName")); [intros _; eexists; split; [|reflexivity]; cbn; tauto|].
  cbn [negb andb orb].
  destruct (LocalDate.of_string h _) as [t|];
    [|intros _; eexists; split; [|reflexivity]; cbn; tauto].
  destruct (JSNumber.parseInt _) as [w|];
    [|intros _; eexists; split; [|reflexivity]; cbn; tauto].
  rewrite !bool_decide_eq_true_2 by eauto. discriminate.
Qed.

Lemma uploadRows_valid (h : Host) (rows : list (gmap string string)) (n : nat) :
  (forall row, In row rows -> row_valid h row = true) ->
  exists entries,
    uploadRows h rows n = inr entries
    /\ Forall2 (imported h) rows entries
    /\ (forall (j : nat) row e, rows !! j = Some row -> entries !! j = Some e ->
          if falsy (row !! "id")
          then id e = uuidv4 h (n + missing_ids (take j rows))
          else row !! "id" = Some (id e)).
Proof.
  revert n. induction rows as [|row rows IH]; intros n Hall.
  - exists []. cbn. split; [reflexivity|]. split; [constructor|]. intros j ? ? [=].
  - destruct (uploadRow_valid h row n (Hall row (or_introl eq_refl))) as (e & He & Himp & Hid).
    destruct (IH (if falsy (row !! "id") then S n else n)
                 (fun r Hr => Hall r (or_intror Hr))) as (es & Hes & Hall2 & Hids).
    exists (e :: es). cbn [uploadRows]. rewrite He, Hes.
    split; [reflexivity|]. split; [now constructor|].
    intros [|j] row' e' Hj He'; cbn in Hj, He'.
    + injection Hj as <-. injection He' as <-.
      destruct (falsy (row !! "id")); [|exact Hid].
      cbn. now rewrite Nat.add_0_r.
    + specialize (Hids j row' e' Hj He').
      destruct (falsy (row' !! "id")); [|exact Hids].
      rewrite Hids. f_equal. unfold missing_ids. cbn [take List.filter].
      destruct (falsy (row !! "id")); cbn [length]; lia.
Qed.

Lemma uploadRows_invalid (h : Host) (good : list (gmap string string))
    (bad : gmap string string) (rest : list (gmap string string)) (n : nat) :
  (forall row, In row good -> row_valid h row = true) ->
  row_valid h bad = false ->
  exists reason,
    In reason upload_reasons
    /\ uploadRows h (good ++ bad :: rest) n = inl (reason +:+ JSON_stringify h bad).
Proof.
  revert n. induction good as [|row good IH]; intros n Hgood Hbad.
  - destruct (uploadRow_invalid h bad n Hbad) as (reason & Hin & Hr).
    exists reason. split; [exact Hin|]. cbn. now rewrite Hr.
  - destruct (uploadRow_valid h row n (Hgood row (or_introl eq_refl))) as (e & He & _).
    destruct (IH (if falsy (row !! "id") then S n else n)
                 (fun r Hr => Hgood r (or_intror Hr)) Hbad) as (reason & Hin & Hr).
    exists reason. split; [exact Hin|]. cbn. now rewrite He, Hr.
Qed.

(** Every list of rows validates as a whole or has a first row that does not. *)
Lemma rows_valid_or_first_invalid (h : Host) (rows : list (gmap string string)) :
  (forall row, In row rows -> row_valid h row = true)
  \/ exists good bad rest,
       rows = good ++ bad :: rest
       /\ (forall row, In row good -> row_valid h row = true)
       /\ row_valid h bad = false.
Proof.
  induction rows as [|row rows IH]; [left; intros ? []|].
  destruct (row_valid h row) eqn:Hrow.
  - destruct IH as [IH | (good & bad & rest & -> & Hgood & Hbad)].
    + left. intros r [<-|Hr]; auto.
    + right. exists (row :: good), bad, rest. split; [reflexivity|].
      split; [|exact Hbad]. intros r [<-|Hr]; auto.
  - right. exists [], row, rows. split; [reflexivity|]. split; [intros ? []|exact Hrow].
Qed.

Lemma reason_truthy (reason rest : string) :
  In reason upload_reasons ->
  JSString.or_else (Some (reason +:+ rest))
    "Could not parse the CSV file. Please check the format."
  = reason +:+ rest.
Proof. intros [<-|[<-|[<-|[]]]]; reflexivity. Qed.

(** C3: an upload is all or nothing. When some row does not validate
    (date or tenant name missing or empty, date not parseable, week not an
    integer) the store and the dialog state stay exactly as they were and
    the one notification added names the reason and the first such row;
    when every row validates the store becomes the rows as entries, in
    order, a row without id getting the next identifier of the generator
    and missing optional cells the empty text. The rows are those that
    the parser delivers for the file; without a readable file the store
    stays as it was as well. *)
Theorem upload_all_or_nothing (h : Host) (n : nat) (rows : list (gmap string string))
    (st : HomeState) :
  let st' := complete h n rows st in
  entryToEdit st' = entryToEdit st
  /\ isAddEditDialogOpen st' = isAddEditDialogOpen st
  /\ (forall good bad rest,
        rows = good ++ bad :: rest ->
        (forall row, In row good -> row_valid h row = true) ->
        row_valid h bad = false ->
        data st' = data st
        /\ exists reason,
             In reason upload_reasons
             /\ toasts st' = toasts st ++
                  [{| variant := destructive; title := "Upload Failed";
                      description := reason +:+ JSON_stringify h bad |}])
  /\ ((forall row, In row rows -> row_valid h row = true) ->
        Forall2 (imported h) rows (data st')
        /\ (forall (j : nat) row e, rows !! j = Some row -> data st' !! j = Some e ->
              if falsy (row !! "id")
              then id e = uuidv4 h (n + missing_ids (take j rows))
              else row !! "id" = Some (id e)))
  /\ (forall file,
        handleFileUpload h n file st
        = match file with
          | FileText text => complete h n (Papa.parse text) st
          | Unreadable =>
              toast st {| variant := destructive; title := "Upload Failed";
                          description := "Could not read the file." |}
          | NoFile => st
          end).
Proof.
  cbv zeta.
  split; [unfold complete; now destruct (uploadRows h rows n)|].
  split; [unfold complete; now destruct (uploadRows h rows n)|].
  split; [|split].
  - intros good bad rest -> Hgood Hbad. unfold complete.
    destruct (uploadRows_invalid h good bad rest n Hgood Hbad) as (reason & Hin & ->).
    cbn [data toast toasts]. split; [reflexivity|].
    exists reason. split; [exact Hin|]. now rewrite reason_truthy.
  - intros Hall. unfold complete.
    destruct (uploadRows_valid h rows n Hall) as (entries & -> & H2 & Hids).
    cbn [data toast set_data]. now split.
  - now intros [| |text].
Qed.

(** C4, refuted as stated: an upload stores an entry with a negative week. *)
Lemma negative_week_is_stored :
  exists e,
    In e (data (handleFileUpload hostUTC 0 (FileText negative_week_file) emptyState))
    /\ week e = -5 /\ week e < 0.
Proof.
  eexists. split; [left; vm_compute; reflexivity|]. cbn. lia.
Qed.

(** A week that only begins with digits is taken for those digits. *)
Example week_with_trailing_text :
  JSNumber.parseInt (Some "3rd") = Some 3 /\ JSNumber.parseInt (Some "third") = None.
Proof. split; reflexivity. Qed.

(** C4, as the code has it: where the week cells denote integers that
    a number holds exactly, the week of every entry that an upload
    stores is the integer that [parseInt] reads from the row's week
    cell, of either sign; a row from whose week cell [parseInt] reads no
    integer makes the upload fail and the store stay as it was. *)
Theorem imported_week_is_parsed_integer (h : Host) (n : nat)
    (rows : list (gmap string string)) (st : HomeState) :
  Forall safe_week rows ->
  ((exists row, In row rows /\ JSNumber.parseInt (row !! "week") = None) ->
     data (complete h n rows st) = data st)
  /\ (forall entries, uploadRows h rows n = inr entries ->
        data (complete h n rows st) = entries
        /\ Forall2 (fun row e => JSNumber.parseInt (row !! "week") = Some (week e)
                                 /\ safe_integer (week e))
                   rows entries).
Proof.
  intros Hsafe. split.
  - intros (row & Hin & Hweek).
    destruct (rows_valid_or_first_invalid h rows) as [Hall | (good & bad & rest & -> & Hgood & Hbad)].
    + specialize (Hall row Hin). unfold row_valid in Hall. rewrite Hweek in Hall.
      rewrite (bool_decide_eq_false_2 (is_Some (@None Z))) in Hall by apply is_Some_None.
      now rewrite andb_false_r in Hall.
    + unfold complete.
      now destruct (uploadRows_invalid h good bad rest n Hgood Hbad) as (reason & _ & ->).
  - intros entries Hup. unfold complete. rewrite Hup. cbn. split; [reflexivity|].
    destruct (rows_valid_or_first_invalid h rows) as [Hall | (good & bad & rest & -> & Hgood & Hbad)].
    + destruct (uploadRows_valid h rows n Hall) as (es & Hes & H2 & _).
      rewrite Hup in Hes. injection Hes as <-.
      apply Forall2_same_length_lookup. split; [exact (Forall2_length _ _ _ H2)|].
      intros j row e Hrow He.
      destruct (Forall2_lookup_lr _ _ _ j row e H2 Hrow He) as [Hw _].
      split; [exact Hw|]. rewrite Forall_lookup in Hsafe. exact (Hsafe j row Hrow _ Hw).
    + destruct (uploadRows_invalid h good bad rest n Hgood Hbad) as (reason & _ & Hr).
      rewrite Hup in Hr. discriminate.
Qed.

Lemma imported_week_is_parsed_integer_witness :
  data (complete hostUTC 0 [{[ "week" := "x"; "date" := "2025-06-01"; "tenantName" := "A" ]}]
          emptyState) = []
  /\ Forall2 (fun row e => JSNumber.parseInt (row !! "week") = Some (week e)
                           /\ safe_integer (week e))
       [({[ "week" := "-5"; "date" := "2025-06-01"; "tenantName" := "A" ]} : gmap string string)]
       (data (complete hostUTC 0
                [{[ "week" := "-5"; "date" := "2025-06-01"; "tenantName" := "A" ]}] emptyState)).
Proof.
  split.
  - apply (proj1 (imported_week_is_parsed_integer hostUTC 0
             [{[ "week" := "x"; "date" := "2025-06-01"; "tenantName" := "A" ]}] emptyState
             ltac:(constructor; [intros w Hw; discriminate Hw | constructor]))).
    eexists. split; [left; reflexivity|]. vm_compute. reflexivity.
  - refine (proj2 (proj2 (imported_week_is_parsed_integer hostUTC 0
              [{[ "week" := "-5"; "date" := "2025-06-01"; "tenantName" := "A" ]}] emptyState
              _) _ _)).
    + constructor; [|constructor]. intros w Hw.
      change (Some (-5) = Some w) in Hw. injection Hw as <-.
      unfold safe_integer. now cbv.
    + vm_compute. reflexivity.
Defined.

(** ** The CSV export *)

Lemma format_valid (h : Host) (t : Z) :
  LocalDate.format_yyyy_MM_dd h (Some t) = Some (local_date_text h t).
Proof. reflexivity. Qed.

Lemma header_line :
  JSString.join (String Papa.comma EmptyString) (Papa.safe <$> headers) = csv_header.
Proof. vm_compute. reflexivity. Qed.

Lemma entry_line (e : LeasingEntry) (d : string) :
  JSString.join (String Papa.comma EmptyString)
    ((fun f => Papa.safe_value (entry_lookup (with_date e d) f)) <$> headers)
  = csv_line e d.
Proof. reflexivity. Qed.

(** The rows handed to [Papa.unparse], when every date is valid. *)
Lemma dataToExport_valid (h : Host) (l : list LeasingEntry) (ts : list Z) :
  Forall2 (fun e t => LocalDate.of_string h (date e) = Some t) l ts ->
  mapM (fun entry =>
          d ← LocalDate.format_yyyy_MM_dd h (LocalDate.of_string h (date entry));
          Some (with_date entry d)) l
  = Some (zip_with (fun e t => with_date e (local_date_text h t)) l ts).
Proof.
  induction 1 as [|e t l ts He _ IH]; [reflexivity|].
  cbn [mapM zip_with]. rewrite He, IH. reflexivity.
Qed.

Lemma unparse_lines (h : Host) (l : list LeasingEntry) (ts : list Z) :
  length l = length ts ->
  Papa.unparse entry_lookup headers
    (zip_with (fun e t => with_date e (local_date_text h t)) l ts)
  = csv_header +:+ Papa.newline
    +:+ JSString.join Papa.newline
          (zip_with (fun e t => csv_line e (local_date_text h t)) l ts).
Proof.
  intros Hlen. unfold Papa.unparse. rewrite header_line. do 3 f_equal.
  revert ts Hlen. induction l as [|e l IH]; intros [|t ts] Hlen; try discriminate;
    [reflexivity|].
  cbn [zip_with fmap list_fmap]. rewrite entry_line. f_equal.
  apply IH. now injection Hlen.
Qed.

(** C9: when every date of the sorted sequence is valid, the export is
    the header line [id,week,date,tenantName,businessName,businessType,
    contact,notes,status] followed by one line per entry in the order of
    the sequence, the date cell being the entry's local calendar date as
    [yyyy-MM-dd], in a file named [leasing_report_] today's date [.csv]. *)
Theorem csv_export_format (h : Host) (now : Z) (sortedData' : list LeasingEntry)
    (ts : list Z) :
  Z.abs now <= max_time ->
  Forall2 (fun e t => LocalDate.of_string h (date e) = Some t) sortedData' ts ->
  handleDownload h now sortedData'
  = Some {| blob :=
              csv_header +:+ Papa.newline
              +:+ JSString.join Papa.newline
                    (zip_with (fun e t => csv_line e (local_date_text h t)) sortedData' ts);
            download := "leasing_report_" +:+ local_date_text h now +:+ ".csv" |}.
Proof.
  intros Hnow Hts. unfold handleDownload.
  rewrite (dataToExport_valid h sortedData' ts Hts). cbn [mbind option_bind].
  rewrite (unparse_lines h sortedData' ts (Forall2_length _ _ _ Hts)).
  assert (JSDate.of_number (Some now) = Some now) as ->.
  { cbn. now apply TimeClip_Some. }
  now rewrite format_valid.
Qed.

Lemma csv_export_format_witness :
  handleDownload hostJakarta 1748736000000 [entryA]
  = Some {| blob :=
              csv_header +:+ Papa.newline
              +:+ "a1,3,2025-06-01," +:+ String Papa.dquote ("Toko, Maju" +:+
                  String Papa.dquote (",Maju Jaya,Retail,0812," +:+
                  String Papa.dquote (" x" +:+ String Papa.dquote ",")));
            download := "leasing_report_2025-06-01.csv" |}.
Proof.
  rewrite (csv_export_format hostJakarta 1748736000000 [entryA] [1748736000000]).
  - vm_compute. reflexivity.
  - vm_compute. discriminate.
  - repeat constructor.
Defined.

(** An entry whose date does not parse stops the export: no file. *)
Example export_invalid_date :
  handleDownload hostUTC 0 [with_date entryA "soon"] = None.
Proof. reflexivity. Qed.

(** ** Papa Parse reads back what it wrote *)

Lemma chars_rev_string (s : string) :
  String.string_of_list_ascii (rev (rev (chars s))) = s.
Proof. rewrite rev_involutive. apply String.string_of_list_ascii_of_string. Qed.

Lemma hasSpecial_escape (c : string) :
  Papa.hasSpecial (Papa.escapeQuotes c) = Papa.hasSpecial c.
Proof.
  induction c as [|x c IH]; [reflexivity|]. cbn [Papa.escapeQuotes].
  destruct (Ascii.eqb x Papa.dquote) eqn:Hx; cbn [Papa.hasSpecial]; rewrite IH.
  - apply Ascii.eqb_eq in Hx as ->. reflexivity.
  - reflexivity.
Qed.

Lemma escape_plain (c : string) :
  Papa.hasSpecial c = false -> Papa.escapeQuotes c = c.
Proof.
  induction c as [|x c IH]; [reflexivity|]. cbn [Papa.hasSpecial Papa.escapeQuotes].
  intros H. apply orb_false_iff in H as [Hx Hc].
  unfold Papa.is_special in Hx. rewrite !orb_false_iff in Hx.
  destruct Hx as [[[_ _] Hq] _]. rewrite Hq. now rewrite IH.
Qed.

(** Reading a cell written without quotes. *)
Lemma unquoted_run (c : string) :
  Papa.hasSpecial c = false ->
  forall st field row rows k,
    st = Papa.FieldStart \/ st = Papa.Unquoted ->
    Papa.parse_go st field row rows (c +:+ k)
    = Papa.parse_go (match c with EmptyString => st | _ => Papa.Unquoted end)
        (rev (chars c) ++ field) row rows k.
Proof.
  induction c as [|x c IH]; intros Hc st field row rows k Hst; [reflexivity|].
  cbn [Papa.hasSpecial] in Hc. apply orb_false_iff in Hc as [Hx Hc].
  unfold Papa.is_special in Hx. rewrite !orb_false_iff in Hx.
  destruct Hx as [[[Hcr _] Hq] Hcm].
  rewrite append_cons.
  assert (Papa.parse_go st field row rows (String x (c +:+ k))
          = Papa.parse_go Papa.Unquoted (x :: field) row rows (c +:+ k)) as ->.
  { destruct Hst as [-> | ->]; cbn [Papa.parse_go]; now rewrite Hcm, Hcr, Hq. }
  rewrite (IH Hc Papa.Unquoted (x :: field) row rows k (or_intror eq_refl)).
  unfold chars. cbn [String.list_ascii_of_string rev]. rewrite <- app_assoc. cbn [app].
  now destruct c.
Qed.

(** Reading the inside of a quoted cell. *)
Lemma quoted_run (c : string) :
  forall field row rows k,
    Papa.parse_go Papa.Quoted field row rows (Papa.escapeQuotes c +:+ k)
    = Papa.parse_go Papa.Quoted (rev (chars c) ++ field) row rows k.
Proof.
  induction c as [|x c IH]; intros field row rows k; [reflexivity|].
  cbn [Papa.escapeQuotes chars String.list_ascii_of_string rev].
  rewrite <- app_assoc. cbn [app].
  destruct (Ascii.eqb x Papa.dquote) eqn:Hx.
  - apply Ascii.eqb_eq in Hx as ->. rewrite !append_cons.
    etransitivity; [|exact (IH (Papa.dquote :: field) row rows k)]. reflexivity.
  - rewrite append_cons. cbn [Papa.parse_go]. rewrite Hx.
    exact (IH (x :: field) row rows k).
Qed.

(** After the text of a cell the machine holds the cell's content. *)
Lemma cell_run (c : string) :
  exists st field,
    cell_end st
    /\ String.string_of_list_ascii (rev field) = c
    /\ forall row rows k,
         Papa.parse_go Papa.FieldStart [] row rows (Papa.safe c +:+ k)
         = Papa.parse_go st field row rows k.
Proof.
  unfold Papa.safe.
  destruct (Papa.hasSpecial (Papa.escapeQuotes c) || Papa.firstIs Papa.space (Papa.escapeQuotes c)
            || Papa.lastIs Papa.space (Papa.escapeQuotes c)) eqn:Hq.
  - exists Papa.QuoteSeen, (rev (chars c)). split; [right; now right|].
    split; [now apply chars_rev_string|]. intros row rows k.
    rewrite append_cons.
    change (Papa.parse_go Papa.FieldStart [] row rows
              (String Papa.dquote
                 ((Papa.escapeQuotes c +:+ String Papa.dquote EmptyString) +:+ k)))
      with (Papa.parse_go Papa.Quoted [] row rows
              ((Papa.escapeQuotes c +:+ String Papa.dquote EmptyString) +:+ k)).
    rewrite append_assoc, quoted_run, app_nil_r.
    rewrite append_cons, append_nil_l. reflexivity.
  - rewrite !orb_false_iff in Hq. destruct Hq as [[Hs _] _].
    rewrite hasSpecial_escape in Hs. rewrite (escape_plain c Hs).
    exists (match c with EmptyString => Papa.FieldStart | _ => Papa.Unquoted end),
           (rev (chars c)).
    split; [destruct c; [now left | right; now left]|].
    split; [now apply chars_rev_string|]. intros row rows k.
    rewrite (unquoted_run c Hs Papa.FieldStart [] row rows k (or_introl eq_refl)).
    now rewrite app_nil_r.
Qed.

Lemma at_comma (st : Papa.pstate) (field : list ascii) (row : list string)
    (rows : list (list string)) (k : string) :
  cell_end st ->
  Papa.parse_go st field row rows (String Papa.comma k)
  = Papa.parse_go Papa.FieldStart [] (Papa.close_field field row) rows k.
Proof. intros [-> | [-> | ->]]; reflexivity. Qed.

Lemma at_newline (st : Papa.pstate) (field : list ascii) (row : list string)
    (rows : list (list string)) (k : string) :
  cell_end st ->
  Papa.parse_go st field row rows (Papa.newline +:+ k)
  = Papa.parse_go Papa.FieldStart [] [] (Papa.close_row field row rows) k.
Proof. intros [-> | [-> | ->]]; reflexivity. Qed.

Lemma line_of_cons (c c' : string) (cs : list string) :
  line_of (c :: c' :: cs) = Papa.safe c +:+ String Papa.comma (line_of (c' :: cs)).
Proof. reflexivity. Qed.

(** Reading a line that is followed by a line break, and the last line. *)
Lemma line_newline (cs : list string) :
  forall c row rows k,
    Papa.parse_go Papa.FieldStart [] row rows (line_of (c :: cs) +:+ Papa.newline +:+ k)
    = Papa.parse_go Papa.FieldStart [] [] ((rev row ++ c :: cs) :: rows) k.
Proof.
  induction cs as [|c' cs IH]; intros c row rows k;
    destruct (cell_run c) as (st & field & Hst & Hfield & Hrun).
  - change (line_of [c]) with (Papa.safe c).
    rewrite Hrun, at_newline by exact Hst.
    unfold Papa.close_row, Papa.close_field. now rewrite Hfield.
  - rewrite line_of_cons, append_assoc, Hrun, append_cons, at_comma by exact Hst.
    unfold Papa.close_field. rewrite Hfield, IH. cbn [rev].
    now rewrite <- app_assoc.
Qed.

Lemma line_eof (cs : list string) :
  forall c row rows,
    Papa.parse_go Papa.FieldStart [] row rows (line_of (c :: cs))
    = rev ((rev row ++ c :: cs) :: rows).
Proof.
  induction cs as [|c' cs IH]; intros c row rows;
    destruct (cell_run c) as (st & field & Hst & Hfield & Hrun).
  - change (line_of [c]) with (Papa.safe c).
    rewrite <- (append_nil_r (Papa.safe c)), Hrun.
    change (Papa.parse_go st field row rows EmptyString)
      with (rev (Papa.close_row field row rows)).
    unfold Papa.close_row, Papa.close_field. now rewrite Hfield.
  - rewrite line_of_cons, Hrun, at_comma by exact Hst.
    unfold Papa.close_field. rewrite Hfield, IH. cbn [rev].
    now rewrite <- app_assoc.
Qed.

(** Reading the lines of a text: the rows, and one row that is a single
    empty cell when nothing follows the last line break. *)
Lemma lines_parse (ls : list (list string)) :
  Forall (fun l => l <> []) ls ->
  forall rows,
    Papa.parse_go Papa.FieldStart [] [] rows (JSString.join Papa.newline (line_of <$> ls))
    = rev rows ++ match ls with [] => [[EmptyString]] | _ => ls end.
Proof.
  induction 1 as [|l ls Hl Hls IH]; intros rows; [reflexivity|].
  destruct l as [|c cs]; [congruence|].
  destruct ls as [|l' ls].
  - cbn [fmap list_fmap JSString.join]. rewrite line_eof. reflexivity.
  - change (JSString.join Papa.newline (line_of <$> (c :: cs) :: l' :: ls))
      with (line_of (c :: cs) +:+ Papa.newline
            +:+ JSString.join Papa.newline (line_of <$> l' :: ls)).
    rewrite line_newline, IH. cbn [rev app]. now rewrite <- app_assoc.
Qed.

Lemma safe_value_cell (v : JSValue) : Papa.safe_value v = Papa.safe (cell_value v).
Proof. now destruct v. Qed.

Lemma filter_rows (ls : list (list string)) :
  Forall (fun l => (2 <= length l)%nat) ls ->
  List.filter (fun r => negb (Papa.testEmptyLine r)) ls = ls.
Proof.
  induction 1 as [|l ls Hl _ IH]; [reflexivity|]. cbn [List.filter].
  unfold Papa.testEmptyLine at 1. rewrite bool_decide_eq_false_2, IH; [reflexivity|].
  intros ->. cbn in Hl. lia.
Qed.

(** [Papa.parse] of a text written by [Papa.unparse] with two fields or
    more gives one object per data row, in order, keyed by the fields and
    holding the texts of the cells. *)
Lemma parse_unparse {R : Type} (get : R -> string -> JSValue)
    (fields : list string) (rows : list R) :
  (2 <= length fields)%nat ->
  Papa.parse (Papa.unparse get fields rows)
  = (fun row => Papa.to_object fields ((fun f => cell_value (get row f)) <$> fields))
    <$> rows.
Proof.
  intros Hlen. unfold Papa.parse, Papa.parse_rows, Papa.unparse.
  set (cells := fun row : R => (fun f => cell_value (get row f)) <$> fields).
  assert ((fun row => JSString.join (String Papa.comma EmptyString)
                        ((fun f => Papa.safe_value (get row f)) <$> fields)) <$> rows
          = line_of <$> (cells <$> rows)) as ->.
  { rewrite <- list_fmap_compose. apply list_fmap_ext. intros _ row _.
    unfold line_of, cells, compose. rewrite <- list_fmap_compose. f_equal.
    apply list_fmap_ext. intros _ f _. apply safe_value_cell. }
  destruct fields as [|f fs]; [cbn in Hlen; lia|].
  fold (line_of (f :: fs)). rewrite line_newline. cbn [rev app].
  assert (Forall (fun l : list string => (2 <= length l)%nat) (cells <$> rows)) as Hrows.
  { apply Forall_fmap, Forall_true. intros row. unfold cells, compose.
    now rewrite length_fmap. }
  rewrite lines_parse by (eapply Forall_impl; [exact Hrows|]; intros [|] ?; cbn in *; [lia|congruence]).
  cbn [rev app].
  destruct rows as [|row rows].
  - cbn [fmap list_fmap List.filter]. unfold Papa.testEmptyLine.
    rewrite bool_decide_eq_false_2 by (intros [= -> ->]; cbn in Hlen; lia).
    rewrite bool_decide_eq_true_2 by reflexivity. reflexivity.
  - rewrite filter_rows by (constructor; [exact Hlen | exact Hrows]).
    cbn [fmap list_fmap]. f_equal. fold (@fmap list _).
    rewrite <- list_fmap_compose. reflexivity.
Qed.

(** ** Decimal numbers *)

Lemma digit_val_char (d : N) :
  (d < 10)%N -> JSNumber.digit_val (pretty_N_char d) = Some (Z.of_N d).
Proof.
  intros Hd.
  assert (d = 0 \/ d = 1 \/ d = 2 \/ d = 3 \/ d = 4 \/ d = 5 \/ d = 6
          \/ d = 7 \/ d = 8 \/ d = 9)%N as Hcases by lia.
  repeat (destruct Hcases as [-> | Hcases]; [reflexivity|]). now subst.
Qed.

(** Reading the digits that [pretty_N_go] puts in front of [s]. *)
Lemma parse_digits_pretty (x : N) :
  exists k : Z,
    0 <= k /\
    forall s a,
      JSNumber.parse_digits (Some a) (pretty_N_go x s)
      = JSNumber.parse_digits (Some (a * 10 ^ k + Z.of_N x)) s.
Proof.
  induction (N.lt_wf_0 x) as [x _ IH].
  destruct (decide (x = 0%N)) as [->|Hx].
  - exists 0. split; [lia|]. intros s a. rewrite pretty_N_go_0. f_equal. f_equal. lia.
  - destruct (IH (x `div` 10)%N) as (k & Hk & Hrun).
    { apply N.div_lt; lia. }
    exists (k + 1). split; [lia|]. intros s a.
    rewrite pretty_N_go_step by lia. rewrite Hrun.
    cbn [JSNumber.parse_digits]. rewrite digit_val_char by (apply N.mod_lt; lia).
    cbn [default]. f_equal. f_equal.
    rewrite Z.pow_add_r, Z.pow_1_r, N2Z.inj_mod, N2Z.inj_div by lia.
    change (Z.of_N 10) with 10.
    pose proof (Z.div_mod (Z.of_N x) 10 ltac:(lia)). unfold Datatypes.id. lia.
Qed.

(** A number that is not zero is printed with a digit in front. *)
Lemma pretty_N_go_head (x : N) (s : string) :
  (0 < x)%N -> exists d s', (d < 10)%N /\ pretty_N_go x s = String (pretty_N_char d) s'.
Proof.
  revert s. induction (N.lt_wf_0 x) as [x _ IH]. intros s Hx.
  rewrite pretty_N_go_step by exact Hx.
  destruct (decide (x `div` 10 = 0)%N) as [Hz|Hz].
  - rewrite Hz, pretty_N_go_0. eexists _, _. split; [|reflexivity]. apply N.mod_lt. lia.
  - apply IH; [apply N.div_lt; lia | now apply N.neq_0_lt_0].
Qed.

Lemma parseInt_digit_head (c : ascii) (s : string) (v : Z) :
  JSNumber.digit_val c = Some v ->
  JSNumber.parseInt (Some (String c s)) = JSNumber.parse_digits (Some 0) (String c s).
Proof.
  intros Hc.
  destruct c as [[] [] [] [] [] [] [] []]; try (cbv in Hc; discriminate Hc); reflexivity.
Qed.

Lemma parse_pretty_N (x : N) :
  JSNumber.parse_digits None (pretty x) = Some (Z.of_N x)
  /\ JSNumber.parseInt (Some (pretty x)) = Some (Z.of_N x).
Proof.
  unfold pretty, pretty_N. destruct (decide (x = 0%N)) as [->|Hx]; [split; reflexivity|].
  destruct (pretty_N_go_head x EmptyString ltac:(lia)) as (d & s' & Hd & Hhead).
  destruct (parse_digits_pretty x) as (k & Hk & Hrun).
  assert (JSNumber.parse_digits (Some 0) (pretty_N_go x EmptyString) = Some (Z.of_N x)) as H0.
  { rewrite Hrun. reflexivity. }
  split.
  - rewrite <- H0, Hhead. cbn [JSNumber.parse_digits].
    now rewrite digit_val_char by exact Hd.
  - rewrite <- H0, Hhead. apply (parseInt_digit_head _ _ (Z.of_N d)).
    now apply digit_val_char.
Qed.

(** [parseInt] reads back the integer that [toString] printed. *)
Lemma parseInt_toString (w : Z) :
  JSNumber.parseInt (Some (JSNumber.toString w)) = Some w.
Proof.
  unfold JSNumber.toString, pretty, pretty_Z. destruct w as [|p|p].
  - reflexivity.
  - apply (parse_pretty_N (Npos p)).
  - change (JSNumber.parseInt (Some ("-" +:+ pretty p)))
      with (Z.opp <$> JSNumber.parse_digits None (pretty (Npos p))).
    now rewrite (proj1 (parse_pretty_N (Npos p))).
Qed.

(** ** The calendar *)

Lemma DayFromYear_bounds (y : Z) :
  146097 * (y - 1970) - 600 <= 400 * JSDate.DayFromYear y <= 146097 * (y - 1970) + 600.
Proof. unfold JSDate.DayFromYear. Z.to_euclidean_division_equations; lia. Qed.

(** [YearFromDay d] is the year that day [d] falls in. *)
Lemma YearFromDay_spec (d : Z) :
  JSDate.DayFromYear (JSDate.YearFromDay d) <= d
  < JSDate.DayFromYear (JSDate.YearFromDay d + 1).
Proof.
  unfold JSDate.YearFromDay. cbv zeta.
  set (y := 1970 + 400 * d / 146097).
  assert (146097 * (y - 1970) <= 400 * d < 146097 * (y - 1970) + 146097) as Hy.
  { subst y. Z.to_euclidean_division_equations. lia. }
  pose proof (DayFromYear_bounds (y - 1)). pose proof (DayFromYear_bounds (y + 2)).
  destruct (Z.leb_spec (JSDate.DayFromYear (y + 1)) d).
  { replace (y + 1 + 1) with (y + 2) by lia. lia. }
  destruct (Z.leb_spec (JSDate.DayFromYear y) d); [lia|].
  replace (y - 1 + 1) with y by lia. lia.
Qed.

Lemma DaysInYear_spec (y : Z) :
  JSDate.DayFromYear (y + 1) - JSDate.DayFromYear y = JSDate.DaysInYear y.
Proof.
  unfold JSDate.DayFromYear, JSDate.DaysInYear.
  destruct (Z.eqb_spec (y mod 4) 0), (Z.eqb_spec (y mod 100) 0),
    (Z.eqb_spec (y mod 400) 0); cbn [negb];
    Z.to_euclidean_division_equations; lia.
Qed.

Lemma LeapYear_spec (y : Z) :
  (JSDate.LeapYear y = 0 \/ JSDate.LeapYear y = 1)
  /\ JSDate.DaysInYear y = 365 + JSDate.LeapYear y.
Proof.
  unfold JSDate.LeapYear, JSDate.DaysInYear.
  destruct (negb (y mod 4 =? 0)), (negb (y mod 100 =? 0)), (negb (y mod 400 =? 0));
    cbn; lia.
Qed.

Lemma DayWithinYear_bounds (t : Z) :
  0 <= JSDate.DayWithinYear t < 365 + JSDate.InLeapYear t.
Proof.
  unfold JSDate.DayWithinYear, JSDate.InLeapYear, JSDate.YearFromTime.
  pose proof (YearFromDay_spec (JSDate.Day t)) as Hy.
  pose proof (DaysInYear_spec (JSDate.YearFromDay (JSDate.Day t))) as Hd.
  pose proof (LeapYear_spec (JSDate.YearFromDay (JSDate.Day t))) as [_ Hl]. lia.
Qed.

Lemma monthOfDay_spec (dwy leap : Z) :
  0 <= dwy < 365 + leap -> leap = 0 \/ leap = 1 ->
  let m := JSDate.monthOfDay dwy leap in
  0 <= m <= 11
  /\ JSDate.monthStart m leap <= dwy < JSDate.monthStart (m + 1) leap.
Proof.
  intros Hd Hl. unfold JSDate.monthOfDay. cbv zeta.
  destruct Hl as [-> | ->];
    repeat (match goal with
            | |- context [if ?a <? ?b then _ else _] =>
                let H := fresh in
                destruct (Z.ltb_spec a b) as [H|H];
                [try (cbv [JSDate.monthStart Z.add Pos.add Pos.succ Pos.add_carry] in *; lia)|
                 try (cbv [JSDate.monthStart Z.add Pos.add Pos.succ Pos.add_carry] in *; lia)]
            end).
Qed.

(** Year, month and day of the month of a time value are a date of the
    calendar, and [MakeDay] gives back the day they came from. *)
Lemma calendar_fields (t : Z) :
  0 <= JSDate.MonthFromTime t <= 11
  /\ 1 <= JSDate.DateFromTime t
       <= JSDate.DaysInMonth (JSDate.YearFromTime t) (JSDate.MonthFromTime t)
  /\ JSDate.MakeDay (JSDate.YearFromTime t) (JSDate.MonthFromTime t) (JSDate.DateFromTime t)
     = JSDate.Day t.
Proof.
  pose proof (DayWithinYear_bounds t) as Hd.
  pose proof (LeapYear_spec (JSDate.YearFromTime t)) as [Hl _].
  fold (JSDate.InLeapYear t) in Hl.
  pose proof (monthOfDay_spec _ _ Hd Hl) as [Hm Hs]. cbv zeta in Hm, Hs.
  fold (JSDate.MonthFromTime t) in Hm, Hs.
  unfold JSDate.DateFromTime, JSDate.DaysInMonth, JSDate.MakeDay.
  fold (JSDate.InLeapYear t).
  split; [exact Hm|]. split; [lia|].
  rewrite (Z.div_small (JSDate.MonthFromTime t) 12) by lia.
  rewrite (Z.mod_small (JSDate.MonthFromTime t) 12) by lia.
  rewrite Z.add_0_r. fold (JSDate.InLeapYear t).
  unfold JSDate.DayWithinYear. lia.
Qed.

(** The calendar fields depend on the day only. *)
Lemma calendar_fields_of_day (t t' : Z) :
  JSDate.Day t = JSDate.Day t' ->
  JSDate.YearFromTime t = JSDate.YearFromTime t'
  /\ JSDate.MonthFromTime t = JSDate.MonthFromTime t'
  /\ JSDate.DateFromTime t = JSDate.DateFromTime t'.
Proof.
  intros H.
  unfold JSDate.DateFromTime, JSDate.MonthFromTime, JSDate.DayWithinYear,
    JSDate.InLeapYear, JSDate.YearFromTime.
  now rewrite H.
Qed.

(** ** Dates as text *)

Lemma pad2_table :
  forallb (fun n => String.eqb (JSDate.addLeadingZeros n 2) (digits2 n)) (seqZ 0 100) = true.
Proof. vm_compute. reflexivity. Qed.

Lemma pad4_table :
  forallb (fun n => String.eqb (JSDate.addLeadingZeros n 4) (digits4 n)) (seqZ 0 10000) = true.
Proof. vm_compute. reflexivity. Qed.

Lemma pad2_shape (n : Z) : 0 <= n <= 99 -> JSDate.addLeadingZeros n 2 = digits2 n.
Proof.
  intros Hn. pose proof pad2_table as H. rewrite forallb_forall in H.
  apply String.eqb_eq, H, list_elem_of_In, elem_of_seqZ. lia.
Qed.

Lemma pad4_shape (n : Z) : 0 <= n <= 9999 -> JSDate.addLeadingZeros n 4 = digits4 n.
Proof.
  intros Hn. pose proof pad4_table as H. rewrite forallb_forall in H.
  apply String.eqb_eq, H, list_elem_of_In, elem_of_seqZ. lia.
Qed.

Lemma digit_val_digit_char (k : Z) :
  0 <= k <= 9 -> JSNumber.digit_val (digit_char k) = Some k.
Proof.
  intros Hk. unfold digit_char. rewrite digit_val_char by lia. f_equal. lia.
Qed.

Lemma fixed_digits2 (n : Z) : 0 <= n <= 99 -> JSDate.fixed_digits 0 (digits2 n) = Some n.
Proof.
  intros Hn. unfold digits2. cbn [JSDate.fixed_digits].
  rewrite !digit_val_digit_char by (Z.to_euclidean_division_equations; lia).
  f_equal. Z.to_euclidean_division_equations; lia.
Qed.

Lemma fixed_digits4 (n : Z) : 0 <= n <= 9999 -> JSDate.fixed_digits 0 (digits4 n) = Some n.
Proof.
  intros Hn. unfold digits4, digits2. cbn [JSDate.fixed_digits].
  rewrite !digit_val_digit_char by (Z.to_euclidean_division_equations; lia).
  f_equal. Z.to_euclidean_division_equations; lia.
Qed.

(** What [parse_iso] computes on ten characters and on twenty-four. *)
Lemma parse_iso_10 (y m d : string) :
  String.length y = 4%nat -> String.length m = 2%nat -> String.length d = 2%nat ->
  JSDate.parse_iso (y +:+ "-" +:+ m +:+ "-" +:+ d)
  = (y' ← JSDate.fixed_digits 0 y; m' ← JSDate.fixed_digits 0 m;
     d' ← JSDate.fixed_digits 0 d;
     if negb ((1 <=? m') && (m' <=? 12) && (1 <=? d')
              && (d' <=? JSDate.DaysInMonth y' (m' - 1)))
     then None
     else JSDate.TimeClip (JSDate.MakeDate (JSDate.MakeDay y' (m' - 1) d') 0)).
Proof.
  destruct y as [|y3 [|y2 [|y1 [|y0 [|]]]]]; try discriminate.
  destruct m as [|m1 [|m0 [|]]]; try discriminate.
  destruct d as [|d1 [|d0 [|]]]; try discriminate.
  intros _ _ _. reflexivity.
Qed.

Lemma parse_iso_24 (y m d : string) :
  String.length y = 4%nat -> String.length m = 2%nat -> String.length d = 2%nat ->
  JSDate.parse_iso (y +:+ "-" +:+ m +:+ "-" +:+ d +:+ "T00:00:00.000Z")
  = (y' ← JSDate.fixed_digits 0 y; m' ← JSDate.fixed_digits 0 m;
     d' ← JSDate.fixed_digits 0 d;
     if negb ((1 <=? m') && (m' <=? 12) && (1 <=? d')
              && (d' <=? JSDate.DaysInMonth y' (m' - 1)))
     then None
     else JSDate.TimeClip (JSDate.MakeDate (JSDate.MakeDay y' (m' - 1) d')
                             (JSDate.MakeTime 0 0 0 0))).
Proof.
  destruct y as [|y3 [|y2 [|y1 [|y0 [|]]]]]; try discriminate.
  destruct m as [|m1 [|m0 [|]]]; try discriminate.
  destruct d as [|d1 [|d0 [|]]]; try discriminate.
  intros _ _ _. reflexivity.
Qed.

Lemma DayFromYear_mono (a b : Z) :
  a <= b -> JSDate.DayFromYear a <= JSDate.DayFromYear b.
Proof. intros Hab. unfold JSDate.DayFromYear. Z.to_euclidean_division_equations; lia. Qed.

Lemma DaysInMonth_le_31 (y m : Z) : 0 <= m <= 11 -> JSDate.DaysInMonth y m <= 31.
Proof.
  intros Hm. unfold JSDate.DaysInMonth.
  destruct (LeapYear_spec y) as [[-> | ->] _];
    assert (m = 0 \/ m = 1 \/ m = 2 \/ m = 3 \/ m = 4 \/ m = 5 \/ m = 6 \/ m = 7
            \/ m = 8 \/ m = 9 \/ m = 10 \/ m = 11) as Hc by lia;
    repeat (destruct Hc as [-> | Hc]; [now cbv|]); subst; now cbv.
Qed.

(** The ISO parser reads a calendar date written with padded fields. *)
Lemma parse_iso_date_text (y m d : Z) :
  0 <= y <= 9999 -> 1 <= m <= 12 -> 1 <= d <= JSDate.DaysInMonth y (m - 1) ->
  JSDate.parse_iso (date_text y m d)
  = JSDate.TimeClip (JSDate.MakeDate (JSDate.MakeDay y (m - 1) d) 0)
  /\ JSDate.parse_iso (date_text y m d +:+ "T00:00:00.000Z")
     = JSDate.TimeClip (JSDate.MakeDate (JSDate.MakeDay y (m - 1) d)
                          (JSDate.MakeTime 0 0 0 0)).
Proof.
  intros Hy Hm Hd.
  pose proof (DaysInMonth_le_31 y (m - 1) ltac:(lia)) as H31.
  unfold date_text. rewrite !append_assoc.
  rewrite (pad4_shape y Hy), (pad2_shape m ltac:(lia)), (pad2_shape d ltac:(lia)).
  rewrite parse_iso_10, parse_iso_24 by reflexivity.
  rewrite (fixed_digits4 y Hy), (fixed_digits2 m ltac:(lia)), (fixed_digits2 d ltac:(lia)).
  cbn [mbind option_bind].
  assert ((1 <=? m) && (m <=? 12) && (1 <=? d) && (d <=? JSDate.DaysInMonth y (m - 1)) = true)
    as ->.
  { rewrite !andb_true_iff, !Z.leb_le. lia. }
  split; reflexivity.
Qed.

Lemma midnight_time_fields (t : Z) :
  t mod JSDate.msPerDay = 0 ->
  JSDate.HourFromTime t = 0 /\ JSDate.MinFromTime t = 0
  /\ JSDate.SecFromTime t = 0 /\ JSDate.msFromTime t = 0
  /\ t = JSDate.MakeDate (JSDate.Day t) 0.
Proof.
  unfold JSDate.HourFromTime, JSDate.MinFromTime, JSDate.SecFromTime, JSDate.msFromTime,
    JSDate.MakeDate, JSDate.Day, JSDate.msPerDay, JSDate.msPerHour, JSDate.msPerMinute,
    JSDate.msPerSecond.
  intros H. repeat split; Z.to_euclidean_division_equations; lia.
Qed.

(** The ISO text of a midnight in the years 0 to 9999 is its calendar
    date followed by the zero time of day. *)
Lemma toISOString_midnight (t : Z) :
  t mod JSDate.msPerDay = 0 -> 0 <= JSDate.YearFromTime t <= 9999 ->
  JSDate.toISOString t
  = date_text (JSDate.YearFromTime t) (JSDate.MonthFromTime t + 1) (JSDate.DateFromTime t)
    +:+ "T00:00:00.000Z".
Proof.
  intros Ht Hy. unfold JSDate.toISOString.
  destruct (midnight_time_fields t Ht) as (-> & -> & -> & -> & _).
  assert ((0 <=? JSDate.YearFromTime t) && (JSDate.YearFromTime t <=? 9999) = true) as ->.
  { rewrite andb_true_iff, !Z.leb_le. lia. }
  unfold date_text. rewrite !append_assoc. reflexivity.
Qed.

Lemma year_in_range_time (t : Z) :
  1 <= JSDate.YearFromTime t <= 9999 -> Z.abs t <= 8640000000000000.
Proof.
  intros Hy. unfold JSDate.YearFromTime in Hy.
  pose proof (YearFromDay_spec (JSDate.Day t)) as Hd.
  pose proof (DayFromYear_mono 1 (JSDate.YearFromDay (JSDate.Day t)) ltac:(lia)) as H1.
  pose proof (DayFromYear_mono (JSDate.YearFromDay (JSDate.Day t) + 1) 10000 ltac:(lia)) as H2.
  change (JSDate.DayFromYear 1) with (-719162) in H1.
  change (JSDate.DayFromYear 10000) with 2932897 in H2.
  unfold JSDate.Day, JSDate.msPerDay in *. Z.to_euclidean_division_equations; lia.
Qed.

(** ** Export followed by import *)

Lemma dataToExport_exported (h : Host) (l : list LeasingEntry) :
  Forall (fun e => is_Some (LocalDate.of_string h (date e))) l ->
  mapM (fun entry =>
          d ← LocalDate.format_yyyy_MM_dd h (LocalDate.of_string h (date entry));
          Some (with_date entry d)) l
  = Some (exported h <$> l).
Proof.
  induction 1 as [|e l [t He] _ IH]; [reflexivity|].
  cbn [mapM fmap list_fmap]. rewrite IH. unfold exported. rewrite He. reflexivity.
Qed.

Lemma reread_parse (h : Host) (l : list LeasingEntry) :
  Papa.parse (Papa.unparse entry_lookup headers (exported h <$> l)) = reread h <$> l.
Proof.
  rewrite parse_unparse by (cbn; lia). rewrite <- list_fmap_compose.
  apply list_fmap_ext. intros _ e _. reflexivity.
Qed.

Lemma reread_lookups (h : Host) (e : LeasingEntry) :
  reread h e !! "id" = Some (id e)
  /\ reread h e !! "week" = Some (JSNumber.toString (week e))
  /\ reread h e !! "date" = Some (date (exported h e))
  /\ reread h e !! "tenantName" = Some (tenantName e)
  /\ reread h e !! "businessName" = Some (businessName e)
  /\ reread h e !! "businessType" = Some (businessType e)
  /\ reread h e !! "contact" = Some (contact e)
  /\ reread h e !! "notes" = Some (notes e)
  /\ reread h e !! "status" = Some (status e).
Proof. repeat split; reflexivity. Qed.

Lemma or_else_Some (s : string) : JSString.or_else (Some s) EmptyString = s.
Proof. now destruct s. Qed.

(** A canonical date survives the export and the import, where local
    days are UTC days and the parser reads ISO dates. *)
Lemma canonical_date_roundtrip (h : Host) (e : LeasingEntry) :
  iso_conforming h -> ahead_of_UTC h -> canonical_date e ->
  exists t,
    LocalDate.of_string h (date e) = Some t
    /\ date e = JSDate.toISOString t
    /\ date (exported h e) <> EmptyString
    /\ LocalDate.of_string h (date (exported h e)) = Some t.
Proof.
  intros Hiso Hzone (t & Hdate & Hmid & Hyear). exists t.
  pose proof (year_in_range_time t Hyear) as Hrange.
  destruct (calendar_fields t) as (Hm & Hd & Hday).
  destruct (midnight_time_fields t Hmid) as (_ & _ & _ & _ & Ht).
  assert (JSDate.TimeClip t = Some t) as Hclip by (now apply TimeClip_Some).
  assert (JSDate.MakeDate
            (JSDate.MakeDay (JSDate.YearFromTime t) (JSDate.MonthFromTime t + 1 - 1)
               (JSDate.DateFromTime t)) 0 = t) as Hback.
  { replace (JSDate.MonthFromTime t + 1 - 1) with (JSDate.MonthFromTime t) by lia.
    now rewrite Hday, <- Ht. }
  destruct (parse_iso_date_text (JSDate.YearFromTime t) (JSDate.MonthFromTime t + 1)
              (JSDate.DateFromTime t)) as [Hshort Hlong]; try lia.
  { now replace (JSDate.MonthFromTime t + 1 - 1) with (JSDate.MonthFromTime t) by lia. }
  assert (LocalDate.of_string h (date e) = Some t) as Hparse.
  { unfold LocalDate.of_string. rewrite Hdate, (toISOString_midnight t Hmid) by lia.
    rewrite (Hiso _ t); [exact Hclip|]. rewrite Hlong.
    change (JSDate.MakeTime 0 0 0 0) with 0. now rewrite Hback. }
  split; [exact Hparse|]. split; [exact Hdate|].
  assert (JSDate.Day (LocalDate.LocalTime h t) = JSDate.Day t) as Hsame.
  { unfold LocalDate.LocalTime, JSDate.Day. specialize (Hzone t).
    unfold JSDate.msPerDay in *. Z.to_euclidean_division_equations; lia. }
  destruct (calendar_fields_of_day _ _ Hsame) as (Hy' & Hm' & Hd').
  assert (date (exported h e)
          = date_text (JSDate.YearFromTime t) (JSDate.MonthFromTime t + 1)
              (JSDate.DateFromTime t)) as Htext.
  { unfold exported. rewrite Hparse. cbn [LocalDate.format_yyyy_MM_dd mbind option_bind
      default with_date date]. rewrite Hy', Hm', Hd'.
    destruct (Z.ltb_spec 0 (JSDate.YearFromTime t)); [reflexivity | lia]. }
  rewrite Htext. split.
  - unfold date_text. rewrite (pad4_shape (JSDate.YearFromTime t)) by lia. discriminate.
  - unfold LocalDate.of_string. rewrite (Hiso _ t); [exact Hclip|].
    rewrite Hshort, Hback. exact Hclip.
Qed.

Lemma reread_valid (h : Host) (e : LeasingEntry) :
  iso_conforming h -> ahead_of_UTC h -> canonical_date e -> tenantName e <> EmptyString ->
  row_valid h (reread h e) = true.
Proof.
  intros Hiso Hzone Hcan Htn.
  destruct (canonical_date_roundtrip h e Hiso Hzone Hcan) as (t & _ & _ & Hne & Hp).
  destruct (reread_lookups h e) as (_ & Hw & Hd & Ht & _).
  unfold row_valid. rewrite Hw, Hd, Ht.
  change (default EmptyString (Some (date (exported h e)))) with (date (exported h e)).
  cbn [falsy].
  rewrite (proj2 (truthy_nonempty _) Hne), (proj2 (truthy_nonempty _) Htn), Hp.
  rewrite parseInt_toString. cbn [negb andb].
  rewrite !bool_decide_eq_true_2 by eauto. reflexivity.
Qed.

Lemma reread_imported (h : Host) (e e' : LeasingEntry) :
  iso_conforming h -> ahead_of_UTC h -> canonical_date e ->
  imported h (reread h e) e' -> same_but_id e e'.
Proof.
  intros Hiso Hzone Hcan (Hw & (d & t' & Hd & Hp & Hdate) & Htn & Hbn & Hbt & Hc & Hn & Hs).
  destruct (canonical_date_roundtrip h e Hiso Hzone Hcan) as (t & _ & He & _ & Hp').
  destruct (reread_lookups h e) as (_ & Hw' & Hd' & Htn' & Hbn' & Hbt' & Hc' & Hn' & Hs').
  rewrite Hw', parseInt_toString in Hw. rewrite Hd' in Hd. injection Hd as Hd. subst d.
  change (LocalDate.of_string h (date (exported h e)) = Some t') in Hp.
  rewrite Hp' in Hp. injection Hp as Hp. subst t'.
  rewrite Htn' in Htn. rewrite Hbn', or_else_Some in Hbn. rewrite Hbt', or_else_Some in Hbt.
  rewrite Hc', or_else_Some in Hc. rewrite Hn', or_else_Some in Hn.
  rewrite Hs', or_else_Some in Hs.
  unfold same_but_id. repeat split; congruence.
Qed.

Lemma missing_ids_reread (h : Host) (l : list LeasingEntry) :
  missing_ids (reread h <$> l) = empty_ids l.
Proof.
  unfold missing_ids, empty_ids. induction l as [|e l IH]; [reflexivity|].
  cbn [fmap list_fmap List.filter]. rewrite (proj1 (reread_lookups h e)). cbn [falsy].
  destruct (negb (JSString.truthy (id e))); cbn [length]; now rewrite <- IH.
Qed.

(** C5, refuted as stated, in three ways. In a zone behind UTC the date
    of an entry that an import stored comes back one day earlier; in
    any zone a time of day is dropped; and an entry without tenant name
    makes the import of the exported file fail, so that nothing comes
    back. *)
Lemma export_import_loses_data :
  (exists file e',
     LocalDate.of_string hostNewYork (date entryA) = Some 1748736000000
     /\ handleDownload hostNewYork 1748736000000 [entryA] = Some file
     /\ data (handleFileUpload hostNewYork 0 (FileText (blob file)) emptyState) = [e']
     /\ date entryA = "2025-06-01T00:00:00.000Z"
     /\ date e' = "2025-05-31T00:00:00.000Z")
  /\ (exists file e',
        LocalDate.of_string hostUTC "2025-06-01T10:30:00.000Z" = Some 1748773800000
        /\ handleDownload hostUTC 0 [with_date entryA "2025-06-01T10:30:00.000Z"] = Some file
        /\ data (handleFileUpload hostUTC 0 (FileText (blob file)) emptyState) = [e']
        /\ date e' = "2025-06-01T00:00:00.000Z")
  /\ (exists file,
        LocalDate.of_string hostUTC (date nameless) = Some 1748736000000
        /\ handleDownload hostUTC 0 [nameless] = Some file
        /\ data (handleFileUpload hostUTC 0 (FileText (blob file)) emptyState) = []
        /\ variant <$> toasts (handleFileUpload hostUTC 0 (FileText (blob file)) emptyState)
           = [destructive]).
Proof.
  split; [|split].
  - eexists _, _. split; [vm_compute; reflexivity|].
    split; [vm_compute; reflexivity|].
    split; [vm_compute; reflexivity|]. split; reflexivity.
  - eexists _, _. split; [vm_compute; reflexivity|].
    split; [vm_compute; reflexivity|].
    split; [vm_compute; reflexivity|]. reflexivity.
  - eexists. split; [vm_compute; reflexivity|].
    split; [vm_compute; reflexivity|].
    split; vm_compute; reflexivity.
Qed.

(** C5, as the code has it: for entries with a tenant name, a week that
    a number holds exactly and a date in the form an import stores (the
    ISO text of a UTC midnight), with a date parser that reads ISO dates
    and in a zone at or ahead of UTC, the import of the exported CSV
    gives back the entries in order, equal on every field but [id]; an
    [id] that is not empty is kept, an empty one is replaced by the next
    identifier of the generator. *)
Theorem export_import_roundtrip (h : Host) (now : Z) (n : nat) (st : HomeState)
    (l : list LeasingEntry) :
  iso_conforming h -> ahead_of_UTC h -> Z.abs now <= max_time ->
  Forall (fun e => canonical_date e /\ tenantName e <> EmptyString
                   /\ safe_integer (week e)) l ->
  exists file,
    handleDownload h now l = Some file
    /\ Forall2 (fun e e' => same_but_id e e' /\ safe_integer (week e'))
         l (data (handleFileUpload h n (FileText (blob file)) st))
    /\ forall (j : nat) e e',
         l !! j = Some e ->
         data (handleFileUpload h n (FileText (blob file)) st) !! j = Some e' ->
         id e' = if JSString.truthy (id e) then id e
                 else uuidv4 h (n + empty_ids (take j l)).
Proof.
  intros Hiso Hzone Hnow Hl.
  assert (Forall (fun e => is_Some (LocalDate.of_string h (date e))) l) as Hdates.
  { eapply Forall_impl; [exact Hl|]. intros e (Hcan & _ & _).
    destruct (canonical_date_roundtrip h e Hiso Hzone Hcan) as (t & Ht & _). now exists t. }
  eexists. split.
  { unfold handleDownload. rewrite (dataToExport_exported h l Hdates).
    cbn [mbind option_bind].
    assert (JSDate.of_number (Some now) = Some now) as ->
      by (cbn; now apply TimeClip_Some).
    rewrite format_valid. reflexivity. }
  cbn [blob handleFileUpload]. rewrite reread_parse. unfold complete.
  destruct (uploadRows_valid h (reread h <$> l) n) as (entries & -> & H2 & Hids).
  { intros row Hin. apply list_elem_of_In, list_elem_of_fmap in Hin as (e & -> & He).
    rewrite Forall_forall in Hl. destruct (Hl e He) as (Hcan & Htn & _).
    now apply reread_valid. }
  cbn [data toast set_data]. split.
  - apply (proj1 (Forall2_fmap_l (reread h) (imported h) l entries)) in H2.
    apply Forall2_same_length_lookup.
    split; [exact (Forall2_length _ _ _ H2)|]. intros j e e' He He'.
    rewrite Forall_lookup in Hl. destruct (Hl j e He) as (Hcan & _ & Hweek).
    assert (same_but_id e e') as Hsame.
    { apply (reread_imported h e e' Hiso Hzone); [exact Hcan|].
      exact (Forall2_lookup_lr _ _ _ j e e' H2 He He'). }
    split; [exact Hsame|]. destruct Hsame as [-> _]. exact Hweek.
  - intros j e e' He He'.
    specialize (Hids j (reread h e) e'). rewrite list_lookup_fmap, He in Hids.
    specialize (Hids eq_refl He').
    rewrite (proj1 (reread_lookups h e)) in Hids. cbn [falsy] in Hids.
    destruct (JSString.truthy (id e)); cbn [negb] in Hids.
    + now injection Hids.
    + now rewrite <- fmap_take, missing_ids_reread in Hids.
Qed.

Lemma export_import_roundtrip_witness :
  exists file,
    handleDownload hostJakarta 1748736000000 [entryA] = Some file
    /\ Forall2 (fun e e' => same_but_id e e' /\ safe_integer (week e')) [entryA]
         (data (handleFileUpload hostJakarta 0 (FileText (blob file)) emptyState)).
Proof.
  destruct (export_import_roundtrip hostJakarta 1748736000000 0 emptyState [entryA])
    as (file & Hfile & Hsame & _).
  - intros s t H. exact H.
  - intros t. change (0 <= 25200000 < 86400000). lia.
  - vm_compute. discriminate.
  - constructor; [|constructor]. split; [|split; [discriminate | now cbv]].
    exists 1748736000000. split; [vm_compute; reflexivity|].
    split; [reflexivity|]. vm_compute. split; discriminate.
  - exists file. now split.
Defined.

(** ** Witnesses and the examples of the specification *)

(** Outside the years 0 to 99, which [Date.UTC] reads as 1900 to 1999,
    the day a picker date is normalised to is its local calendar day,
    whatever the zone. *)
Lemma picker_day_local (h : Host) (t : Z) :
  ~ 0 <= JSDate.YearFromTime (LocalDate.LocalTime h t) <= 99 ->
  Z.abs (JSDate.Day (LocalDate.LocalTime h t) * JSDate.msPerDay) <= max_time ->
  picker_day h (Some t) = Some (JSDate.Day (LocalDate.LocalTime h t)).
Proof.
  intros Hy Hrange. unfold picker_day. cbn.
  set (lt := LocalDate.LocalTime h t) in *.
  destruct (calendar_fields lt) as (_ & _ & Hday).
  assert ((0 <=? JSDate.YearFromTime lt) && (JSDate.YearFromTime lt <=? 99) = false) as ->.
  { apply andb_false_iff. rewrite !Z.leb_gt. lia. }
  rewrite Hday.
  assert (JSDate.TimeClip (JSDate.MakeDate (JSDate.Day lt) (JSDate.MakeTime 0 0 0 0))
          = Some (JSDate.MakeDate (JSDate.Day lt) (JSDate.MakeTime 0 0 0 0))) as ->.
  { apply TimeClip_Some. split; [reflexivity|].
    unfold JSDate.MakeDate, JSDate.MakeTime. unfold max_time in Hrange. lia. }
  cbn [fmap option_fmap option_map]. now rewrite Day_midnight.
Qed.

(** The example of the specification: with the range 1 to 30 June 2025,
    the entries of 1 June and 30 June pass and the entry of 31 May does
    not, east and west of Greenwich alike. *)
Example dateRange_june_2025 :
  date <$> filteredByDate hostJakarta (Some (june2025 hostJakarta))
             [entryOn "2025-05-31"; entryOn "2025-06-01"; entryOn "2025-06-30"]
  = ["2025-06-01"; "2025-06-30"]
  /\ date <$> filteredByDate hostNewYork (Some (june2025 hostNewYork))
               [entryOn "2025-05-31"; entryOn "2025-06-01"; entryOn "2025-06-30"]
     = ["2025-06-01"; "2025-06-30"].
Proof. split; vm_compute; reflexivity. Qed.

Lemma dateRangeFilter_contract_witness :
  filteredByDate hostJakarta None [entryA] = [entryA]
  /\ In entryA (filteredByDate hostJakarta (Some (june2025 hostJakarta)) [entryA]).
Proof.
  split.
  - apply (proj1 (dateRangeFilter_contract hostJakarta None [entryA])). reflexivity.
  - apply (proj2 (proj2 (dateRangeFilter_contract hostJakarta (Some (june2025 hostJakarta))
                           [entryA])
                    (Some (1748736000000 - 25200000)) entryA eq_refl)).
    split; [now left|].
    exists 20240, 20240, 20269.
    split; [vm_compute; reflexivity|]. split; [vm_compute; reflexivity|].
    split; [vm_compute; reflexivity|]. lia.
Defined.

Lemma handleSort_transitions_witness :
  handleSort (Some (mkSort Kweek ascending)) Kdate = Some (mkSort Kdate ascending).
Proof.
  apply (proj1 (proj2 (proj2 (proj2
           (handleSort_transitions (Some (mkSort Kweek ascending)) Kdate))))
           (mkSort Kweek ascending) eq_refl).
  discriminate.
Defined.

Lemma handleSave_frame_witness :
  data (handleSave {| data := [week_of 1 "a"; week_of 2 "b"]; entryToEdit := Some (week_of 2 "b");
                      isAddEditDialogOpen := true; toasts := [] |} (week_of 9 "b"))
  = <[1%nat := week_of 9 "b"]> [week_of 1 "a"; week_of 2 "b"]
  /\ data (handleSave {| data := [week_of 1 "a"]; entryToEdit := None;
                         isAddEditDialogOpen := true; toasts := [] |} (week_of 9 "b"))
     = [week_of 9 "b"; week_of 1 "a"].
Proof.
  split.
  - apply (proj2 (proj2 (proj1
             (handleSave_frame
                {| data := [week_of 1 "a"; week_of 2 "b"]; entryToEdit := Some (week_of 2 "b");
                   isAddEditDialogOpen := true; toasts := [] |} (week_of 9 "b"))
             (ex_intro _ (week_of 2 "b") eq_refl))) 1%nat (week_of 2 "b")).
    + apply NoDup_cons. split; [|apply NoDup_singleton].
      intros Hin. apply list_elem_of_singleton in Hin. discriminate Hin.
    + reflexivity.
    + reflexivity.
  - apply (proj2 (handleSave_frame {| data := [week_of 1 "a"]; entryToEdit := None;
                         isAddEditDialogOpen := true; toasts := [] |} (week_of 9 "b"))).
    reflexivity.
Defined.

(** The example of the specification: sorting by date, ascending. *)
Example sort_by_date_ascending :
  date <$> sortedList hostUTC (Some (mkSort Kdate ascending))
             [entryOn "2025-06-15"; entryOn "2025-06-01"; entryOn "2025-06-30"]
  = ["2025-06-01"; "2025-06-15"; "2025-06-30"].
Proof. vm_compute. reflexivity. Qed.

(** Entries of one week keep their order, in either direction. *)
Example sort_is_stable :
  id <$> sortedList hostUTC (Some (mkSort Kweek ascending))
           [week_of 2 "a"; week_of 1 "b"; week_of 2 "c"; week_of 1 "d"]
  = ["b"; "d"; "a"; "c"]
  /\ id <$> sortedList hostUTC (Some (mkSort Kweek descending))
             [week_of 2 "a"; week_of 1 "b"; week_of 2 "c"; week_of 1 "d"]
     = ["a"; "c"; "b"; "d"].
Proof. split; vm_compute; reflexivity. Qed.

Lemma sortEngine_contract_witness :
  exists r σ',
    sortedData hostUTC 1%positive (Some (mkSort Kweek ascending))
      {[ 1%positive := [week_of 2 "a"; week_of 1 "b"] ]} = Some (r, σ')
    /\ σ' !! r = Some [week_of 1 "b"; week_of 2 "a"].
Proof.
  destruct (sortEngine_contract hostUTC {[ 1%positive := [week_of 2 "a"; week_of 1 "b"] ]}
              1%positive (Some (mkSort Kweek ascending)) [week_of 2 "a"; week_of 1 "b"])
    as (r & σ' & Hrun & Hres & _).
  - apply lookup_singleton_eq.
  - exists r, σ'. split; [exact Hrun|]. rewrite Hres. reflexivity.
Defined.

Lemma sortedData_input_unchanged_witness :
  exists r σ',
    sortedData hostUTC 1%positive (Some (mkSort Kweek ascending))
      {[ 1%positive := [week_of 2 "a"; week_of 1 "b"] ]} = Some (r, σ')
    /\ σ' !! 1%positive = Some [week_of 2 "a"; week_of 1 "b"].
Proof.
  destruct (sortedData_input_unchanged hostUTC
              {[ 1%positive := [week_of 2 "a"; week_of 1 "b"] ]}
              1%positive (Some (mkSort Kweek ascending)) [week_of 2 "a"; week_of 1 "b"])
    as (r & σ' & Hrun & _ & Hin & _).
  - apply lookup_singleton_eq.
  - exists r, σ'. now split.
Defined.

Lemma upload_all_or_nothing_witness :
  data (complete hostUTC 0 [rowGood; rowNoTenant] (mkHome [entryA] None false [])) = [entryA]
  /\ (id <$> data (complete hostUTC 5 [rowGood] (mkHome [entryA] None false [])))
     = ["uuid-5"].
Proof.
  split.
  - apply (proj1 (proj1 (proj2 (proj2
             (upload_all_or_nothing hostUTC 0 [rowGood; rowNoTenant]
                (mkHome [entryA] None false []))))
             [rowGood] rowNoTenant [] eq_refl
             ltac:(intros row [<-|[]]; vm_compute; reflexivity)
             ltac:(vm_compute; reflexivity))).
  - pose proof (proj2 (proj1 (proj2 (proj2 (proj2
             (upload_all_or_nothing hostUTC 5 [rowGood] (mkHome [entryA] None false [])))))
             ltac:(intros row [<-|[]]; vm_compute; reflexivity))) as Hids.
    destruct (data (complete hostUTC 5 [rowGood] (mkHome [entryA] None false [])))
      as [|e [|e' es]] eqn:Hdata; try (vm_compute in Hdata; discriminate Hdata).
    specialize (Hids 0%nat rowGood e eq_refl eq_refl).
    cbn [fmap list_fmap]. f_equal. exact Hids.
Defined.

(** * Further properties of the page *)

(** ** Deleting, adding and editing entries *)

Lemma filter_keeps_all {A : Type} (f : A -> bool) (l : list A) :
  (forall x, In x l -> f x = true) -> List.filter f l = l.
Proof.
  induction l as [|x l IH]; intros H; [reflexivity|]. cbn [List.filter].
  rewrite (H x (or_introl eq_refl)), IH; [reflexivity|].
  intros y Hy. apply H. now right.
Qed.

Lemma filter_sublist {A : Type} (f : A -> bool) (l : list A) :
  sublist (List.filter f l) l.
Proof.
  induction l as [|x l IH]; [constructor|]. cbn [List.filter].
  destruct (f x); [now apply sublist_skip | now apply sublist_cons].
Qed.

Lemma filter_other_ids (d : string) (l : list LeasingEntry) :
  ~ In d (ids l) ->
  List.filter (fun item => negb (bool_decide (id item = d))) l = l.
Proof.
  intros Hd. apply filter_keeps_all. intros x Hx.
  rewrite bool_decide_eq_false_2; [reflexivity|].
  intros <-. apply Hd. unfold ids. apply list_elem_of_In, list_elem_of_fmap.
  exists x. split; [reflexivity | now apply list_elem_of_In].
Qed.

Lemma filter_unique_id (d : string) (l : list LeasingEntry) (i : nat) (x : LeasingEntry) :
  NoDup (ids l) -> l !! i = Some x -> id x = d ->
  List.filter (fun item => negb (bool_decide (id item = d))) l = delete i l.
Proof.
  revert i. induction l as [|y l IH]; intros i Hnd Hi Hx; [discriminate|].
  unfold ids in Hnd. rewrite fmap_cons in Hnd. apply NoDup_cons in Hnd as [Hy Hnd].
  destruct i as [|i]; cbn in Hi.
  - injection Hi as ->. cbn [List.filter]. rewrite bool_decide_eq_true_2 by exact Hx.
    cbn [negb]. subst d. apply filter_other_ids.
    intros Hin. apply Hy. now apply list_elem_of_In.
  - cbn [List.filter]. rewrite bool_decide_eq_false_2.
    + cbn [negb]. change (delete (S i) (y :: l)) with (y :: delete i l).
      f_equal. now apply (IH i).
    + intros Heq. apply Hy. rewrite Heq, <- Hx.
      apply list_elem_of_fmap. exists x. split; [reflexivity|].
      now apply list_elem_of_lookup_2 in Hi.
Qed.

(** X1: a confirmed deletion removes the entries that carry the id of
    the entry asked for and keeps the others in their order; with unique
    ids that is the one entry at its position. The request is cleared
    and nothing else of the page changes; without a request nothing
    happens at all. *)
Theorem confirmDelete_removes_by_id (p : PageState) :
  (entryToDelete p = None -> confirmDelete p = p)
  /\ (forall del, entryToDelete p = Some del ->
        let p' := confirmDelete p in
        (forall e, In e (data (home p')) <-> In e (data (home p)) /\ id e <> id del)
        /\ sublist (data (home p')) (data (home p))
        /\ (forall (i : nat) x, NoDup (ids (data (home p))) ->
              data (home p) !! i = Some x -> id x = id del ->
              data (home p') = delete i (data (home p)))
        /\ (~ In (id del) (ids (data (home p))) -> data (home p') = data (home p))
        /\ entryToDelete p' = None
        /\ filters p' = filters p /\ sortConfig p' = sortConfig p
        /\ dateRange p' = dateRange p /\ toasts (home p') = toasts (home p)
        /\ entryToEdit (home p') = entryToEdit (home p)).
Proof.
  split; [intros Hnone; unfold confirmDelete; now rewrite Hnone|].
  intros del Hdel. cbv zeta. unfold confirmDelete. rewrite Hdel.
  cbn [home with_home with_entryToDelete set_data data entryToDelete filters sortConfig
       dateRange toasts entryToEdit].
  split.
  { intros e. rewrite filter_In, negb_true_iff, bool_decide_eq_false. reflexivity. }
  split; [apply filter_sublist|].
  split; [intros i x Hnd Hi Hx; now apply (filter_unique_id (id del) _ i x)|].
  split; [apply filter_other_ids|].
  repeat split.
Qed.

Lemma confirmDelete_removes_by_id_witness :
  data (home (confirmDelete (handleDelete (week_of 2 "b") (pageWith abc))))
  = [week_of 1 "a"; week_of 3 "c"].
Proof.
  refine (proj1 (proj2 (proj2 (proj2 (confirmDelete_removes_by_id
                                        (handleDelete (week_of 2 "b") (pageWith abc)))
                                 (week_of 2 "b") eq_refl)))
            1%nat (week_of 2 "b") _ eq_refl eq_refl).
  apply (bool_decide_unpack (NoDup (ids (data (home (handleDelete (week_of 2 "b")
                                                          (pageWith abc))))))).
  vm_compute. exact I.
Defined.

(** X2: adding an entry whose id the store does not hold and deleting
    it again gives back the store as it was. *)
Theorem add_then_delete_restores (h : Host) (p : PageState) (entry : LeasingEntry) :
  ~ In (id entry) (ids (data (home p))) ->
  data (home (run h p [ActAddNew; ActSave entry; ActDelete entry; ActConfirmDelete]))
  = data (home p).
Proof.
  intros Hfresh. cbn. rewrite bool_decide_eq_true_2 by reflexivity. cbn [negb].
  now apply filter_other_ids.
Qed.

Lemma add_then_delete_restores_witness :
  data (home (run hostUTC (pageWith abc)
                [ActAddNew; ActSave (week_of 4 "d"); ActDelete (week_of 4 "d");
                 ActConfirmDelete])) = abc.
Proof.
  apply (add_then_delete_restores hostUTC (pageWith abc) (week_of 4 "d")).
  cbn. intuition discriminate.
Defined.

Lemma handleSave_edit_ids (st : HomeState) (entry e0 : LeasingEntry) :
  entryToEdit st = Some e0 ->
  ids (data (handleSave st entry)) = ids (data st).
Proof.
  intros He0. unfold handleSave. rewrite He0. cbn [data].
  unfold ids. induction (data st) as [|x l IH]; [reflexivity|].
  cbn [List.map fmap list_fmap]. cbn [fmap] in IH. rewrite IH. f_equal.
  destruct (decide (id x = id entry)) as [Heq|Hne].
  - now rewrite bool_decide_eq_true_2.
  - now rewrite bool_decide_eq_false_2.
Qed.

(** X3: a save while an entry is being edited never changes which ids
    the store holds nor their order, so it keeps unique ids unique; and
    saving an entry of the store unchanged leaves the store as it is. *)
Theorem edit_save_keeps_ids (st : HomeState) (entry : LeasingEntry) :
  is_Some (entryToEdit st) ->
  ids (data (handleSave st entry)) = ids (data st)
  /\ (NoDup (ids (data st)) -> In entry (data st) ->
      data (handleSave st entry) = data st).
Proof.
  intros [e0 He0]. split; [exact (handleSave_edit_ids st entry e0 He0)|].
  unfold handleSave. rewrite He0. cbn [data].
  intros Hnd Hin. induction (data st) as [|x l IH]; [reflexivity|].
  unfold ids in Hnd. rewrite fmap_cons in Hnd. apply NoDup_cons in Hnd as [Hx Hnd].
  cbn [List.map]. destruct Hin as [->|Hin].
  - rewrite bool_decide_eq_true_2 by reflexivity. f_equal.
    clear IH. induction l as [|y l IH]; [reflexivity|]. cbn [List.map].
    rewrite bool_decide_eq_false_2.
    + f_equal. apply IH.
      * intros Hin. apply Hx. rewrite fmap_cons. now right.
      * rewrite fmap_cons in Hnd. now apply NoDup_cons in Hnd as [_ Hnd].
    + intros Heq. apply Hx. rewrite fmap_cons, Heq. now left.
  - rewrite bool_decide_eq_false_2.
    + f_equal. now apply IH.
    + intros Heq. apply Hx. rewrite Heq. apply list_elem_of_fmap.
      exists entry. split; [reflexivity | now apply list_elem_of_In].
Qed.

Lemma edit_save_keeps_ids_witness :
  ids (data (handleSave (handleEdit (week_of 2 "b") (home (pageWith abc))) (week_of 9 "b")))
  = ["a"; "b"; "c"].
Proof.
  rewrite (proj1 (edit_save_keeps_ids
                    (handleEdit (week_of 2 "b") (home (pageWith abc))) (week_of 9 "b")
                    (ex_intro _ (week_of 2 "b") eq_refl))).
  reflexivity.
Defined.

(** ** What the handlers keep *)

Lemma run_snoc (h : Host) (p : PageState) (actions : list Action) (a : Action) :
  run h p (actions ++ [a]) = dispatch h (run h p actions) a.
Proof. unfold run. now rewrite foldl_app. Qed.

Lemma handleFileUpload_dialog (h : Host) (n : nat) (file : FileInput) (st : HomeState) :
  entryToEdit (handleFileUpload h n file st) = entryToEdit st
  /\ isAddEditDialogOpen (handleFileUpload h n file st) = isAddEditDialogOpen st.
Proof.
  destruct file as [| |text]; cbn; try (split; reflexivity).
  unfold complete. now destruct (uploadRows h (Papa.parse text) n).
Qed.

Lemma closed_dialog_invariant (h : Host) (r : option DateRange) (actions : list Action) :
  isAddEditDialogOpen (home (run h (initialPage r) actions)) = false ->
  entryToEdit (home (run h (initialPage r) actions)) = None.
Proof.
  induction actions as [|a actions IH] using rev_ind; [reflexivity|].
  rewrite run_snoc. set (p := run h (initialPage r) actions) in *.
  destruct a; cbn; try exact IH; try reflexivity; try discriminate.
  - destruct isOpen; cbn; [discriminate | reflexivity].
  - unfold confirmDelete. destruct (entryToDelete p); cbn; exact IH.
  - unfold deleteDialogOpenChange. destruct (negb isOpen); cbn; exact IH.
  - destruct (handleFileUpload_dialog h n file (home p)) as [-> ->]. exact IH.
Qed.

(** X4: whatever the user did since the page was opened, a closed
    add/edit dialog holds no entry to edit; so a dialog opened from the
    closed state without choosing an entry saves what it is given as a
    new entry, in front of the store. *)
Theorem closed_dialog_holds_no_entry (h : Host) (r : option DateRange)
    (actions : list Action) :
  let p := run h (initialPage r) actions in
  isAddEditDialogOpen (home p) = false ->
  entryToEdit (home p) = None
  /\ (forall entry,
        data (home (run h p [ActDialogOpenChange true; ActSave entry]))
        = entry :: data (home p)).
Proof.
  cbv zeta. intros Hclosed.
  pose proof (closed_dialog_invariant h r actions Hclosed) as Hnone.
  split; [exact Hnone|]. intros entry. cbn. unfold handleSave. cbn.
  now rewrite Hnone.
Qed.

Lemma closed_dialog_holds_no_entry_witness :
  entryToEdit (home (run hostUTC (initialPage None)
                       [ActEdit (week_of 1 "a"); ActDialogOpenChange false])) = None.
Proof.
  exact (proj1 (closed_dialog_holds_no_entry hostUTC None
                  [ActEdit (week_of 1 "a"); ActDialogOpenChange false] eq_refl)).
Defined.

Lemma keeps_ids_apart_step (h : Host) (p : PageState) (a : Action) :
  keeps_ids_apart p a -> NoDup (ids (data (home p))) ->
  NoDup (ids (data (home (dispatch h p a)))).
Proof.
  intros Hsafe Hnd. destruct a; try exact Hnd; try contradiction.
  - cbn [dispatch with_home home]. cbn [keeps_ids_apart] in Hsafe.
    destruct (entryToEdit (home p)) as [e0|] eqn:He0.
    + now rewrite (handleSave_edit_ids (home p) entry e0 He0).
    + unfold handleSave. rewrite He0. cbn [data]. unfold ids. rewrite fmap_cons.
      apply NoDup_cons. split; [|exact Hnd].
      intros Hin. apply (Hsafe eq_refl). now apply list_elem_of_In.
  - cbn [dispatch]. unfold confirmDelete. destruct (entryToDelete p) as [del|]; [|exact Hnd].
    cbn [home with_home with_entryToDelete set_data data].
    eapply sublist_NoDup; [exact Hnd|]. unfold ids. apply fmap_sublist, filter_sublist.
  - cbn [dispatch]. unfold deleteDialogOpenChange. destruct (negb isOpen); exact Hnd.
Qed.

(** X5: the handlers keep the ids of the store unique: editing and
    deleting never introduce a second entry with one id, and adding does
    not as long as each new entry brings an id that the store does not
    hold (loads and uploads, which bring their own ids, apart). *)
Theorem ids_stay_unique (h : Host) (p : PageState) (actions : list Action) :
  NoDup (ids (data (home p))) ->
  all_keep_ids_apart h p actions ->
  NoDup (ids (data (home (run h p actions)))).
Proof.
  revert p. induction actions as [|a actions IH]; intros p Hnd Hsafe; [exact Hnd|].
  destruct Hsafe as [Ha Hrest]. cbn [run foldl]. apply IH; [|exact Hrest].
  now apply keeps_ids_apart_step.
Qed.

Lemma ids_stay_unique_witness :
  NoDup (ids (data (home (run hostUTC (pageWith abc)
                            [ActAddNew; ActSave (week_of 4 "d"); ActEdit (week_of 1 "a");
                             ActSave (week_of 7 "a"); ActDelete (week_of 2 "b");
                             ActConfirmDelete])))).
Proof.
  apply ids_stay_unique.
  - apply (bool_decide_unpack (NoDup (ids (data (home (pageWith abc)))))).
    vm_compute. exact I.
  - cbn. repeat split; try exact I; try discriminate. intuition discriminate.
Defined.

(** An upload can bring one id twice: the import does not compare ids. *)
Example upload_can_duplicate_ids :
  ids (data (complete hostUTC 0
               [<["id" := "r"]> rowGood; <["id" := "r"]> rowGood] emptyState))
  = ["r"; "r"].
Proof. vm_compute. reflexivity. Qed.

(** ** The filter popover *)

Lemma quiet_step (h : Host) (p : PageState) (a : Action) :
  quiet a = true ->
  data (home (dispatch h p a)) = data (home p)
  /\ filters (dispatch h p a) = filters p
  /\ sortConfig (dispatch h p a) = sortConfig p
  /\ dateRange (dispatch h p a) = dateRange p.
Proof.
  destruct a; try discriminate; intros _; cbn; try (repeat split; reflexivity).
  unfold deleteDialogOpenChange. destruct (negb isOpen); repeat split; reflexivity.
Qed.

(** X6: opening and closing the dialogs, asking for a deletion or
    calling it off, and editing the draft of the filters change neither
    the store nor the rows that the table shows. *)
Theorem quiet_actions_show_same_rows (h : Host) (p : PageState) (actions : list Action) :
  forallb quiet actions = true ->
  data (home (run h p actions)) = data (home p)
  /\ filters (run h p actions) = filters p
  /\ displayed h (run h p actions) = displayed h p.
Proof.
  revert p. induction actions as [|a actions IH]; intros p Hq; [repeat split; reflexivity|].
  cbn [forallb] in Hq. apply andb_true_iff in Hq as [Ha Hq].
  cbn [run foldl]. destruct (IH (dispatch h p a) Hq) as (Hd & Hf & Hs).
  destruct (quiet_step h p a Ha) as (Hd' & Hf' & Hs' & Hr').
  unfold run in *. rewrite Hd, Hf, Hs. repeat split; try assumption.
  unfold displayed. now rewrite Hd', Hf', Hs', Hr'.
Qed.

Lemma quiet_actions_show_same_rows_witness :
  displayed hostUTC
    (run hostUTC (pageWith abc)
       [ActFilterPopoverOpenChange true; ActTempFilterChange "tenantName" "zzz";
        ActFilterPopoverOpenChange false; ActDelete (week_of 1 "a");
        ActDeleteDialogOpenChange false])
  = displayed hostUTC (pageWith abc).
Proof.
  exact (proj2 (proj2 (quiet_actions_show_same_rows hostUTC (pageWith abc)
    [ActFilterPopoverOpenChange true; ActTempFilterChange "tenantName" "zzz";
     ActFilterPopoverOpenChange false; ActDelete (week_of 1 "a");
     ActDeleteDialogOpenChange false] eq_refl))).
Defined.

Lemma typing_run (h : Host) (p : PageState) (edits : list (string * string)) :
  run h p (typing edits)
  = with_filters p (filters p)
      (foldl (fun m kv => <[kv.1 := kv.2]> m) (tempFilters p) edits)
      (isFilterPopoverOpen p).
Proof.
  revert p. induction edits as [|[k v] edits IH]; intros p.
  - now destruct p.
  - cbn [typing fmap list_fmap run foldl]. fold (typing edits).
    change (foldl (dispatch h) ?q (typing edits)) with (run h q (typing edits)).
    now rewrite IH.
Qed.

(** X7: the values typed into the popover take effect together when
    they are applied: the filters become the filters in force when the
    popover was opened, overwritten by the typed values in the order
    they were typed, and the popover closes. Closing the popover instead
    and opening it again throws the typed values away. *)
Theorem filter_draft_commit_or_discard (h : Host) (p : PageState)
    (edits : list (string * string)) :
  let opened := run h p (ActFilterPopoverOpenChange true :: typing edits) in
  filters (run h opened [ActApplyFilters])
  = foldl (fun m kv => <[kv.1 := kv.2]> m) (filters p) edits
  /\ isFilterPopoverOpen (run h opened [ActApplyFilters]) = false
  /\ filters (run h opened [ActFilterPopoverOpenChange false;
                            ActFilterPopoverOpenChange true]) = filters p
  /\ tempFilters (run h opened [ActFilterPopoverOpenChange false;
                                ActFilterPopoverOpenChange true]) = filters p
  /\ filters (run h opened [ActResetFilters]) = ∅.
Proof.
  cbv zeta. cbn [run foldl].
  change (foldl (dispatch h) ?q (typing edits)) with (run h q (typing edits)).
  rewrite typing_run. repeat split; reflexivity.
Qed.

Lemma toLowerCase_empty (s : string) :
  JSString.toLowerCase s = EmptyString <-> s = EmptyString.
Proof. destruct s; cbn; split; congruence. Qed.

Lemma filter_sublist_impl {A} (f g : A -> bool) (l : list A) :
  (forall x, g x = true -> f x = true) ->
  sublist (List.filter g l) (List.filter f l).
Proof.
  intros Himp. induction l as [|x l IH]; cbn; [constructor|].
  destruct (g x) eqn:Hg.
  - rewrite (Himp x Hg). now constructor.
  - destruct (f x); [now constructor | exact IH].
Qed.

Lemma finalFiltered_ext (f g : gmap string string) (l : list LeasingEntry) :
  (forall e, matchesFilters f e = matchesFilters g e) ->
  finalFiltered f l = finalFiltered g l.
Proof.
  intros H. unfold finalFiltered. induction l as [|x l IH]; cbn; [reflexivity|].
  now rewrite H, IH.
Qed.

(** X8: a filter input that has been cleared filters exactly as if the
    field had never been filled in. *)
Theorem cleared_filter_is_no_filter (f : gmap string string) (k : string)
    (l : list LeasingEntry) :
  finalFiltered (<[k := EmptyString]> f) l = finalFiltered (delete k f) l.
Proof.
  apply finalFiltered_ext. intros e. apply eq_true_iff_eq.
  rewrite !matchesFilters_spec. split; intros H k' value Hk Hne.
  - apply lookup_delete_Some in Hk as [Hkk Hk]. apply H; [|exact Hne].
    now rewrite lookup_insert_ne.
  - apply lookup_insert_Some in Hk as [[_ <-]|[Hkk Hk]]; [congruence|].
    apply H; [|exact Hne]. now rewrite lookup_delete_ne.
Qed.

(** X9: filters on different fields work as a conjunction: filtering by
    both at once gives what filtering by one and then by the other
    gives; and a mapping that extends another never lets more rows
    through. *)
Theorem filters_compose (f1 f2 : gmap string string) (l : list LeasingEntry) :
  (f1 ##ₘ f2 -> finalFiltered (f1 ∪ f2) l = finalFiltered f1 (finalFiltered f2 l))
  /\ (f1 ⊆ f2 -> sublist (finalFiltered f2 l) (finalFiltered f1 l)).
Proof.
  split.
  - intros Hdisj. unfold finalFiltered.
    assert (forall e, matchesFilters (f1 ∪ f2) e
                      = matchesFilters f2 e && matchesFilters f1 e) as Hand.
    { intros e. apply eq_true_iff_eq.
      rewrite andb_true_iff, !matchesFilters_spec. split.
      - intros H. split; intros k value Hk Hne; apply H; try exact Hne.
        + apply lookup_union_Some; [exact Hdisj | now right].
        + apply lookup_union_Some; [exact Hdisj | now left].
      - intros [H2 H1] k value Hk Hne.
        apply lookup_union_Some in Hk as [Hk|Hk]; [| |exact Hdisj]; auto. }
    induction l as [|x l IH]; cbn; [reflexivity|].
    rewrite Hand. destruct (matchesFilters f2 x); cbn.
    + destruct (matchesFilters f1 x); now rewrite IH.
    + exact IH.
  - intros Hsub. apply filter_sublist_impl. intros e.
    rewrite !matchesFilters_spec. intros H k value Hk Hne.
    apply H; [|exact Hne]. eapply lookup_weaken; eassumption.
Qed.

Lemma filters_compose_witness :
  finalFiltered ({["tenantName" := "t"]} ∪ {["week" := "1"]}) abc
  = finalFiltered {["tenantName" := "t"]} (finalFiltered {["week" := "1"]} abc).
Proof.
  apply (proj1 (filters_compose {["tenantName" := "t"]} {["week" := "1"]} abc)).
  apply map_disjoint_singleton_l. reflexivity.
Defined.

Lemma case_blind_one_way (f : gmap string string) (k v v' : string) (e : LeasingEntry) :
  k <> "week" -> k <> "date" ->
  JSString.toLowerCase v = JSString.toLowerCase v' ->
  matchesFilters (<[k := v]> f) e = true -> matchesFilters (<[k := v']> f) e = true.
Proof.
  intros Hw Hd Hlow. rewrite !matchesFilters_spec. intros H k' value Hk Hne.
  apply lookup_insert_Some in Hk as [[<- <-]|[Hkk Hk]].
  - assert (v <> EmptyString) as Hv.
    { intros ->. apply Hne. apply toLowerCase_empty. now rewrite <- Hlow. }
    specialize (H k v (lookup_insert_eq f k v) Hv). unfold field_predicate in *.
    rewrite !decide_False in * by assumption. now rewrite <- Hlow.
  - apply H; [|exact Hne]. now rewrite lookup_insert_ne.
Qed.

(** X10: the filters on the text fields do not see the case of what
    was typed: two values that agree up to case select the same rows.
    (The week and date filters compare the text as it is.) *)
Theorem text_filter_ignores_case (f : gmap string string) (k v v' : string)
    (l : list LeasingEntry) :
  k <> "week" -> k <> "date" ->
  JSString.toLowerCase v = JSString.toLowerCase v' ->
  finalFiltered (<[k := v]> f) l = finalFiltered (<[k := v']> f) l.
Proof.
  intros Hw Hd Hlow. apply finalFiltered_ext. intros e. apply eq_true_iff_eq.
  split; apply case_blind_one_way; auto.
Qed.

Lemma text_filter_ignores_case_witness :
  finalFiltered {["tenantName" := "T"]} abc = finalFiltered {["tenantName" := "t"]} abc.
Proof.
  apply (text_filter_ignores_case ∅ "tenantName" "T" "t" abc);
    [discriminate | discriminate | reflexivity].
Defined.

(** The date filter does see the case: the stored date has a capital T. *)
Example date_filter_sees_case :
  finalFiltered {["date" := "T"]} [entryA] = [entryA]
  /\ finalFiltered {["date" := "t"]} [entryA] = [].
Proof. split; vm_compute; reflexivity. Qed.

(** ** The rows that the table shows *)

Section SortCommute.
Context {A : Type} (cmp : A -> A -> Z) (P : A -> Prop) (q : A -> bool).

Hypothesis cmp_total : forall x y, 0 < cmp x y -> cmp y x <= 0.
Hypothesis cmp_trans :
  forall x y z, P y -> cmp x y <= 0 -> cmp y z <= 0 -> cmp x z <= 0.

Lemma insert_in_front (x : A) (l : list A) :
  Forall (fun z => cmp x z <= 0) l -> JSArray.insert cmp x l = x :: l.
Proof.
  intros Hl. destruct l as [|z l]; [reflexivity|]. cbn [JSArray.insert].
  apply Forall_cons in Hl as [Hz _].
  destruct (Z.ltb_spec 0 (cmp x z)); [lia | reflexivity].
Qed.

Lemma filter_Forall (Q : A -> Prop) (l : list A) :
  Forall Q l -> Forall Q (List.filter q l).
Proof.
  induction 1 as [|x l Hx _ IH]; cbn; [constructor|].
  destruct (q x); [now constructor | exact IH].
Qed.

Lemma filter_insert_sorted (x : A) (s : list A) :
  Forall P s -> StronglySorted (fun a b => cmp a b <= 0) s ->
  List.filter q (JSArray.insert cmp x s)
  = if q x then JSArray.insert cmp x (List.filter q s) else List.filter q s.
Proof.
  intros HP Hs. induction s as [|y s IH].
  - cbn. now destruct (q x).
  - apply Forall_cons in HP as [Hy HP]. apply StronglySorted_inv in Hs as [Hs Hys].
    cbn [JSArray.insert]. destruct (Z.ltb_spec 0 (cmp x y)) as [Hlt|Hle].
    + cbn [List.filter]. rewrite (IH HP Hs).
      destruct (q x), (q y); try reflexivity.
      cbn [JSArray.insert]. destruct (Z.ltb_spec 0 (cmp x y)); [reflexivity | lia].
    + change (List.filter q (x :: y :: s))
        with (if q x then x :: List.filter q (y :: s) else List.filter q (y :: s)).
      destruct (q x); [|reflexivity].
      symmetry. apply insert_in_front, filter_Forall. constructor; [exact Hle|].
      eapply Forall_impl; [exact Hys|]. intros z Hz. cbv beta in Hz.
      now apply (cmp_trans x y z).
Qed.

Lemma sort_filter_commute (l : list A) :
  Forall P l ->
  List.filter q (JSArray.sort cmp l) = JSArray.sort cmp (List.filter q l).
Proof.
  induction l as [|x l IH]; intros Hl; [reflexivity|].
  apply Forall_cons in Hl as [Hx Hl].
  change (JSArray.sort cmp (x :: l)) with (JSArray.insert cmp x (JSArray.sort cmp l)).
  rewrite filter_insert_sorted.
  - rewrite (IH Hl). cbn [List.filter]. now destruct (q x).
  - now apply sort_Forall.
  - apply (sort_StronglySorted cmp P); [| |exact Hl].
    + intros a b _ _. apply cmp_total.
    + intros a b c _ Hb _. now apply cmp_trans.
Qed.

End SortCommute.

Lemma filter_filter_swap {A} (f g : A -> bool) (l : list A) :
  List.filter f (List.filter g l) = List.filter g (List.filter f l).
Proof.
  induction l as [|x l IH]; [reflexivity|]. cbn [List.filter].
  destruct (f x) eqn:Hf, (g x) eqn:Hg; cbn [List.filter];
    rewrite ?Hf, ?Hg, IH; reflexivity.
Qed.

Lemma filter_as_andb {A} (f g : A -> bool) (l : list A) :
  List.filter f (List.filter g l) = List.filter (fun x => g x && f x) l.
Proof.
  induction l as [|x l IH]; [reflexivity|]. cbn [List.filter].
  destruct (g x); cbn [List.filter andb]; [|exact IH].
  destruct (f x); now rewrite IH.
Qed.

Lemma sortedList_Permutation (h : Host) (sc : SortConfig) (l : list LeasingEntry) :
  Permutation (sortedList h sc l) l.
Proof. destruct sc as [c|]; [apply sort_Permutation | reflexivity]. Qed.

Lemma sorts_only_reorder (h : Host) (p : PageState) (ks : list EntryKey) :
  Permutation (displayed h (run h p (ActSort <$> ks))) (displayed h p).
Proof.
  revert p. induction ks as [|k ks IH]; intros p; [reflexivity|].
  cbn [fmap list_fmap run foldl]. fold (ActSort <$> ks).
  change (foldl (dispatch h) ?x (ActSort <$> ks)) with (run h x (ActSort <$> ks)).
  rewrite IH. unfold displayed. cbn [dispatch sortConfig dateRange filters home].
  now rewrite !sortedList_Permutation.
Qed.

(** X11: the table shows the entries of the store that pass the date
    range and the field filters, each as often as the store holds it and
    no other entry, whatever the sort selection; choosing sort columns
    only rearranges the rows shown; and with no date range, no filter
    and no sort selection the table shows the store as it is. *)
Theorem table_shows_the_filtered_store (h : Host) (p : PageState) :
  Permutation (displayed h p)
    (List.filter (fun e => inDateRange h (dateRange p) e && matchesFilters (filters p) e)
                 (data (home p)))
  /\ (forall e, In e (displayed h p) <->
                In e (data (home p)) /\ inDateRange h (dateRange p) e = true
                /\ matchesFilters (filters p) e = true)
  /\ (forall ks, Permutation (displayed h (run h p (ActSort <$> ks))) (displayed h p))
  /\ (dateRange p ≫= from = None -> filters p = ∅ -> sortConfig p = None ->
      displayed h p = data (home p)).
Proof.
  assert (Permutation (displayed h p)
            (List.filter (fun e => inDateRange h (dateRange p) e
                                   && matchesFilters (filters p) e) (data (home p)))) as Hperm.
  { unfold displayed, filteredData, finalFiltered, filteredByDate.
    rewrite sortedList_Permutation. now rewrite filter_as_andb. }
  split; [exact Hperm|]. split; [|split].
  - intros e. split.
    + intros Hin. apply (Permutation_in _ Hperm) in Hin.
      apply filter_In in Hin as [Hin Hb]. apply andb_true_iff in Hb. tauto.
    + intros (Hin & Hd & Hm). apply (Permutation_in _ (Permutation_sym Hperm)).
      apply filter_In. split; [exact Hin|]. now rewrite Hd, Hm.
  - apply sorts_only_reorder.
  - intros Hr Hf Hs. unfold displayed, filteredData, finalFiltered, filteredByDate.
    rewrite Hs, Hf. cbn [sortedList].
    rewrite !filter_keeps_all; [reflexivity| |].
    + intros x _. unfold inDateRange. now rewrite Hr.
    + intros x _. reflexivity.
Qed.

Lemma table_shows_the_filtered_store_witness :
  displayed hostUTC (pageWith abc) = abc.
Proof.
  exact (proj2 (proj2 (proj2 (table_shows_the_filtered_store hostUTC (pageWith abc))))
           eq_refl eq_refl eq_refl).
Defined.

Lemma sortedList_filter (h : Host) (sc : SortConfig) (q : LeasingEntry -> bool)
    (l : list LeasingEntry) :
  (forall c, sc = Some c -> Forall (comparable h (key c)) l) ->
  List.filter q (sortedList h sc l) = sortedList h sc (List.filter q l).
Proof.
  intros Hl. destruct sc as [c|]; [|reflexivity]. cbn [sortedList].
  apply (sort_filter_commute _ (comparable h (key c))); [| |now apply Hl].
  - intros x y. apply compareFn_total.
  - intros x y z Hy. now apply compareFn_trans.
Qed.

(** X12: a confirmed deletion takes the deleted entry out of the table
    and leaves every other row where it was: the rows shown afterwards
    are the rows shown before without the entries of the deleted id, in
    the same order (under a sort by date, for dates that parse). *)
Theorem delete_keeps_row_order (h : Host) (p : PageState) (del : LeasingEntry) :
  entryToDelete p = Some del ->
  (forall c, sortConfig p = Some c -> Forall (comparable h (key c)) (data (home p))) ->
  displayed h (confirmDelete p)
  = List.filter (fun item => negb (bool_decide (id item = id del))) (displayed h p).
Proof.
  intros Hdel Hcmp. unfold confirmDelete. rewrite Hdel. unfold displayed.
  cbn [home with_home with_entryToDelete set_data data sortConfig dateRange filters].
  unfold filteredData, finalFiltered, filteredByDate.
  rewrite sortedList_filter.
  - f_equal. rewrite (filter_filter_swap _ (matchesFilters (filters p))). f_equal.
    apply filter_filter_swap.
  - intros c Hc. apply filter_Forall, filter_Forall. now apply Hcmp.
Qed.

Lemma delete_keeps_row_order_witness :
  displayed hostUTC
    (confirmDelete (handleDelete (week_of 2 "b")
       (dispatch hostUTC (pageWith abc) (ActSort Kweek))))
  = List.filter (fun item => negb (bool_decide (id item = "b")))
      (displayed hostUTC (handleDelete (week_of 2 "b")
         (dispatch hostUTC (pageWith abc) (ActSort Kweek)))).
Proof.
  apply (delete_keeps_row_order hostUTC
           (handleDelete (week_of 2 "b") (dispatch hostUTC (pageWith abc) (ActSort Kweek)))
           (week_of 2 "b") eq_refl).
  intros c Hc. injection Hc as <-. apply Forall_forall. intros x _ Hk. discriminate Hk.
Defined.

(** ** Turning the sort direction *)

Lemma StronglySorted_snoc {A} (R : A -> A -> Prop) (l : list A) (x : A) :
  StronglySorted R l -> Forall (fun y => R y x) l -> StronglySorted R (l ++ [x]).
Proof.
  induction 1 as [|y l Hs IH Hy]; intros Hx; cbn.
  - repeat constructor.
  - apply Forall_cons in Hx as [Hyx Hx]. constructor; [now apply IH|].
    apply Forall_app. split; [exact Hy | now repeat constructor].
Qed.

Lemma StronglySorted_rev {A} (R : A -> A -> Prop) (l : list A) :
  StronglySorted R l -> StronglySorted (fun a b => R b a) (rev l).
Proof.
  induction 1 as [|y l Hs IH Hy]; cbn; [constructor|].
  apply StronglySorted_snoc; [exact IH|].
  apply Forall_forall. intros z Hz. apply list_elem_of_In, in_rev in Hz.
  rewrite Forall_forall in Hy. now apply Hy, list_elem_of_In.
Qed.

(** Two sorted arrangements of the same elements are the same list when
    no two different elements are each before the other. *)
Lemma sorted_arrangement_unique {A} (R : A -> A -> Prop) (l1 l2 : list A) :
  (forall a b, In a l1 -> In b l1 -> R a b -> R b a -> a = b) ->
  StronglySorted R l1 -> StronglySorted R l2 -> Permutation l1 l2 -> l1 = l2.
Proof.
  revert l2. induction l1 as [|x l1 IH]; intros l2 Hanti H1 H2 Hp.
  - now apply Permutation_nil in Hp.
  - destruct l2 as [|y l2]; [now apply Permutation_sym, Permutation_nil in Hp|].
    apply StronglySorted_inv in H1 as [H1 Hx]. apply StronglySorted_inv in H2 as [H2 Hy].
    rewrite Forall_forall in Hx, Hy.
    assert (x = y) as <-.
    { assert (In y (x :: l1)) as [Hxy|Hyin]
        by (apply (Permutation_in _ (Permutation_sym Hp)); now left); [exact Hxy|].
      assert (In x (y :: l2)) as [Hyx|Hxin]
        by (apply (Permutation_in _ Hp); now left); [now symmetry|].
      apply Hanti; [now left | now right | |].
      - now apply Hx, list_elem_of_In.
      - now apply Hy, list_elem_of_In. }
    f_equal. apply IH; auto.
    + intros a b Ha Hb. apply Hanti; now right.
    + now apply Permutation_cons_inv in Hp.
Qed.

(** X13: sorting descending gives the rows of the ascending sort in
    reverse, provided no two different entries of the list compare as
    equal on the sort field (and, under the date key, the dates parse). *)
Theorem descending_reverses_ascending (h : Host) (k : EntryKey)
    (l : list LeasingEntry) :
  Forall (comparable h k) l ->
  (forall a b, In a l -> In b l -> spec_compare h k a b = Eq -> a = b) ->
  sortedList h (Some (mkSort k descending)) l
  = rev (sortedList h (Some (mkSort k ascending)) l).
Proof.
  intros Hcmp Hties. cbn [sortedList].
  set (desc := JSArray.sort (compareFn h (mkSort k descending)) l).
  set (asc := JSArray.sort (compareFn h (mkSort k ascending)) l).
  assert (forall a b, compareFn h (mkSort k descending) a b <= 0
                      <-> compareFn h (mkSort k ascending) b a <= 0) as Hflip.
  { intros a b. rewrite !compareFn_spec, !oriented_le. cbn [direction key].
    now rewrite <- spec_compare_antisym. }
  apply (sorted_arrangement_unique (fun a b => compareFn h (mkSort k descending) a b <= 0)).
  - intros a b Ha Hb Hab Hba. apply Hflip in Hba.
    rewrite compareFn_spec, oriented_le in Hab, Hba. cbn [direction key] in Hab, Hba.
    rewrite <- spec_compare_antisym in Hab.
    assert (Permutation desc l) as Hp by apply sort_Permutation.
    apply Hties.
    + exact (Permutation_in _ Hp Ha).
    + exact (Permutation_in _ Hp Hb).
    + rewrite (spec_compare_antisym h k a b) in Hba |- *.
      destruct (spec_compare h k b a); [reflexivity | now elim Hba | now elim Hab].
  - apply (sort_StronglySorted _ (comparable h k)); [| |exact Hcmp].
    + intros x y _ _. apply compareFn_total.
    + intros x y z _ Hy _. now apply (compareFn_trans h (mkSort k descending)).
  - assert (StronglySorted (fun a b => compareFn h (mkSort k ascending) a b <= 0) asc) as Hs.
    { apply (sort_StronglySorted _ (comparable h k)); [| |exact Hcmp].
      - intros x y _ _. apply compareFn_total.
      - intros x y z _ Hy _. now apply (compareFn_trans h (mkSort k ascending)). }
    apply StronglySorted_rev in Hs. clear -Hs Hflip.
    induction Hs as [|x s Hs IH Hx]; constructor; [exact IH|].
    eapply Forall_impl; [exact Hx|]. intros z Hz. now apply Hflip.
  - unfold desc, asc. rewrite <- Permutation_rev, !sort_Permutation. reflexivity.
Qed.

Lemma descending_reverses_ascending_witness :
  sortedList hostUTC (Some (mkSort Kweek descending)) abc
  = rev (sortedList hostUTC (Some (mkSort Kweek ascending)) abc).
Proof.
  apply (descending_reverses_ascending hostUTC Kweek abc).
  - apply Forall_forall. intros x _ Hk. discriminate Hk.
  - intros a b Ha Hb. cbn in Ha, Hb.
    destruct Ha as [<-|[<-|[<-|[]]]], Hb as [<-|[<-|[<-|[]]]];
      (reflexivity || discriminate).
Defined.

(** With two entries of one week the descending sort is not the
    ascending sort reversed: the tie keeps its order in both. *)
Example descending_with_ties :
  id <$> sortedList hostUTC (Some (mkSort Kweek descending))
           [week_of 1 "a"; week_of 1 "b"] = ["a"; "b"]
  /\ id <$> rev (sortedList hostUTC (Some (mkSort Kweek ascending))
                   [week_of 1 "a"; week_of 1 "b"]) = ["b"; "a"].
Proof. split; vm_compute; reflexivity. Qed.

(** ** Dates that do not parse, and dates that an import stored *)

Lemma export_succeeds_iff (h : Host) (now : Z) (l : list LeasingEntry) :
  Z.abs now <= max_time ->
  is_Some (handleDownload h now l)
  <-> Forall (fun e => is_Some (LocalDate.of_string h (date e))) l.
Proof.
  intros Hnow. split.
  - intros [d Hd]. unfold handleDownload in Hd.
    destruct (mapM _ l) as [rows|] eqn:Hrows; [|discriminate]. clear Hd.
    apply mapM_Some in Hrows.
    induction Hrows as [|e row l rows He _ IH]; constructor; [|exact IH].
    destruct (LocalDate.of_string h (date e)); [eauto | discriminate].
  - intros Hall.
    assert (exists ts, Forall2 (fun e t => LocalDate.of_string h (date e) = Some t) l ts)
      as [ts Hts].
    { induction Hall as [|e l [t He] _ [ts IH]]; [exists []; constructor|].
      exists (t :: ts). now constructor. }
    unfold handleDownload. rewrite (dataToExport_valid h l ts Hts). cbn [mbind option_bind].
    assert (JSDate.of_number (Some now) = Some now) as ->.
    { cbn. now apply TimeClip_Some. }
    rewrite format_valid. cbn. eauto.
Qed.

(** X14: the CSV export is all or nothing: a file is produced exactly
    when the date of every row parses; one row whose date does not
    parse stops the whole export. *)
Theorem csv_export_needs_valid_dates (h : Host) (now : Z) (l : list LeasingEntry) :
  Z.abs now <= max_time ->
  (is_Some (handleDownload h now l)
   <-> Forall (fun e => is_Some (LocalDate.of_string h (date e))) l)
  /\ (forall e, In e l -> LocalDate.of_string h (date e) = None ->
                handleDownload h now l = None).
Proof.
  intros Hnow. pose proof (export_succeeds_iff h now l Hnow) as Hiff.
  split; [exact Hiff|]. intros e Hin He.
  apply eq_None_not_Some. intros Hs. apply Hiff in Hs.
  rewrite Forall_forall in Hs. apply list_elem_of_In in Hin.
  specialize (Hs e Hin). rewrite He in Hs. now destruct Hs.
Qed.

Lemma csv_export_needs_valid_dates_witness :
  handleDownload hostUTC 0 [entryA; with_date entryA "soon"] = None.
Proof.
  apply (proj2 (csv_export_needs_valid_dates hostUTC 0 [entryA; with_date entryA "soon"]
                  ltac:(vm_compute; discriminate)) (with_date entryA "soon")).
  - right. now left.
  - reflexivity.
Defined.

Lemma pad3_table :
  forallb (fun n => String.eqb (JSDate.addLeadingZeros n 3) (digits3 n)) (seqZ 0 1000) = true.
Proof. vm_compute. reflexivity. Qed.

Lemma pad3_shape (n : Z) : 0 <= n <= 999 -> JSDate.addLeadingZeros n 3 = digits3 n.
Proof.
  intros Hn. pose proof pad3_table as H. rewrite forallb_forall in H.
  apply String.eqb_eq, H, list_elem_of_In, elem_of_seqZ. lia.
Qed.

Lemma fixed_digits3 (n : Z) : 0 <= n <= 999 -> JSDate.fixed_digits 0 (digits3 n) = Some n.
Proof.
  intros Hn. unfold digits3, digits2. cbn [JSDate.fixed_digits].
  rewrite !digit_val_digit_char by (Z.to_euclidean_division_equations; lia).
  f_equal. Z.to_euclidean_division_equations; lia.
Qed.

Lemma parse_iso_full (y m d hh mm ss ms : string) :
  String.length y = 4%nat -> String.length m = 2%nat -> String.length d = 2%nat ->
  String.length hh = 2%nat -> String.length mm = 2%nat -> String.length ss = 2%nat ->
  String.length ms = 3%nat ->
  JSDate.parse_iso (y +:+ "-" +:+ m +:+ "-" +:+ d +:+ "T" +:+ hh +:+ ":" +:+ mm
                    +:+ ":" +:+ ss +:+ "." +:+ ms +:+ "Z")
  = (y' ← JSDate.fixed_digits 0 y; m' ← JSDate.fixed_digits 0 m;
     d' ← JSDate.fixed_digits 0 d;
     if negb ((1 <=? m') && (m' <=? 12) && (1 <=? d')
              && (d' <=? JSDate.DaysInMonth y' (m' - 1)))
     then None
     else
       hh' ← JSDate.fixed_digits 0 hh; mm' ← JSDate.fixed_digits 0 mm;
       ss' ← JSDate.fixed_digits 0 ss; ms' ← JSDate.fixed_digits 0 ms;
       if negb ((hh' <=? 23) && (mm' <=? 59) && (ss' <=? 59)) then None
       else JSDate.TimeClip (JSDate.MakeDate (JSDate.MakeDay y' (m' - 1) d')
                               (JSDate.MakeTime hh' mm' ss' ms'))).
Proof.
  destruct y as [|y3 [|y2 [|y1 [|y0 [|]]]]]; try discriminate.
  destruct m as [|m1 [|m0 [|]]]; try discriminate.
  destruct d as [|d1 [|d0 [|]]]; try discriminate.
  destruct hh as [|h1 [|h0 [|]]]; try discriminate.
  destruct mm as [|n1 [|n0 [|]]]; try discriminate.
  destruct ss as [|s1 [|s0 [|]]]; try discriminate.
  destruct ms as [|l2 [|l1 [|l0 [|]]]]; try discriminate.
  intros _ _ _ _ _ _ _. reflexivity.
Qed.

Lemma time_fields (t : Z) :
  0 <= JSDate.HourFromTime t <= 23 /\ 0 <= JSDate.MinFromTime t <= 59
  /\ 0 <= JSDate.SecFromTime t <= 59 /\ 0 <= JSDate.msFromTime t <= 999
  /\ JSDate.MakeDate (JSDate.Day t)
       (JSDate.MakeTime (JSDate.HourFromTime t) (JSDate.MinFromTime t)
          (JSDate.SecFromTime t) (JSDate.msFromTime t)) = t.
Proof.
  unfold JSDate.HourFromTime, JSDate.MinFromTime, JSDate.SecFromTime, JSDate.msFromTime,
    JSDate.MakeDate, JSDate.MakeTime, JSDate.Day, JSDate.msPerDay, JSDate.msPerHour,
    JSDate.msPerMinute, JSDate.msPerSecond.
  repeat split; Z.to_euclidean_division_equations; lia.
Qed.

(** The ISO parser reads the ISO text of a time value back to it. *)
Lemma parse_iso_toISOString (t : Z) :
  four_digit_year t -> JSDate.parse_iso (JSDate.toISOString t) = Some t.
Proof.
  intros Hyear. unfold four_digit_year in Hyear.
  destruct (calendar_fields t) as (Hm & Hd & Hday).
  destruct (time_fields t) as (Hhh & Hmm & Hss & Hms & Hback).
  pose proof (DaysInMonth_le_31 (JSDate.YearFromTime t) (JSDate.MonthFromTime t)
                ltac:(lia)) as H31.
  unfold JSDate.toISOString.
  assert ((0 <=? JSDate.YearFromTime t) && (JSDate.YearFromTime t <=? 9999) = true) as ->.
  { rewrite andb_true_iff, !Z.leb_le. lia. }
  rewrite (pad4_shape (JSDate.YearFromTime t)), (pad2_shape (JSDate.MonthFromTime t + 1)),
    (pad2_shape (JSDate.DateFromTime t)), (pad2_shape (JSDate.HourFromTime t)),
    (pad2_shape (JSDate.MinFromTime t)), (pad2_shape (JSDate.SecFromTime t)),
    (pad3_shape _ Hms) by lia.
  rewrite parse_iso_full by reflexivity.
  rewrite (fixed_digits4 (JSDate.YearFromTime t)), (fixed_digits2 (JSDate.MonthFromTime t + 1)),
    (fixed_digits2 (JSDate.DateFromTime t)), (fixed_digits2 (JSDate.HourFromTime t)),
    (fixed_digits2 (JSDate.MinFromTime t)), (fixed_digits2 (JSDate.SecFromTime t)),
    (fixed_digits3 _ Hms) by lia.
  cbn [mbind option_bind].
  replace (JSDate.MonthFromTime t + 1 - 1) with (JSDate.MonthFromTime t) by lia.
  assert ((1 <=? JSDate.MonthFromTime t + 1) && (JSDate.MonthFromTime t + 1 <=? 12)
          && (1 <=? JSDate.DateFromTime t)
          && (JSDate.DateFromTime t
              <=? JSDate.DaysInMonth (JSDate.YearFromTime t) (JSDate.MonthFromTime t)) = true)
    as ->.
  { rewrite !andb_true_iff, !Z.leb_le. lia. }
  assert ((JSDate.HourFromTime t <=? 23) && (JSDate.MinFromTime t <=? 59)
          && (JSDate.SecFromTime t <=? 59) = true) as ->.
  { rewrite !andb_true_iff, !Z.leb_le. lia. }
  cbn [negb]. rewrite Hday, Hback. apply TimeClip_Some. split; [reflexivity|].
  now apply year_in_range_time.
Qed.

Lemma uploadRows_imported (h : Host) (rows : list (gmap string string)) (n : nat)
    (entries : list LeasingEntry) :
  uploadRows h rows n = inr entries -> Forall2 (imported h) rows entries.
Proof.
  intros Hup.
  destruct (rows_valid_or_first_invalid h rows)
    as [Hall | (good & bad & rest & -> & Hgood & Hbad)].
  - destruct (uploadRows_valid h rows n Hall) as (es & Hes & H2 & _). congruence.
  - destruct (uploadRows_invalid h good bad rest n Hgood Hbad) as (r & _ & Hr). congruence.
Qed.

Lemma stored_date_parses_back (h : Host) (t : Z) :
  iso_conforming h -> four_digit_year t ->
  LocalDate.of_string h (JSDate.toISOString t) = Some t.
Proof.
  intros Hiso Hyear. unfold LocalDate.of_string.
  rewrite (Hiso _ t (parse_iso_toISOString t Hyear)). cbn.
  apply TimeClip_Some. split; [reflexivity | now apply year_in_range_time].
Qed.

(** X15: an import stores each date as the ISO text of the instant that
    the row's date was read as. With a parser that reads the ISO format
    and years of four digits, that text reads back as the same instant,
    whatever the time of day: the date filter and the sort work on the
    instant the file gave, and a CSV export of what was imported always
    produces a file. *)
Theorem imported_dates_parse_back (h : Host) (rows : list (gmap string string))
    (n : nat) (entries : list LeasingEntry) :
  iso_conforming h ->
  uploadRows h rows n = inr entries ->
  Forall2 (fun row e =>
             exists d t, row !! "date" = Some d /\ LocalDate.of_string h d = Some t
                         /\ date e = JSDate.toISOString t
                         /\ (four_digit_year t -> LocalDate.of_string h (date e) = Some t))
          rows entries
  /\ (Forall (fun row => forall d t, row !! "date" = Some d ->
                LocalDate.of_string h d = Some t -> four_digit_year t) rows ->
      forall now, Z.abs now <= max_time -> is_Some (handleDownload h now entries)).
Proof.
  intros Hiso Hup. apply uploadRows_imported in Hup.
  assert (Forall2 (fun row e =>
             exists d t, row !! "date" = Some d /\ LocalDate.of_string h d = Some t
                         /\ date e = JSDate.toISOString t
                         /\ (four_digit_year t -> LocalDate.of_string h (date e) = Some t))
          rows entries) as Hdates.
  { eapply Forall2_impl; [exact Hup|]. intros row e (_ & (d & t & Hd & Ht & He) & _).
    exists d, t. repeat split; try assumption.
    intros Hyear. rewrite He. now apply stored_date_parses_back. }
  split; [exact Hdates|]. intros Hyears now Hnow.
  apply export_succeeds_iff; [exact Hnow|].
  clear Hup. induction Hdates as [|row e rows entries (d & t & Hd & Ht & _ & Hback) _ IH];
    [constructor|].
  apply Forall_cons in Hyears as [Hy Hyears]. constructor; [|now apply IH].
  exists t. apply Hback. exact (Hy d t Hd Ht).
Qed.

Lemma imported_dates_parse_back_witness :
  exists entries,
    uploadRows hostNewYork [rowAfternoon] 0 = inr entries
    /\ date <$> entries = ["2025-06-01T13:45:10.250Z"]
    /\ is_Some (handleDownload hostNewYork 0 entries).
Proof.
  eexists. split; [vm_compute; reflexivity|]. split; [reflexivity|].
  refine (proj2 (imported_dates_parse_back hostNewYork [rowAfternoon] 0 _ _ _) _ 0 _).
  - intros s t Hs. exact Hs.
  - vm_compute. reflexivity.
  - constructor; [|constructor]. intros d t Hd Ht.
    change (rowAfternoon !! "date") with (Some "2025-06-01T13:45:10.250Z") in Hd.
    injection Hd as <-. vm_compute in Ht. injection Ht as <-.
    unfold four_digit_year. vm_compute. split; discriminate.
  - vm_compute. discriminate.
Defined.

(** ** The report exports *)

Lemma map_with_index_Some {A B} (f : A -> nat -> option B) (n : nat) (l : list A)
    (rows : list B) :
  map_with_index f n l = Some rows <->
  length rows = length l
  /\ forall (i : nat) x, l !! i = Some x -> exists y, f x (n + i)%nat = Some y /\ rows !! i = Some y.
Proof.
  revert n rows. induction l as [|x l IH]; intros n rows; cbn [map_with_index].
  - split.
    + intros [= <-]. split; [reflexivity|]. intros i x [=].
    + intros [Hlen _]. destruct rows; [reflexivity | discriminate].
  - split.
    + intros H. destruct (f x n) as [y|] eqn:Hy; [|discriminate]. cbn in H.
      destruct (map_with_index f (S n) l) as [ys|] eqn:Hys; [|discriminate].
      injection H as <-. apply IH in Hys as [Hlen Hrows].
      split; [cbn; now rewrite Hlen|]. intros [|i] x' Hx'; cbn in Hx'.
      * injection Hx' as <-. exists y. now rewrite Nat.add_0_r.
      * destruct (Hrows i x' Hx') as (y' & Hy' & Hi). exists y'.
        now rewrite Nat.add_succ_r.
    + intros [Hlen Hrows]. destruct rows as [|y ys]; [discriminate|].
      destruct (Hrows 0%nat x eq_refl) as (y' & Hy' & Hy0). rewrite Nat.add_0_r in Hy'.
      injection Hy0 as ->. rewrite Hy'. cbn.
      assert (map_with_index f (S n) l = Some ys) as ->; [|reflexivity].
      apply IH. split; [now injection Hlen|]. intros i x' Hx'.
      destruct (Hrows (S i) x' Hx') as (y'' & Hy'' & Hi). exists y''.
      rewrite Nat.add_succ_r in Hy''. split; [exact Hy'' | exact Hi].
Qed.

Lemma map_with_index_ext {A B} (f g : A -> nat -> option B) (n : nat) (l : list A) :
  (forall x i, f x i = g x i) -> map_with_index f n l = map_with_index g n l.
Proof.
  intros H. revert n. induction l as [|x l IH]; intros n; [reflexivity|].
  cbn [map_with_index]. now rewrite H, IH.
Qed.

Lemma map_with_index_is_Some {A B} (f : A -> nat -> option B) (n : nat) (l : list A) :
  is_Some (map_with_index f n l) <-> forall (i : nat) x, l !! i = Some x -> is_Some (f x (n + i)%nat).
Proof.
  revert n. induction l as [|x l IH]; intros n; cbn [map_with_index].
  - split; [intros _ i x [=] | eauto].
  - split.
    + intros [rows H]. destruct (f x n) as [y|] eqn:Hy; [|discriminate]. cbn in H.
      destruct (map_with_index f (S n) l) as [ys|] eqn:Hys; [|discriminate].
      intros [|i] x' Hx'; cbn in Hx'.
      * injection Hx' as <-. rewrite Nat.add_0_r, Hy. eauto.
      * rewrite Nat.add_succ_r. apply (proj1 (IH (S n)) (ex_intro _ ys Hys) i x' Hx').
    + intros H. destruct (H 0%nat x eq_refl) as [y Hy]. rewrite Nat.add_0_r in Hy.
      rewrite Hy. cbn.
      destruct (proj2 (IH (S n))) as [ys ->]; [|cbn; eauto].
      intros i x' Hx'. specialize (H (S i) x' Hx'). now rewrite Nat.add_succ_r in H.
Qed.

Lemma pdfRow_xlsxRow (h : Host) (entry : LeasingEntry) (index : nat) :
  xlsxRow h entry index = pdfRow h entry index.
Proof. unfold xlsxRow, pdfRow. now rewrite !or_else_Some. Qed.

Lemma pdfRow_Some (h : Host) (e : LeasingEntry) (i : nat) (row : list Cell) :
  pdfRow h e i = Some row <->
  exists t, LocalDate.of_string h (date e) = Some t /\ row = report_cells h i e t.
Proof.
  unfold pdfRow. destruct (LocalDate.of_string h (date e)) as [t|]; cbn.
  - split; [intros [= <-]; now exists t | intros (t' & [= <-] & ->); reflexivity].
  - split; [discriminate | intros (t' & [=] & _)].
Qed.

(** X16: the spreadsheet report has six rows above the table: the title
    padded to nine cells, an empty row, the period line, the staff line,
    an empty row and the header row at index 5; then one row per row of
    the table, in the order shown; each carries its position counted
    from 1, the week, the local calendar date as dd/MM/yyyy and the six
    text fields as stored. The sheet has no other row. *)
Theorem xlsx_report_rows (h : Host) (uiText : UiText) (staffName : string)
    (range : option DateRange) (now : Z) (l : list LeasingEntry) (wb : Workbook) :
  handleExportXLSX h uiText staffName range now l = Some wb ->
  length (worksheetData wb) = (6 + length l)%nat
  /\ worksheetData wb !! 0%nat
     = Some (CString (reportTitle uiText) :: replicate 8 (CString EmptyString))
  /\ worksheetData wb !! 1%nat = Some []
  /\ (exists period,
        reportPeriod h range = Some period
        /\ worksheetData wb !! 2%nat = Some [CString period])
  /\ worksheetData wb !! 3%nat = Some [CString (staffNameLabel uiText +:+ " " +:+ staffName)]
  /\ worksheetData wb !! 4%nat = Some []
  /\ worksheetData wb !! 5%nat = Some (tableColumn uiText)
  /\ (forall (i : nat) e, l !! i = Some e ->
        exists t, LocalDate.of_string h (date e) = Some t
                  /\ worksheetData wb !! (6 + i)%nat = Some (report_cells h i e t))
  /\ fileName wb = "leasing_report_" +:+ local_date_text h now +:+ ".xlsx".
Proof.
  unfold handleExportXLSX. intros H.
  destruct (reportPeriod h range) as [period|]; [|discriminate]. cbn [mbind option_bind] in H.
  rewrite (map_with_index_ext _ _ 0 l (pdfRow_xlsxRow h)) in H.
  destruct (map_with_index (pdfRow h) 0 l) as [rows|] eqn:Hrows; [|discriminate].
  cbn [mbind option_bind] in H.
  destruct (JSDate.of_number (Some now)) as [t0|] eqn:Hnow; [|discriminate].
  assert (t0 = now) as ->.
  { cbn in Hnow. apply TimeClip_Some in Hnow. tauto. }
  rewrite format_valid in H. cbn [mbind option_bind] in H. injection H as <-.
  apply map_with_index_Some in Hrows as [Hlen Hrows]. cbn [worksheetData fileName].
  split; [cbn; now rewrite Hlen|]. split; [reflexivity|]. split; [reflexivity|].
  split; [exists period; split; reflexivity|]. repeat (split; [reflexivity|]).
  split; [|reflexivity]. intros i e He.
  destruct (Hrows i e He) as (row & Hrow & Hi). apply pdfRow_Some in Hrow as (t & Ht & ->).
  exists t. split; [exact Ht|]. exact Hi.
Qed.

Lemma xlsx_report_rows_witness :
  exists wb,
    handleExportXLSX hostJakarta uiExample "Ayu" (Some (june2025 hostJakarta))
      1748736000000 abc = Some wb
    /\ worksheetData wb !! 2%nat = Some [CString "Period: 1 June 2025 - 30 June 2025"]
    /\ worksheetData wb !! 8%nat
       = Some [CNumber 3; CNumber 3; CString "01/06/2025"; CString "t"; CString "b";
               CString "c"; CString "d"; CString "e"; CString "f"].
Proof.
  eexists. split; [vm_compute; reflexivity|].
  pose proof (xlsx_report_rows hostJakarta uiExample "Ayu" (Some (june2025 hostJakarta))
                1748736000000 abc _ eq_refl)
    as (_ & _ & _ & (period & Hperiod & Hrow2) & _ & _ & _ & Hrows & _).
  split.
  - vm_compute in Hperiod. injection Hperiod as <-. exact Hrow2.
  - destruct (Hrows 2%nat (week_of 3 "c") eq_refl) as (t & Ht & Hrow).
    vm_compute in Ht. injection Ht as <-. exact Hrow.
Defined.

Lemma rows_succeed_iff (h : Host) (l : list LeasingEntry) :
  is_Some (map_with_index (pdfRow h) 0 l)
  <-> Forall (fun e => is_Some (LocalDate.of_string h (date e))) l.
Proof.
  rewrite map_with_index_is_Some, Forall_lookup. split; intros H i e He.
  - destruct (H i e He) as [row Hrow]. apply pdfRow_Some in Hrow as (t & Ht & _). eauto.
  - destruct (H i e He) as [t Ht]. exists (report_cells h (0 + i) e t).
    apply pdfRow_Some. eauto.
Qed.

Lemma today_is_Some (h : Host) (now : Z) :
  is_Some (LocalDate.format_yyyy_MM_dd h (JSDate.of_number (Some now)))
  <-> Z.abs now <= max_time.
Proof.
  cbn. unfold JSDate.TimeClip, max_time.
  destruct (Z.leb_spec (Z.abs now) 8640000000000000); cbn.
  - split; [intros _; assumption | eauto].
  - split; [intros [? [=]] | lia].
Qed.

Lemma xlsx_succeeds_iff (h : Host) (uiText : UiText) (staffName : string)
    (range : option DateRange) (now : Z) (l : list LeasingEntry) :
  is_Some (handleExportXLSX h uiText staffName range now l)
  <-> is_Some (reportPeriod h range)
      /\ Forall (fun e => is_Some (LocalDate.of_string h (date e))) l
      /\ Z.abs now <= max_time.
Proof.
  rewrite <- rows_succeed_iff, <- (today_is_Some h now). unfold handleExportXLSX.
  rewrite (map_with_index_ext _ _ 0 l (pdfRow_xlsxRow h)).
  destruct (reportPeriod h range) as [period|]; cbn [mbind option_bind];
    [|split; [intros [? [=]] | intros ([? [=]] & _)]].
  destruct (map_with_index (pdfRow h) 0 l) as [rows|]; cbn [mbind option_bind];
    [|split; [intros [? [=]] | intros (_ & [? [=]] & _)]].
  destruct (LocalDate.format_yyyy_MM_dd h (JSDate.of_number (Some now))) as [today|];
    cbn [mbind option_bind]; [|split; [intros [? [=]] | intros (_ & _ & [? [=]])]].
  split; eauto.
Qed.

Lemma pdf_succeeds_iff (h : Host) (uiText : UiText) (staffName : string)
    (range : option DateRange) (now : Z) (l : list LeasingEntry) :
  is_Some (handleExportPDF h uiText staffName range now l)
  <-> is_Some (reportPeriod h range)
      /\ Forall (fun e => is_Some (LocalDate.of_string h (date e))) l
      /\ Z.abs now <= max_time.
Proof.
  rewrite <- rows_succeed_iff, <- (today_is_Some h now).
  unfold handleExportPDF, generatePdfDoc.
  destruct (reportPeriod h range) as [period|]; cbn [mbind option_bind];
    [|split; [intros [? [=]] | intros ([? [=]] & _)]].
  destruct (map_with_index (pdfRow h) 0 l) as [rows|]; cbn [mbind option_bind];
    [|split; [intros [? [=]] | intros (_ & [? [=]] & _)]].
  destruct (LocalDate.format_yyyy_MM_dd h (JSDate.of_number (Some now))) as [today|];
    cbn [mbind option_bind]; [|split; [intros [? [=]] | intros (_ & _ & [? [=]])]].
  split; eauto.
Qed.

(** X17: the three exports stand or fall together on the dates of the
    rows: the spreadsheet and the PDF report are produced exactly when
    the dates of the period can be printed and the date of every row
    parses, and then the CSV export succeeds as well; the PDF table
    holds the same head and the same rows as the spreadsheet, under the
    same three lines of text. *)
Theorem reports_agree (h : Host) (uiText : UiText) (staffName : string)
    (range : option DateRange) (now : Z) (l : list LeasingEntry) :
  (is_Some (handleExportXLSX h uiText staffName range now l)
   <-> is_Some (reportPeriod h range)
       /\ Forall (fun e => is_Some (LocalDate.of_string h (date e))) l
       /\ Z.abs now <= max_time)
  /\ (is_Some (handleExportPDF h uiText staffName range now l)
      <-> is_Some (handleExportXLSX h uiText staffName range now l))
  /\ (is_Some (handleExportXLSX h uiText staffName range now l) ->
      is_Some (handleDownload h now l))
  /\ (forall wb doc name,
        handleExportXLSX h uiText staffName range now l = Some wb ->
        handleExportPDF h uiText staffName range now l = Some (doc, name) ->
        tableRows doc = drop 6 (worksheetData wb)
        /\ Some <$> tableHead doc = [worksheetData wb !! 5%nat]
        /\ Some <$> (CString <$> texts doc)
           = [worksheetData wb !! 0%nat ≫= head; worksheetData wb !! 2%nat ≫= head;
              worksheetData wb !! 3%nat ≫= head]).
Proof.
  split; [apply xlsx_succeeds_iff|].
  split; [now rewrite pdf_succeeds_iff, xlsx_succeeds_iff|].
  split.
  - intros H. apply xlsx_succeeds_iff in H as (_ & Hdates & Hnow).
    now apply export_succeeds_iff.
  - intros wb doc name. unfold handleExportXLSX, handleExportPDF, generatePdfDoc.
    rewrite (map_with_index_ext _ _ 0 l (pdfRow_xlsxRow h)).
    destruct (reportPeriod h range) as [period|]; [|discriminate].
    cbn [mbind option_bind].
    destruct (map_with_index (pdfRow h) 0 l) as [rows|]; [|discriminate].
    cbn [mbind option_bind].
    destruct (LocalDate.format_yyyy_MM_dd h (JSDate.of_number (Some now))) as [today|];
      [|discriminate].
    cbn [mbind option_bind]. intros [= <-] [= <- _]. repeat split; reflexivity.
Qed.

Lemma reports_agree_witness :
  is_Some (handleDownload hostNewYork 0 abc).
Proof.
  apply (proj1 (proj2 (proj2 (reports_agree hostNewYork uiExample "Ayu" None 0 abc)))).
  vm_compute. eauto.
Defined.

(** The period line of the reports for the range that the page opens
    with, and for a range without an end. *)
Example reportPeriod_june_2025 :
  reportPeriod hostJakarta (Some (june2025 hostJakarta))
  = Some "Period: 1 June 2025 - 30 June 2025"
  /\ reportPeriod hostJakarta
       (Some {| from := Some (Some 1748736000000); to := None |})
     = Some "Period: 1 June 2025"
  /\ reportPeriod hostJakarta None = Some "Period: All Data".
Proof. repeat split; vm_compute; reflexivity. Qed.

(** ** Exporting what the table shows *)

Lemma displayed_passes (h : Host) (p : PageState) (e : LeasingEntry) :
  In e (displayed h p) ->
  inDateRange h (dateRange p) e = true /\ matchesFilters (filters p) e = true.
Proof.
  unfold displayed, filteredData, finalFiltered, filteredByDate. intros Hin.
  apply (Permutation_in _ (sortedList_Permutation h _ _)) in Hin.
  apply filter_In in Hin as [Hin Hm]. apply filter_In in Hin as [_ Hd]. now split.
Qed.

Lemma inDateRange_parses (h : Host) (range : option DateRange) (f : option Z)
    (e : LeasingEntry) :
  range ≫= from = Some f -> inDateRange h range e = true ->
  is_Some (LocalDate.of_string h (date e)).
Proof.
  intros Hf. unfold inDateRange. rewrite Hf.
  destruct (LocalDate.of_string h (date e)) as [t|]; [eauto|]. cbn. discriminate.
Qed.

(** X18: once a start date is chosen in the date picker, every row of
    the table has a date that parses, so the CSV export of the table
    always produces a file, and the spreadsheet and PDF reports do
    whenever the dates of the period can be printed. Only with no date
    range can a row with an unreadable date stop the exports. *)
Theorem ranged_table_always_exports (h : Host) (p : PageState) (f : option Z) (now : Z) :
  dateRange p ≫= from = Some f ->
  Z.abs now <= max_time ->
  Forall (fun e => is_Some (LocalDate.of_string h (date e))) (displayed h p)
  /\ is_Some (handleDownload h now (displayed h p))
  /\ (forall uiText staffName,
        is_Some (handleExportXLSX h uiText staffName (dateRange p) now (displayed h p))
        <-> is_Some (reportPeriod h (dateRange p))).
Proof.
  intros Hf Hnow.
  assert (Forall (fun e => is_Some (LocalDate.of_string h (date e))) (displayed h p)) as Hall.
  { apply Forall_forall. intros e He. apply list_elem_of_In in He.
    apply (inDateRange_parses h (dateRange p) f e Hf).
    now apply displayed_passes. }
  split; [exact Hall|]. split; [now apply export_succeeds_iff|].
  intros uiText staffName. rewrite xlsx_succeeds_iff. tauto.
Qed.

Lemma ranged_table_always_exports_witness :
  is_Some (handleDownload hostUTC 0
    (displayed hostUTC
       (dispatch hostUTC (pageWith [entryA; with_date entryA "soon"])
          (ActSetDate (Some (june2025 hostUTC)))))).
Proof.
  apply (proj1 (proj2 (ranged_table_always_exports hostUTC
           (dispatch hostUTC (pageWith [entryA; with_date entryA "soon"])
              (ActSetDate (Some (june2025 hostUTC))))
           (Some 1748736000000) 0 eq_refl ltac:(vm_compute; discriminate)))).
Defined.

(** With no date range the same store cannot be exported. *)
Example unranged_table_export_fails :
  handleDownload hostUTC 0
    (displayed hostUTC (pageWith [entryA; with_date entryA "soon"])) = None.
Proof. vm_compute. reflexivity. Qed.

(** ** The identifiers of an import *)

Lemma uploadRow_id (h : Host) (row : gmap string string) (n n' : nat) (e : LeasingEntry) :
  uploadRow h row n = inr (e, n') ->
  (falsy (row !! "id") = true /\ id e = uuidv4 h n /\ n' = S n)
  \/ (falsy (row !! "id") = false /\ row !! "id" = Some (id e) /\ n' = n).
Proof.
  unfold uploadRow.
  destruct (falsy (row !! "date") || falsy (row !! "tenantName")); [discriminate|].
  destruct (LocalDate.of_string h _); [|discriminate].
  destruct (JSNumber.parseInt _); [|discriminate].
  destruct (falsy (row !! "id")) eqn:Hid; intros [= <- <-]; [left; auto|right].
  split; [reflexivity|]. split; [|reflexivity]. cbn.
  destruct (row !! "id"); [reflexivity | discriminate].
Qed.

Lemma uploadRows_ids (h : Host) (rows : list (gmap string string)) (n : nat)
    (entries : list LeasingEntry) :
  uploadRows h rows n = inr entries ->
  (forall a b, uuidv4 h a = uuidv4 h b -> a = b) ->
  NoDup (given_ids rows) ->
  (forall k, ~ In (uuidv4 h k) (given_ids rows)) ->
  NoDup (ids entries)
  /\ forall i, In i (ids entries) ->
       In i (given_ids rows) \/ exists k, (n <= k)%nat /\ i = uuidv4 h k.
Proof.
  intros Hup Hinj. revert n entries Hup.
  induction rows as [|row rows IH]; intros n entries Hup Hnd Hfresh.
  - injection Hup as <-. split; [constructor | intros ? []].
  - cbn [uploadRows] in Hup.
    destruct (uploadRow h row n) as [|[e n']] eqn:Hrow; [discriminate|].
    destruct (uploadRows h rows n') as [|es] eqn:Hes; [discriminate|].
    injection Hup as <-.
    apply uploadRow_id in Hrow as [(Hf & Hid & ->) | (Hf & Hid & ->)];
      unfold given_ids in Hnd, Hfresh |- *; cbn [omap list_omap] in Hnd, Hfresh |- *;
      rewrite Hf in Hnd, Hfresh |- *; fold (given_ids rows) in *.
    + destruct (IH _ es Hes Hnd Hfresh) as [Hes_nd Hes_in].
      unfold ids. rewrite fmap_cons. fold (ids es). split.
      * apply NoDup_cons. split; [|exact Hes_nd]. intros Hin.
        apply list_elem_of_In, Hes_in in Hin as [Hin | (k & Hk & Heq)].
        -- rewrite Hid in Hin. exact (Hfresh n Hin).
        -- rewrite Hid in Heq. apply Hinj in Heq. lia.
      * intros i [<- | Hin].
        -- right. exists n. split; [lia | exact Hid].
        -- destruct (Hes_in i Hin) as [Hg | (k & Hk & Heq)]; [now left|].
           right. exists k. split; [lia | exact Heq].
    + rewrite Hid in Hnd, Hfresh |- *. cbn [option_bind mbind] in *.
      apply NoDup_cons in Hnd as [Hnew Hnd].
      assert (forall k, ~ In (uuidv4 h k) (given_ids rows)) as Hfresh'.
      { intros k Hin. apply (Hfresh k). now right. }
      destruct (IH _ es Hes Hnd Hfresh') as [Hes_nd Hes_in].
      unfold ids. rewrite fmap_cons. fold (ids es). split.
      * apply NoDup_cons. split; [|exact Hes_nd]. intros Hin.
        apply list_elem_of_In, Hes_in in Hin as [Hin | (k & Hk & Heq)].
        -- apply Hnew. now apply list_elem_of_In.
        -- apply (Hfresh k). left. now symmetry.
      * intros i [<- | Hin]; [left; now left|].
        destruct (Hes_in i Hin) as [Hg | (k & Hk & Heq)]; [left; now right|].
        right. exists k. split; [lia | exact Heq].
Qed.

(** X19: an import gives every entry an id of its own when the ids that
    the file brings are different from each other and the id generator
    never repeats itself nor returns an id of the file; the store then
    has unique ids after the upload, as deleting and editing by id need. *)
Theorem import_ids_unique (h : Host) (n : nat) (rows : list (gmap string string))
    (st : HomeState) :
  (forall a b, uuidv4 h a = uuidv4 h b -> a = b) ->
  NoDup (given_ids rows) ->
  (forall k, ~ In (uuidv4 h k) (given_ids rows)) ->
  (forall entries, uploadRows h rows n = inr entries -> NoDup (ids entries))
  /\ (NoDup (ids (data st)) -> NoDup (ids (data (complete h n rows st)))).
Proof.
  intros Hinj Hnd Hfresh.
  assert (forall entries, uploadRows h rows n = inr entries -> NoDup (ids entries)) as Hall.
  { intros entries Hup.
    exact (proj1 (uploadRows_ids h rows n entries Hup Hinj Hnd Hfresh)). }
  split; [exact Hall|]. intros Hst. unfold complete.
  destruct (uploadRows h rows n) as [msg|entries] eqn:Hup; cbn; [exact Hst|].
  now apply Hall.
Qed.

Lemma import_ids_unique_witness :
  NoDup (ids (data (complete hostUTC 0 three_rows emptyState))).
Proof.
  refine (proj2 (import_ids_unique hostUTC 0 three_rows emptyState _ _ _) _).
  - intros a b Hab. apply (inj pretty).
    change (String "u" (String "u" (String "i" (String "d" (String "-" (pretty a)))))
            = String "u" (String "u" (String "i" (String "d" (String "-" (pretty b))))))
      in Hab.
    congruence.
  - apply (bool_decide_unpack (NoDup (given_ids three_rows))).
    vm_compute. exact I.
  - intros k.
    change (given_ids three_rows) with (Datatypes.id (given_ids three_rows)).
    replace (Datatypes.id (given_ids three_rows)) with ["r1"; "r3"]
      by (vm_compute; reflexivity).
    change (uuidv4 hostUTC k)
      with (String "u" (String "u" (String "i" (String "d" (String "-" (pretty k)))))).
    intros [H|[H|[]]]; discriminate H.
  - constructor.
Defined.

(** ** The dates that the reports print *)

(** X20: the date range is tested on the UTC calendar day of an entry,
    the reports and the CSV export print its local calendar day. For a
    date stored as a UTC midnight, in a zone at or ahead of UTC the two
    are the same day, so the day printed for a row of the table lies
    within the days chosen in the picker. *)
Theorem printed_day_within_range (h : Host) (range : option DateRange) (f : option Z)
    (e : LeasingEntry) (t : Z) :
  ahead_of_UTC h ->
  range ≫= from = Some f ->
  LocalDate.of_string h (date e) = Some t ->
  t mod JSDate.msPerDay = 0 ->
  inDateRange h range e = true ->
  JSDate.Day (LocalDate.LocalTime h t) = JSDate.Day t
  /\ local_day_text h t = local_day_text hostUTC t
  /\ exists from_day to_day,
       picker_day h f = Some from_day
       /\ picker_day h (default f (range ≫= to)) = Some to_day
       /\ from_day <= JSDate.Day (LocalDate.LocalTime h t) <= to_day.
Proof.
  intros Hzone Hf Ht Hmid Hin.
  assert (JSDate.Day (LocalDate.LocalTime h t) = JSDate.Day t) as Hsame.
  { unfold LocalDate.LocalTime, JSDate.Day. specialize (Hzone t).
    unfold JSDate.msPerDay in *. Z.to_euclidean_division_equations; lia. }
  split; [exact Hsame|]. split.
  - unfold local_day_text. cbv zeta.
    assert (LocalDate.LocalTime hostUTC t = t) as -> by (unfold LocalDate.LocalTime; cbn; lia).
    destruct (calendar_fields_of_day _ _ Hsame) as (-> & -> & ->). reflexivity.
  - apply (inDateRange_spec h range e f Hf) in Hin
      as (from_day & entry_day' & to_day & Hfrom & He & Hto & Hle).
    unfold entry_day in He. rewrite Ht in He. injection He as <-.
    exists from_day, to_day. rewrite Hsame. auto.
Qed.

Lemma printed_day_within_range_witness :
  local_day_text hostJakarta 1748736000000 = local_day_text hostUTC 1748736000000.
Proof.
  refine (proj1 (proj2 (printed_day_within_range hostJakarta
            (Some (june2025 hostJakarta)) (Some (1748736000000 - 25200000)) entryA
            1748736000000 _ eq_refl eq_refl eq_refl eq_refl))).
  intros t. change (0 <= 25200000 < 86400000). lia.
Defined.

(** In a zone behind UTC the day printed is the day before: the first
    row of June is printed with a date in May. *)
Example printed_day_before_range :
  displayed hostNewYork
    (dispatch hostNewYork (pageWith [entryA]) (ActSetDate (Some (june2025 hostNewYork))))
  = [entryA]
  /\ (tableRows <$> generatePdfDoc hostNewYork uiExample "Ayu"
                      (Some (june2025 hostNewYork)) [entryA])
     = Some [[CNumber 1; CNumber 3; CString "31/05/2025"; CString "Toko, Maju";
              CString "Maju Jaya"; CString "Retail"; CString "0812"; CString " x";
              CString EmptyString]]
  /\ (texts <$> generatePdfDoc hostNewYork uiExample "Ayu"
                  (Some (june2025 hostNewYork)) [entryA])
     = Some ["Leasing Report"; "Period: 1 June 2025 - 30 June 2025"; "Staff: Ayu"].
Proof. repeat split; vm_compute; reflexivity. Qed.

(** ** The sort selection *)

Lemma handleSort_key (sc : SortConfig) (k : EntryKey) :
  key <$> handleSort sc k = Some k.
Proof.
  unfold handleSort. destruct sc as [[k' d]|]; cbn; [|reflexivity].
  destruct (bool_decide (k' = k) && bool_decide (d = ascending)); reflexivity.
Qed.

Lemma not_sort_keeps_selection (h : Host) (p : PageState) (a : Action) :
  (forall k, a <> ActSort k) -> sortConfig (dispatch h p a) = sortConfig p.
Proof.
  intros Hns. destruct a; try reflexivity.
  - cbn. unfold confirmDelete. now destruct (entryToDelete p).
  - cbn. unfold deleteDialogOpenChange. now destruct (negb isOpen).
  - now elim (Hns k).
Qed.

(** X21: a sort selection, once made, is never dropped: whatever the
    user does afterwards (short of reloading the page) the table stays
    sorted, by the column chosen last. *)
Theorem sort_selection_persists (h : Host) (p : PageState) (before after : list Action)
    (k : EntryKey) :
  (forall k', ~ In (ActSort k') after) ->
  key <$> sortConfig (run h p (before ++ ActSort k :: after)) = Some k.
Proof.
  intros Hafter. unfold run. rewrite foldl_app. cbn [foldl].
  set (q := foldl (dispatch h) p before).
  assert (key <$> sortConfig (dispatch h q (ActSort k)) = Some k) as Hk
    by apply handleSort_key.
  revert Hk. generalize (dispatch h q (ActSort k)). clear q.
  induction after as [|a after IH]; intros q Hk; [exact Hk|].
  cbn [foldl]. apply IH.
  - intros k' Hin. apply (Hafter k'). now right.
  - rewrite not_sort_keeps_selection; [exact Hk|].
    intros k' ->. apply (Hafter k'). now left.
Qed.

Lemma sort_selection_persists_witness :
  key <$> sortConfig (run hostUTC (pageWith abc)
                        [ActSort Kweek; ActSort KtenantName; ActResetFilters;
                         ActDelete (week_of 1 "a"); ActConfirmDelete])
  = Some KtenantName.
Proof.
  apply (sort_selection_persists hostUTC (pageWith abc) [ActSort Kweek]
           [ActResetFilters; ActDelete (week_of 1 "a"); ActConfirmDelete] KtenantName).
  intros k' [H|[H|[H|[]]]]; discriminate H.
Defined.
